(** * nfs4_share: the share-tree engine of [src/nfs4_share/share.py]

    A shallow embedding of class [Share] over a model of the file
    system calls it issues ([os.makedirs], [os.link], [os.unlink],
    [os.rmdir], [os.stat], [os.walk], [os.path.*]) and of the ACL value
    objects it consumes, followed by the properties of the specification.

    Modelling scope.  Paths are absolute and canonical, given as their list
    of components; the name space has no symbolic links, so
    [os.path.realpath] is the identity and [followlinks] makes no
    difference to [os.walk].  A regular file is a directory entry that
    points to an inode; the inode carries the hardlink count and the ACL,
    so that every link of a file sees the same ACL. *)

From stdpp Require Import gmap strings list fin_maps.

Open Scope string_scope.

(** ** Paths ([os.path]) *)

Abbreviation path := (list string).

(** [os.path.basename]: the last component, [""] for the root. *)
Definition basename (p : path) : string := default "" (last p).

(** [os.path.join p n] for a single component [n]; joining the empty
    component yields the directory itself (["p/"]). *)
Definition join (p : path) (n : string) : path :=
  if decide (n = "") then p else p ++ [n].

(** [os.path.realpath]: paths are canonical and symlink-free.  What it does
    where symbolic links exist is [realpath_in], in the part on symbolic
    links below. *)
Definition realpath (p : path) : path := p.

(** The directory part of a path ([os.path.split(p)[0]]). *)
Definition parent (p : path) : path := removelast p.

Fixpoint strip_prefix (p k : path) : option path :=
  match p, k with
  | [], _ => Some k
  | a :: p', b :: k' => if decide (a = b) then strip_prefix p' k' else None
  | _ :: _, [] => None
  end.

(** [root.replace(source_root, within_share_dir_path, 1)] on a walk root,
    which always starts with [source_root]; a string that does not contain
    the pattern is returned unchanged. *)
Definition replace_root (source_root within : path) (root : path) : path :=
  match strip_prefix source_root root with
  | Some rest => within ++ rest
  | None => root
  end.

(** ** Access control values (module [acl], consumed by [share.py]) *)

Record AccessControlEntity := {
  entry_type : string;
  flags : string;
  identity : string;
  domain : string;
  permissions : string
}.

Global Instance AccessControlEntity_eq_dec : EqDecision AccessControlEntity.
Proof. solve_decision. Defined.

(** An [AccessControlList] wraps the list of its entries. *)
Abbreviation AccessControlList := (list AccessControlEntity).

(** Modelled from the spec: [AccessControlList.__sub__] of the absent module
    [acl]; the specification gives it as the set-difference of entries. *)
Definition acl_sub (a b : AccessControlList) : AccessControlList :=
  list_difference a b.

(** ** The file system *)

Inductive node :=
  | NDir (a : AccessControlList)
  | NFile (i : nat).

Global Instance node_eq_dec : EqDecision node.
Proof. solve_decision. Defined.

Record inode := {
  st_nlink : nat;
  i_acl : AccessControlList;
  (** whether the caller may create further hardlinks to the file
      (write access under [fs.protected_hardlinks]) *)
  i_linkable : bool
}.

Record filesystem := {
  nodes : gmap path node;
  inodes : gmap nat inode;
  (** the ACL a freshly created directory starts with *)
  new_dir_acl : AccessControlList
}.

Definition set_nodes (f : gmap path node → gmap path node) (fs : filesystem) :=
  {| nodes := f (nodes fs); inodes := inodes fs; new_dir_acl := new_dir_acl fs |}.

Definition set_inodes (f : gmap nat inode → gmap nat inode) (fs : filesystem) :=
  {| nodes := nodes fs; inodes := f (inodes fs); new_dir_acl := new_dir_acl fs |}.

Definition with_acl (a : AccessControlList) (ino : inode) : inode :=
  {| st_nlink := st_nlink ino; i_acl := a; i_linkable := i_linkable ino |}.

Definition with_nlink (n : nat) (ino : inode) : inode :=
  {| st_nlink := n; i_acl := i_acl ino; i_linkable := i_linkable ino |}.

(** *** Exceptions *)

Inductive errno := ENOTEMPTY | EBUSY | ELOOP.

(** The two ways a [FileNotFoundError] arises: from the operating system
    (ENOENT on [filename]) or raised by [_unshare_file] with its message. *)
Inductive not_found :=
  | Enoent (filename : path)
  | OneHardLink (target : path).

Inductive exn :=
  | FileExistsError (filename : path)
  | FileNotFoundError (why : not_found)
  | PermissionError (filename : path)
  | NotADirectoryError (filename : path)
  | IsADirectoryError (filename : path)
  | OSError (code : errno) (filename : path)
  | IllegalShareSetupError (directory : path)
  | ToolError (target : path).

Global Instance errno_eq_dec : EqDecision errno.
Proof. solve_decision. Defined.
Global Instance not_found_eq_dec : EqDecision not_found.
Proof. solve_decision. Defined.
Global Instance exn_eq_dec : EqDecision exn.
Proof. solve_decision. Defined.

(** *** Queries *)

Definition fs_exists (fs : filesystem) (p : path) : bool :=
  match nodes fs !! p with Some _ => true | None => false end.

Definition fs_isfile (fs : filesystem) (p : path) : bool :=
  match nodes fs !! p with Some (NFile _) => true | _ => false end.

Definition fs_isdir (fs : filesystem) (p : path) : bool :=
  match nodes fs !! p with Some (NDir _) => true | _ => false end.

Definition is_dir_node (n : node) : bool :=
  match n with NDir _ => true | NFile _ => false end.

(** The name of [k] as a direct entry of directory [p], if it is one. *)
Definition child_of (p k : path) : option string :=
  match strip_prefix p k with
  | Some [n] => if decide (n = "") then None else Some n
  | _ => None
  end.

(** The entries of directory [p], in the file system's own order. *)
Definition listdir (fs : filesystem) (p : path) : list (string * node) :=
  omap (λ kn : path * node, n ← child_of p kn.1; Some (n, kn.2))
       (map_to_list (nodes fs)).

(** One [os.scandir] pass of [os.walk]: the names of the sub-directories and
    of the other entries; [None] when [top] cannot be listed. *)
Definition scandir (fs : filesystem) (top : path) : option (list string * list string) :=
  if fs_isdir fs top then
    let es := listdir fs top in
    Some ((filter (λ e, is_dir_node e.2 = true) es).*1,
          (filter (λ e, is_dir_node e.2 = false) es).*1)
  else None.

(** [os.stat(p).st_nlink]. *)
Definition fs_stat_nlink (fs : filesystem) (p : path) : exn + nat :=
  match nodes fs !! p with
  | None => inl (FileNotFoundError (Enoent p))
  | Some (NDir _) =>
      inr (2 + length (filter (λ e, is_dir_node e.2 = true) (listdir fs p)))
  | Some (NFile i) =>
      match inodes fs !! i with
      | Some ino => inr (st_nlink ino)
      | None => inl (FileNotFoundError (Enoent p))
      end
  end.

(** *** System calls: the error raised, if any, and the file system left *)

(** An entry cannot be created under the empty name. *)
Definition nameless (p : path) : Prop := last p = Some "".

Global Instance nameless_dec p : Decision (nameless p).
Proof. unfold nameless. apply _. Defined.

Definition fs_mkdir (p : path) (fs : filesystem) : option exn * filesystem :=
  if decide (nameless p) then (Some (FileNotFoundError (Enoent p)), fs) else
  match nodes fs !! p with
  | Some _ => (Some (FileExistsError p), fs)
  | None =>
      match nodes fs !! parent p with
      | None => (Some (FileNotFoundError (Enoent p)), fs)
      | Some (NFile _) => (Some (NotADirectoryError p), fs)
      | Some (NDir _) => (None, set_nodes (insert p (NDir (new_dir_acl fs))) fs)
      end
  end.

(** [os.makedirs(name, exist_ok=...)], on the reversed path: create the
    missing parents first (ignoring a [FileExistsError] there), then the
    leaf; an error of the leaf [mkdir] is swallowed only when [exist_ok]
    holds and the leaf is a directory. *)
Fixpoint makedirs_rev (rname : list string) (exist_ok : bool) (fs : filesystem)
    : option exn * filesystem :=
  let name := rev rname in
  let '(r1, fs1) :=
    match rname with
    | [] => (None, fs)
    | _ :: rhead =>
        if fs_exists fs (rev rhead) then (None, fs)
        else match makedirs_rev rhead exist_ok fs with
             | (Some (FileExistsError _), fs') => (None, fs')
             | res => res
             end
    end in
  match r1 with
  | Some e => (Some e, fs1)
  | None =>
      match fs_mkdir name fs1 with
      | (Some e, fs2) =>
          if negb exist_ok || negb (fs_isdir fs2 name) then (Some e, fs2)
          else (None, fs2)
      | ok => ok
      end
  end.

Definition fs_makedirs (name : path) (exist_ok : bool) (fs : filesystem)
    : option exn * filesystem :=
  makedirs_rev (rev name) exist_ok fs.

(** [os.link(src, dst)]; the exception's [filename] is [src]. *)
Definition fs_link (src dst : path) (fs : filesystem) : option exn * filesystem :=
  if decide (nameless dst) then (Some (FileNotFoundError (Enoent src)), fs) else
  match nodes fs !! src with
  | None => (Some (FileNotFoundError (Enoent src)), fs)
  | Some nd =>
      match nodes fs !! parent dst with
      | None => (Some (FileNotFoundError (Enoent src)), fs)
      | Some (NFile _) => (Some (NotADirectoryError src), fs)
      | Some (NDir _) =>
          match nodes fs !! dst with
          | Some _ => (Some (FileExistsError src), fs)
          | None =>
              match nd with
              | NDir _ => (Some (PermissionError src), fs)
              | NFile i =>
                  match inodes fs !! i with
                  | None => (Some (FileNotFoundError (Enoent src)), fs)
                  | Some ino =>
                      if i_linkable ino then
                        (None,
                         set_inodes (insert i (with_nlink (S (st_nlink ino)) ino))
                           (set_nodes (insert dst (NFile i)) fs))
                      else (Some (PermissionError src), fs)
                  end
              end
          end
      end
  end.

(** [os.unlink(p)]: the entry goes, the inode loses a link and is freed with
    its last one. *)
Definition fs_unlink (p : path) (fs : filesystem) : option exn * filesystem :=
  match nodes fs !! p with
  | None => (Some (FileNotFoundError (Enoent p)), fs)
  | Some (NDir _) => (Some (IsADirectoryError p), fs)
  | Some (NFile i) =>
      (None,
       set_inodes
         (λ m, match m !! i with
               | Some ino =>
                   if decide (st_nlink ino ≤ 1)%nat then delete i m
                   else <[i := with_nlink (st_nlink ino - 1) ino]> m
               | None => m
               end)
         (set_nodes (delete p) fs))
  end.

(** [os.rmdir(p)]. *)
Definition fs_rmdir (p : path) (fs : filesystem) : option exn * filesystem :=
  match nodes fs !! p with
  | None => (Some (FileNotFoundError (Enoent p)), fs)
  | Some (NFile _) => (Some (NotADirectoryError p), fs)
  | Some (NDir _) =>
      match listdir fs p with
      | _ :: _ => (Some (OSError ENOTEMPTY p), fs)
      | [] =>
          if decide (p = []) then (Some (OSError EBUSY p), fs)
          else (None, set_nodes (delete p) fs)
      end
  end.

(** *** ACLs on the file system *)

Definition acl_of (fs : filesystem) (p : path) : option AccessControlList :=
  match nodes fs !! p with
  | Some (NDir a) => Some a
  | Some (NFile i) => i_acl <$> inodes fs !! i
  | None => None
  end.

(** The paths an ACL write on [target] reaches. *)
Definition in_scope (recursive : bool) (target k : path) : Prop :=
  if recursive then target `prefix_of` k else k = target.

Global Instance in_scope_dec recursive target k : Decision (in_scope recursive target k).
Proof. unfold in_scope. destruct recursive; apply _. Defined.

(** An ACL write reaches directory [k] itself, and a file through any of
    its entries in scope. *)
Definition rewrite_dir (f : AccessControlList → AccessControlList)
    (recursive : bool) (target k : path) (n : node) : node :=
  match n with
  | NDir a => if decide (in_scope recursive target k) then NDir (f a) else n
  | NFile _ => n
  end.

Definition reaches (recursive : bool) (target : path) (m : gmap path node) (i : nat)
    : Prop :=
  map_Exists (λ k n, in_scope recursive target k ∧ n = NFile i) m.

Global Instance reaches_dec recursive target m i : Decision (reaches recursive target m i).
Proof. unfold reaches. apply _. Defined.

Definition rewrite_inode (f : AccessControlList → AccessControlList)
    (recursive : bool) (target : path) (m : gmap path node) (i : nat) (ino : inode)
    : inode :=
  if decide (reaches recursive target m i) then with_acl (f (i_acl ino)) ino else ino.

(** Rewrite by [f] the ACL of every directory and of every file reached. *)
Definition acl_modify (f : AccessControlList → AccessControlList)
    (recursive : bool) (target : path) (fs : filesystem) : filesystem :=
  {| nodes := map_imap (λ k n, Some (rewrite_dir f recursive target k n)) (nodes fs);
     inodes :=
       map_imap (λ i ino, Some (rewrite_inode f recursive target (nodes fs) i ino))
         (inodes fs);
     new_dir_acl := new_dir_acl fs |}.

(** ** The world the program runs in *)

(** The file-system and ACL calls that completed, in order. *)
Inductive event :=
  | EvMakedirs (p : path)
  | EvLink (src dst : path)
  | EvUnlink (p : path)
  | EvRmdir (p : path)
  | EvAclSet (a : AccessControlList) (p : path)
  | EvAclAppend (a : AccessControlList) (p : path) (recursive : bool)
  | EvAclUnset (a : AccessControlList) (p : path) (recursive : bool).

Global Instance event_eq_dec : EqDecision event.
Proof. solve_decision. Defined.

(** The records handed to [logging], one constructor per format string. *)
Inductive level := DEBUG | ERROR.

Inductive message :=
  | MsgExists (name : string)
  | MsgAdding (directory : path) (items : list path)
  | MsgDirExists (filename : path)
  | MsgUnhandled (item : path)
  | MsgDuplicating (directory : path)
  | MsgUnsharingTree (directory : path)
  | MsgLocking (target : path)
  | MsgUnlocking (target : path)
  | MsgCreating (directory : path)
  | MsgLinking (source target : path)
  | MsgInsufficient (filename : path) (acl : AccessControlList)
  | MsgFileExists (filename : path)
  | MsgUnsharingDir (target : path)
  | MsgUnsharingFile (target : path)
  | MsgOneHardLink (target : path)
  | MsgNewPermissions (target : path) (acl : AccessControlList).

Record world := {
  w_fs : filesystem;
  w_ops : list event;
  w_log : list (level * message)
}.

(** *** Computations: state, exceptions, and running out of fuel *)

Inductive outcome (A : Type) :=
  | Ok (a : A)
  | Raise (e : exn)
  | OutOfFuel.
Arguments Ok {A} a.
Arguments Raise {A} e.
Arguments OutOfFuel {A}.

Definition M (A : Type) : Type := world → outcome A * world.

Definition ret {A} (a : A) : M A := λ w, (Ok a, w).

Definition bind {A B} (m : M A) (k : A → M B) : M B :=
  λ w, match m w with
       | (Ok a, w') => k a w'
       | (Raise e, w') => (Raise e, w')
       | (OutOfFuel, w') => (OutOfFuel, w')
       end.

Definition raise {A} (e : exn) : M A := λ w, (Raise e, w).

Definition out_of_fuel {A} : M A := λ w, (OutOfFuel, w).

(** [try: m except ...]: [handler e = None] when no clause matches [e]. *)
Definition try_except {A} (m : M A) (handler : exn → option (M A)) : M A :=
  λ w, match m w with
       | (Raise e, w') =>
           match handler e with
           | Some h => h w'
           | None => (Raise e, w')
           end
       | res => res
       end.

Declare Scope prog_scope.
Delimit Scope prog_scope with prog.
Notation "'let*' x ':=' m 'in' k" := (bind m (λ x, k))
  (at level 10, x name, m at level 100, k at level 200) : prog_scope.
Notation "m ;;; k" := (bind m (λ _, k))
  (at level 100, right associativity) : prog_scope.
Open Scope prog_scope.

(** [for x in l: f x]. *)
Fixpoint for_each {A} (l : list A) (f : A → M unit) : M unit :=
  match l with
  | [] => ret tt
  | x :: l' => f x ;;; for_each l' f
  end.

Definition get_fs : M filesystem := λ w, (Ok (w_fs w), w).

Definition log_add (lv : level) (m : message) (w : world) : world :=
  {| w_fs := w_fs w; w_ops := w_ops w; w_log := w_log w ++ [(lv, m)] |}.

Definition with_fs (fs : filesystem) (w : world) : world :=
  {| w_fs := fs; w_ops := w_ops w; w_log := w_log w |}.

Definition op_add (ev : event) (w : world) : world :=
  {| w_fs := w_fs w; w_ops := w_ops w ++ [ev]; w_log := w_log w |}.

Definition logging (lv : level) (m : message) : M unit :=
  λ w, (Ok tt, log_add lv m w).

(** A call into the file system: its effect is kept; the event is recorded
    when the call completes without an exception. *)
Definition syscall (ev : event) (f : filesystem → option exn * filesystem) : M unit :=
  λ w, match f (w_fs w) with
       | (Some e, fs') => (Raise e, with_fs fs' w)
       | (None, fs') => (Ok tt, op_add ev (with_fs fs' w))
       end.

Definition os_path_exists (p : path) : M bool := let* fs := get_fs in ret (fs_exists fs p).
Definition os_path_isfile (p : path) : M bool := let* fs := get_fs in ret (fs_isfile fs p).
Definition os_path_isdir (p : path) : M bool := let* fs := get_fs in ret (fs_isdir fs p).

Definition os_makedirs (name : path) (exist_ok : bool) : M unit :=
  syscall (EvMakedirs name) (fs_makedirs name exist_ok).
Definition os_link (src dst : path) : M unit := syscall (EvLink src dst) (fs_link src dst).
Definition os_unlink (p : path) : M unit := syscall (EvUnlink p) (fs_unlink p).
Definition os_rmdir (p : path) : M unit := syscall (EvRmdir p) (fs_rmdir p).

Definition os_stat_nlink (p : path) : M nat :=
  let* fs := get_fs in
  match fs_stat_nlink fs p with
  | inl e => raise e
  | inr n => ret n
  end.

(** [os.walk(top, topdown=True, followlinks=True)] fused with the loop body
    it feeds: the generator lists [top] when it is resumed, hands
    [(top, dirs, nondirs)] to the body, and only then descends into [dirs];
    a directory that cannot be listed is skipped silently. *)
Fixpoint os_walk (fuel : nat) (top : path)
    (body : path → list string → list string → M unit) : M unit :=
  match fuel with
  | 0 => out_of_fuel
  | S fuel' =>
      let* fs := get_fs in
      match scandir fs top with
      | None => ret tt
      | Some (dirs, nondirs) =>
          body top dirs nondirs ;;;
          for_each dirs (λ d, os_walk fuel' (join top d) body)
      end
  end.

(** [os.walk(top, topdown=False, followlinks=True)]: [top] is listed first,
    every sub-directory is walked, and [(top, dirs, nondirs)], as listed at
    the start, reaches the body last. *)
Fixpoint os_walk_bottomup (fuel : nat) (top : path)
    (body : path → list string → list string → M unit) : M unit :=
  match fuel with
  | 0 => out_of_fuel
  | S fuel' =>
      let* fs := get_fs in
      match scandir fs top with
      | None => ret tt
      | Some (dirs, nondirs) =>
          for_each dirs (λ d, os_walk_bottomup fuel' (join top d) body) ;;;
          body top dirs nondirs
      end
  end.

(** ** Class [Share] *)

Record Share := {
  directory : path;
  lock_acl : AccessControlList
}.

Definition lock_ace : AccessControlEntity :=
  {| entry_type := "D"; flags := ""; identity := "EVERYONE"; domain := "";
     permissions := "wadNTo" |}.

Section share.

(** What the ACL tool wrapper of module [acl] does when its target path
    does not exist, which the specification leaves open: raise the given
    exception, or ([None]) carry on, reading an empty list and writing
    nothing. *)
Variable acl_missing : option exn.

Definition missing {A} (a : A) : M A :=
  match acl_missing with
  | Some e => raise e
  | None => ret a
  end.

(** Modelled from the spec: [AccessControlList.from_file(path)] of the
    absent module [acl], which reads a path's current ACL. *)
Definition from_file (p : path) : M AccessControlList :=
  let* fs := get_fs in
  match acl_of fs p with
  | Some a => ret a
  | None => missing []
  end.

Definition acl_write (ev : event) (f : AccessControlList → AccessControlList)
    (recursive : bool) (target : path) : M unit :=
  let* fs := get_fs in
  match acl_of fs target with
  | Some _ => syscall ev (λ fs, (None, acl_modify f recursive target fs))
  | None => missing tt
  end.

(** Modelled from the spec: [acl.set(path)] of the absent module [acl],
    which makes [acl] the ACL of [path]. *)
Definition acl_set (acl : AccessControlList) (target : path) : M unit :=
  acl_write (EvAclSet acl target) (λ _, acl) false target.

(** Modelled from the spec: [acl.append(path[, recursive])] of the absent
    module [acl], which adds the entries of [acl] to the ACL of [path], and
    of everything beneath it when [recursive]. *)
Definition acl_append (acl : AccessControlList) (target : path) (recursive : bool)
    : M unit :=
  acl_write (EvAclAppend acl target recursive) (λ cur, (cur ++ acl)%list) recursive target.

(** Modelled from the spec: [acl.unset(path[, recursive])] of the absent
    module [acl], which takes the entries of [acl] out of the ACL of
    [path], and of everything beneath it when [recursive]. *)
Definition acl_unset (acl : AccessControlList) (target : path) (recursive : bool)
    : M unit :=
  acl_write (EvAclUnset acl target recursive) (λ cur, list_difference cur acl)
    recursive target.

(** [Share.__init__(directory, exist_ok=False)] *)
Definition __init__ (dir : path) (exist_ok : bool) : M Share :=
  let self_directory := realpath dir in
  let* ex := os_path_exists dir in
  (if ex then logging DEBUG (MsgExists (basename dir)) else ret tt) ;;;
  let* ex := os_path_exists dir in
  let* isf := os_path_isfile dir in
  if ex && isf then raise (IllegalShareSetupError dir)
  else
    os_makedirs dir exist_ok ;;;
    ret {| directory := self_directory; lock_acl := [lock_ace] |}.

(** The [permissions] property: the ACL of the share directory, read anew
    at every use. *)
Definition Share_permissions (self : Share) : M AccessControlList :=
  from_file (directory self).

Definition _lock (self : Share) (target : path) : M unit :=
  logging DEBUG (MsgLocking target) ;;;
  acl_append (lock_acl self) target true.

Definition _unlock (self : Share) (target : path) : M unit :=
  logging DEBUG (MsgUnlocking target) ;;;
  acl_unset (lock_acl self) target true.

Definition lock (self : Share) : M unit := _lock self (directory self).

Definition unlock (self : Share) : M unit := _unlock self (directory self).

Definition _makedir (self : Share) (dir : path) : M unit :=
  logging DEBUG (MsgCreating dir) ;;;
  os_makedirs dir false ;;;
  let* perms := Share_permissions self in
  acl_set perms dir.

Definition _unshare_dir (target : path) : M unit :=
  logging DEBUG (MsgUnsharingDir target) ;;;
  os_rmdir target.

Definition _unshare_file (self : Share) (target : path) (force : bool) : M unit :=
  logging DEBUG (MsgUnsharingFile target) ;;;
  (if negb force then
     let* n := os_stat_nlink target in
     if decide (n = 1) then
       logging ERROR (MsgOneHardLink target) ;;;
       raise (FileNotFoundError (OneHardLink target))
     else ret tt
   else ret tt) ;;;
  let* cur := from_file target in
  let* perms := Share_permissions self in
  let new_permissions := acl_sub cur perms in
  logging DEBUG (MsgNewPermissions target new_permissions) ;;;
  acl_set new_permissions target ;;;
  os_unlink target.

(** The [try] block of [_link_files]. *)
Definition link_attempt (self : Share) (source target : path) : M unit :=
  _unlock self source ;;;
  logging DEBUG (MsgLinking source target) ;;;
  os_link (realpath source) target ;;;
  let* perms := Share_permissions self in
  acl_append perms target false.

(** The [except] clauses of [_link_files]; [retry] is the call of
    [_link_files] on the same arguments that ends the second clause. *)
Definition link_handler (self : Share) (target : path) (retry : M unit) (e : exn)
    : option (M unit) :=
  match e with
  | PermissionError filename =>
      Some (let* acl := from_file target in
            logging ERROR (MsgInsufficient filename acl))
  | FileExistsError filename =>
      Some (logging DEBUG (MsgFileExists filename) ;;;
            _unshare_file self target false ;;;
            retry)
  | _ => None
  end.

(** [_link_files] calls itself after un-sharing a target that is in the
    way; [fuel] bounds that recursion. *)
Fixpoint _link_files (fuel : nat) (self : Share) (source target : path) : M unit :=
  match fuel with
  | 0 => out_of_fuel
  | S fuel' =>
      try_except (link_attempt self source target)
        (link_handler self target (_link_files fuel' self source target))
  end.

Definition _duplicate_as_linked_tree (fuel : nat) (self : Share) (source_root : path)
    : M unit :=
  logging DEBUG (MsgDuplicating (directory self)) ;;;
  let within_share_dir_path := join (directory self) (basename source_root) in
  _makedir self within_share_dir_path ;;;
  os_walk fuel source_root (λ root subdirectories files,
    let share_root := replace_root source_root within_share_dir_path root in
    for_each subdirectories (λ subdir,
      let target := join share_root subdir in
      _makedir self target) ;;;
    for_each files (λ file,
      let source := join root file in
      let target := join share_root file in
      _link_files fuel self source target)).

Definition _unshare_linked_tree (fuel : nat) (self : Share) (dir : path)
    (force_file_removal : bool) : M unit :=
  logging DEBUG (MsgUnsharingTree (directory self)) ;;;
  os_walk_bottomup fuel dir (λ root subdirectories files,
    for_each files (λ shared_file,
      _unshare_file self (join root shared_file) force_file_removal) ;;;
    for_each subdirectories (λ sub_dir,
      _unshare_dir (join root sub_dir))) ;;;
  os_rmdir dir.

Definition self_destruct (fuel : nat) (self : Share) (force_file_removal : bool)
    : M unit :=
  _unshare_linked_tree fuel self (directory self) force_file_removal.

(** [Share.add(items)].  The last loop runs over a set; its elements are
    taken here once each, in the order of their last occurrence in [items]. *)
Definition add (fuel : nat) (self : Share) (items : list path) : M unit :=
  logging DEBUG (MsgAdding (directory self) items) ;;;
  let* fs := get_fs in
  let files := filter (λ i, fs_isfile fs i = true) items in
  let directories := filter (λ i, fs_isdir fs i = true) items in
  for_each files (λ file,
    let shared_file := join (directory self) (basename file) in
    _link_files fuel self file shared_file) ;;;
  for_each directories (λ dir,
    try_except (_duplicate_as_linked_tree fuel self dir)
      (λ e, match e with
            | FileExistsError filename =>
                Some (logging DEBUG (MsgDirExists filename) ;;;
                      _unshare_linked_tree fuel self filename false ;;;
                      _duplicate_as_linked_tree fuel self dir)
            | _ => None
            end)) ;;;
  for_each (remove_dups (list_difference items (directories ++ files)))
    (λ unhandled_item, logging ERROR (MsgUnhandled unhandled_item)).

(** The two loops of [add] that handle its files and its directories. *)
Definition add_handle (fuel : nat) (self : Share) (files directories : list path)
    : M unit :=
  for_each files (λ file,
    let shared_file := join (directory self) (basename file) in
    _link_files fuel self file shared_file) ;;;
  for_each directories (λ dir,
    try_except (_duplicate_as_linked_tree fuel self dir)
      (λ e, match e with
            | FileExistsError filename =>
                Some (logging DEBUG (MsgDirExists filename) ;;;
                      _unshare_linked_tree fuel self filename false ;;;
                      _duplicate_as_linked_tree fuel self dir)
            | _ => None
            end)).

End share.

(** ** Well-formed file systems *)

(** The directory entries that point to inode [i]. *)
Definition links_to (fs : filesystem) (i : nat) : gmap path node :=
  filter (λ kn : path * node, kn.2 = NFile i) (nodes fs).

(** Every entry lies in a directory and has a name, every file entry has its
    inode, and an inode counts exactly the entries that point to it. *)
Record wf (fs : filesystem) : Prop := {
  wf_parent : ∀ k n, is_Some (nodes fs !! (k ++ [n])%list) →
                     n ≠ "" ∧ fs_isdir fs k = true;
  wf_inode : ∀ k i, nodes fs !! k = Some (NFile i) → is_Some (inodes fs !! i);
  wf_nlink : ∀ i ino, inodes fs !! i = Some ino → st_nlink ino = size (links_to fs i)
}.

(** ** Relations between the world before and after a computation *)

(** [m] takes every world to one that is [R]-related to it, whatever the
    outcome. *)
Definition preserves {A} (R : world → world → Prop) (m : M A) : Prop :=
  ∀ w, R w (m w).2.

(** The file system after one call into it, whatever its outcome. *)
Inductive sysstep (fs : filesystem) : filesystem → Prop :=
  | step_makedirs name exist_ok : sysstep fs (fs_makedirs name exist_ok fs).2
  | step_link src dst : sysstep fs (fs_link src dst fs).2
  | step_unlink p : sysstep fs (fs_unlink p fs).2
  | step_rmdir p : sysstep fs (fs_rmdir p fs).2
  | step_acl f recursive target : sysstep fs (acl_modify f recursive target fs).

(** A relation that every elementary step of the program respects: a log
    record, a call into the file system, the recording of a completed call. *)
Class StepInv (R : world → world → Prop) : Prop := {
  step_inv_preorder : PreOrder R;
  step_inv_log : ∀ w lv m, R w (log_add lv m w);
  step_inv_fs : ∀ w fs', sysstep (w_fs w) fs' → R w (with_fs fs' w);
  step_inv_op : ∀ w ev, R w (op_add ev w)
}.

(** Well-formedness is kept. *)
Definition keeps_wf (w w' : world) : Prop := wf (w_fs w) → wf (w_fs w').

(** The trace of completed calls and the log only grow. *)
Definition grows (w w' : world) : Prop :=
  (∃ t, w_ops w' = (w_ops w ++ t)%list) ∧ (∃ l, w_log w' = (w_log w ++ l)%list).

(** Two worlds that differ at most in their log. *)
Definition same_run (w w' : world) : Prop :=
  w_fs w = w_fs w' ∧ w_ops w = w_ops w'.


(** Call [ev] completed, and record [r] was logged, between [w] and [w']. *)
Definition emitted (w w' : world) (ev : event) : Prop :=
  ∃ t, w_ops w' = (w_ops w ++ t)%list ∧ ev ∈ t.

Definition logged (w w' : world) (r : level * message) : Prop :=
  ∃ l, w_log w' = (w_log w ++ l)%list ∧ r ∈ l.

(** Well-formedness, entry by entry: the form that can be decided on a
    given file system. *)
Definition wf_entries (fs : filesystem) : Prop :=
  map_Forall (λ (k : path) nd,
      (k = [] ∨ (last k ≠ Some "" ∧ fs_isdir fs (parent k) = true)) ∧
      match nd with NFile i => is_Some (inodes fs !! i) | NDir _ => True end)
    (nodes fs) ∧
  map_Forall (λ i ino, st_nlink ino = size (links_to fs i)) (inodes fs).

Global Instance wf_entries_dec fs : Decision (wf_entries fs).
Proof.
  unfold wf_entries. apply and_dec; [|apply _].
  apply map_Forall_dec. intros k nd. apply and_dec; [apply _|].
  destruct nd; apply _.
Defined.

(** The calls into the file system other than [os.unlink]. *)
Inductive sysstep_keep (fs : filesystem) : filesystem → Prop :=
  | keep_makedirs name exist_ok : sysstep_keep fs (fs_makedirs name exist_ok fs).2
  | keep_link src dst : sysstep_keep fs (fs_link src dst fs).2
  | keep_rmdir p : sysstep_keep fs (fs_rmdir p fs).2
  | keep_acl f recursive target : sysstep_keep fs (acl_modify f recursive target fs).

(** Every inode that counts a hard link still exists and still counts one:
    no file has lost its last link. *)
Definition links_kept (fs fs' : filesystem) : Prop :=
  ∀ i ino, inodes fs !! i = Some ino → (0 < st_nlink ino)%nat →
    ∃ ino', inodes fs' !! i = Some ino' ∧ (0 < st_nlink ino')%nat.

Definition keeps_links (w w' : world) : Prop :=
  wf (w_fs w) → wf (w_fs w') ∧ links_kept (w_fs w) (w_fs w').

(** The path a completed call acted on. *)
Definition written (ev : event) : path :=
  match ev with
  | EvMakedirs p | EvLink _ p | EvUnlink p | EvRmdir p
  | EvAclSet _ p | EvAclAppend _ p _ | EvAclUnset _ p _ => p
  end.

(** The calls of un-sharing: setting an ACL, [os.unlink], [os.rmdir]. *)
Definition removal (ev : event) : Prop :=
  match ev with
  | EvAclSet _ _ | EvUnlink _ | EvRmdir _ => True
  | _ => False
  end.

(** Outside directory [dir] the directory entries are what they were, and
    the calls completed since are calls of un-sharing on paths at or below
    [dir]. *)
Definition confined (dir : path) (w w' : world) : Prop :=
  (∀ k, ¬ dir `prefix_of` k → nodes (w_fs w') !! k = nodes (w_fs w) !! k) ∧
  ∃ t, w_ops w' = (w_ops w ++ t)%list ∧
       Forall (λ ev, removal ev ∧ dir `prefix_of` written ev) t.

(** ** Mirroring a directory tree *)

(** The loop body that [_duplicate_as_linked_tree] runs on each
    [(root, subdirectories, files)] of the walk; [within] is the directory
    inside the share that stands for [source_root]. *)
Definition duplicate_body (acl_missing : option exn) (fuel : nat) (self : Share)
    (source_root within : path) (root : path) (subdirectories files : list string)
    : M unit :=
  let share_root := replace_root source_root within root in
  for_each subdirectories (λ subdir,
    let target := join share_root subdir in
    _makedir acl_missing self target) ;;;
  for_each files (λ file,
    let source := join root file in
    let target := join share_root file in
    _link_files acl_missing fuel self source target).

(** The entry that mirrors an entry of the source tree: a directory of its
    own, with the ACL of the share, or the same file. *)
Definition mirror_node (perms : AccessControlList) (n : node) : node :=
  match n with
  | NDir _ => NDir perms
  | NFile i => NFile i
  end.

(** Every inode is still there and may be hard-linked as before. *)
Definition inodes_kept (fs fs' : filesystem) : Prop :=
  ∀ i ino, inodes fs !! i = Some ino →
    ∃ ino', inodes fs' !! i = Some ino' ∧ i_linkable ino' = i_linkable ino.

(** What the walk needs when it reaches directory [src], to be mirrored at
    [dst]: [dst] is an empty directory, the share directory carries [perms],
    the files below [src] may be hard-linked, and [fuel] exceeds the depth
    of the tree below [src]. *)
Definition mirror_ready (self : Share) (perms : AccessControlList) (fuel : nat)
    (src dst : path) (fs : filesystem) : Prop :=
  wf fs ∧
  fs_isdir fs src = true ∧
  fs_isdir fs dst = true ∧
  (∀ s, s ≠ [] → nodes fs !! (dst ++ s)%list = None) ∧
  nodes fs !! directory self = Some (NDir perms) ∧
  (∀ s i ino, nodes fs !! (src ++ s)%list = Some (NFile i) →
              inodes fs !! i = Some ino → i_linkable ino = true) ∧
  (∀ s, is_Some (nodes fs !! (src ++ s)%list) → (length s < fuel)%nat).

(** File system [fs'] is [fs] with the tree below [src] mirrored below
    [dst], and nothing else touched among the directory entries. *)
Definition mirrored (perms : AccessControlList) (src dst : path)
    (fs fs' : filesystem) : Prop :=
  wf fs' ∧
  (∀ s, s ≠ [] →
     nodes fs' !! (dst ++ s)%list = mirror_node perms <$> nodes fs !! (src ++ s)%list) ∧
  (∀ k, (∀ s, s ≠ [] → k ≠ (dst ++ s)%list) → nodes fs' !! k = nodes fs !! k) ∧
  inodes_kept fs fs'.

(** File system [fs'] holds at [mirror] an exact mirror of the tree at
    [source_root] of [fs], every other directory entry being as in [fs]. *)
Definition holds_mirror (perms : AccessControlList) (source_root mirror : path)
    (fs fs' : filesystem) : Prop :=
  ∀ k, nodes fs' !! k =
       match strip_prefix mirror k with
       | Some s => mirror_node perms <$> nodes fs !! (source_root ++ s)%list
       | None => nodes fs !! k
       end.

(** ** Removing a directory tree *)

(** The loop body that [_unshare_linked_tree] runs on each
    [(root, subdirectories, files)] of the bottom-up walk. *)
Definition unshare_body (acl_missing : option exn) (self : Share)
    (force_file_removal : bool) (root : path) (subdirectories files : list string)
    : M unit :=
  for_each files (λ shared_file,
    _unshare_file acl_missing self (join root shared_file) force_file_removal) ;;;
  for_each subdirectories (λ sub_dir, _unshare_dir (join root sub_dir)).

(** Every file at or below [dir] has a hard link that is not. *)
Definition linked_outside (dir : path) (fs : filesystem) : Prop :=
  ∀ s i, nodes fs !! (dir ++ s)%list = Some (NFile i) →
    ∃ k, ¬ dir `prefix_of` k ∧ nodes fs !! k = Some (NFile i).

(** What the bottom-up walk needs when it is started on directory [top],
    at or below [dir]: the share directory carries [perms], the un-share
    guard will not fire, and [fuel] exceeds the depth of the tree below
    [top]. *)
Definition unshare_ready (self : Share) (perms : AccessControlList) (force : bool)
    (fuel : nat) (dir top : path) (fs : filesystem) : Prop :=
  wf fs ∧
  fs_isdir fs top = true ∧
  nodes fs !! directory self = Some (NDir perms) ∧
  (force = true ∨ linked_outside dir fs) ∧
  (∀ s, is_Some (nodes fs !! (top ++ s)%list) → (length s < fuel)%nat).

(** File system [fs'] is [fs] without the entries strictly below [top]. *)
Definition emptied (dir top : path) (fs fs' : filesystem) : Prop :=
  wf fs' ∧
  (∀ s, s ≠ [] → nodes fs' !! (top ++ s)%list = None) ∧
  (∀ k, (∀ s, s ≠ [] → k ≠ (top ++ s)%list) → nodes fs' !! k = nodes fs !! k) ∧
  (linked_outside dir fs → inodes_kept fs fs').

(** File system [fs'] is [fs] without directory [dir] and all below it. *)
Definition tree_removed (dir : path) (fs fs' : filesystem) : Prop :=
  ∀ k, nodes fs' !! k = if decide (dir `prefix_of` k) then None else nodes fs !! k.

(** [linked_outside], entry by entry: the form that can be decided on a
    given file system. *)
Definition linked_outside_entries (dir : path) (fs : filesystem) : Prop :=
  map_Forall (λ (k : path) nd,
      dir `prefix_of` k →
      match nd with
      | NFile i =>
          map_Exists (λ (k' : path) nd', ¬ dir `prefix_of` k' ∧ nd' = NFile i) (nodes fs)
      | NDir _ => True
      end)
    (nodes fs).

Global Instance linked_outside_entries_dec dir fs : Decision (linked_outside_entries dir fs).
Proof.
  unfold linked_outside_entries. apply map_Forall_dec. intros k nd.
  apply impl_dec; [apply _|]. destruct nd; apply _.
Defined.

(** ** Symbolic links *)

(** The methods above are embedded on file systems without symbolic links,
    where [os.path.realpath] has nothing to resolve.  This part adds symbolic
    links to files, as far as the [try] block of [_link_files] goes: a link
    is a directory entry of its own, at a path that holds no file and no
    directory, and names the path it points to.  Directories are not reached
    through links here. *)
Record linked_world := {
  lw_links : gmap path path;
  lw_world : world
}.

Definition ML (A : Type) : Type := linked_world → outcome A * linked_world.

Definition bindL {A B} (m : ML A) (k : A → ML B) : ML B :=
  λ lw, match m lw with
        | (Ok a, lw') => k a lw'
        | (Raise e, lw') => (Raise e, lw')
        | (OutOfFuel, lw') => (OutOfFuel, lw')
        end.

(** A computation that does not look at the links. *)
Definition lift {A} (m : M A) : ML A :=
  λ lw, let '(r, w') := m (lw_world lw) in
        (r, {| lw_links := lw_links lw; lw_world := w' |}).

(** Follow the links at [p]; a link met a second time closes a loop, and the
    path is left there. *)
Fixpoint chase (fuel : nat) (seen : list path) (links : gmap path path) (p : path)
    : path :=
  match links !! p with
  | None => p
  | Some t =>
      if decide (p ∈ seen) then p else
      match fuel with
      | 0 => p
      | S fuel' => chase fuel' (p :: seen) links t
      end
  end.

(** [os.path.realpath] where links exist; [size links] links cannot be
    followed without meeting one twice. *)
Definition realpath_in (links : gmap path path) (p : path) : path :=
  chase (size links) [] links p.

Definition os_path_realpath (p : path) : ML path :=
  λ lw, (Ok (realpath_in (lw_links lw) p), lw).

(** The exception of a call names the path that was handed to the call. *)
Definition rename_exn (p : path) (e : exn) : exn :=
  match e with
  | FileExistsError _ => FileExistsError p
  | FileNotFoundError _ => FileNotFoundError (Enoent p)
  | PermissionError _ => PermissionError p
  | NotADirectoryError _ => NotADirectoryError p
  | IsADirectoryError _ => IsADirectoryError p
  | OSError code _ => OSError code p
  | e => e
  end.

(** [os.link(src, dst)] where links exist.  A link at [dst] is never
    followed: the name is taken.  Whether a link at [src] is followed is up
    to the platform ([follow]): the [link] call of Linux does not follow it,
    and the new name is then a second name of the link itself. *)
Definition fs_link_in (follow : bool) (src dst : path) (links : gmap path path)
    (fs : filesystem) : option exn * (gmap path path * filesystem) :=
  let taken (real : path) : option exn * (gmap path path * filesystem) :=
    if fs_exists fs real then (Some (FileExistsError src), (links, fs))
    else (Some (FileNotFoundError (Enoent src)), (links, fs)) in
  match links !! src with
  | None =>
      match links !! dst with
      | Some _ => taken src
      | None => let '(e, fs') := fs_link src dst fs in (e, (links, fs'))
      end
  | Some t =>
      if follow then
        let real := realpath_in links src in
        match links !! real, links !! dst with
        | Some _, _ => (Some (OSError ELOOP src), (links, fs))
        | None, Some _ => taken real
        | None, None =>
            let '(e, fs') := fs_link real dst fs in (rename_exn src <$> e, (links, fs'))
        end
      else
        if decide (nameless dst) then (Some (FileNotFoundError (Enoent src)), (links, fs))
        else
          match nodes fs !! parent dst with
          | None => (Some (FileNotFoundError (Enoent src)), (links, fs))
          | Some (NFile _) => (Some (NotADirectoryError src), (links, fs))
          | Some (NDir _) =>
              match nodes fs !! dst, links !! dst with
              | None, None => (None, (<[dst := t]> links, fs))
              | _, _ => (Some (FileExistsError src), (links, fs))
              end
          end
  end.

Definition os_link_in (follow : bool) (src dst : path) : ML unit :=
  λ lw, match fs_link_in follow src dst (lw_links lw) (w_fs (lw_world lw)) with
        | (Some e, (links', fs')) =>
            (Raise e, {| lw_links := links'; lw_world := with_fs fs' (lw_world lw) |})
        | (None, (links', fs')) =>
            (Ok tt, {| lw_links := links';
                       lw_world := op_add (EvLink src dst) (with_fs fs' (lw_world lw)) |})
        end.

Section linked.
Variable acl_missing : option exn.

(** Modelled from the spec: the ACL calls of the absent module [acl], where
    links exist.  The tool is taken to act on the file that its path leads
    to, as the system calls under it do. *)
Definition acl_write_in (ev : event) (f : AccessControlList → AccessControlList)
    (recursive : bool) (target : path) : ML unit :=
  λ lw, lift (acl_write acl_missing ev f recursive (realpath_in (lw_links lw) target)) lw.

Definition _unlock_in (self : Share) (target : path) : ML unit :=
  bindL (lift (logging DEBUG (MsgUnlocking target))) (λ _,
  acl_write_in (EvAclUnset (lock_acl self) target true)
    (λ cur, list_difference cur (lock_acl self)) true target).

(** The [try] block of [_link_files], where links exist. *)
Definition link_attempt_in (follow : bool) (self : Share) (source target : path)
    : ML unit :=
  bindL (_unlock_in self source) (λ _,
  bindL (lift (logging DEBUG (MsgLinking source target))) (λ _,
  bindL (os_path_realpath source) (λ real,
  bindL (os_link_in follow real target) (λ _,
  bindL (lift (Share_permissions acl_missing self)) (λ perms,
  acl_write_in (EvAclAppend perms target false) (λ cur, (cur ++ perms)%list)
    false target))))).

End linked.

(** ** The order of un-sharing *)

(** A trace of completed calls in which nothing is touched at or below a
    directory once [os.rmdir] has removed it. *)
Definition bottom_up (t : list event) : Prop :=
  ∀ t1 p t2, t = (t1 ++ EvRmdir p :: t2)%list →
    Forall (λ ev, ¬ p `prefix_of` written ev) t2.

(** What un-sharing does between [w] and [w'], on a well-formed file
    system: no entry appears or changes its kind; the calls completed are
    calls of un-sharing on entries that existed; an entry that is gone went
    by a completed [os.rmdir], if a directory, or [os.unlink], if a file, of
    its path; a directory removed is gone with everything below it; and the
    trace is bottom-up. *)
Definition unsharing (w w' : world) : Prop :=
  wf (w_fs w) →
  wf (w_fs w') ∧
  (∀ k nd', nodes (w_fs w') !! k = Some nd' →
     ∃ nd, nodes (w_fs w) !! k = Some nd ∧ is_dir_node nd = is_dir_node nd') ∧
  ∃ t, w_ops w' = (w_ops w ++ t)%list ∧
    Forall (λ ev, removal ev ∧ is_Some (nodes (w_fs w) !! written ev)) t ∧
    (∀ k nd, nodes (w_fs w) !! k = Some nd → nodes (w_fs w') !! k = None →
       (if is_dir_node nd then EvRmdir k else EvUnlink k) ∈ t) ∧
    (∀ p, EvRmdir p ∈ t → ∀ s, nodes (w_fs w') !! (p ++ s)%list = None) ∧
    bottom_up t.

(** ** Concrete file systems for the examples *)

Definition ace (t who perms : string) : AccessControlEntity :=
  {| entry_type := t; flags := ""; identity := who; domain := ""; permissions := perms |}.

Definition owner_rw : AccessControlEntity := ace "A" "OWNER@" "rw".
Definition group_r : AccessControlEntity := ace "A" "GROUP@" "r".

Definition ex_share : Share := {| directory := ["s"]; lock_acl := [lock_ace] |}.

(** A share [/s] that holds a second link of [/data/f.txt] and the only
    link of a file whose original is gone. *)
Definition ex_fs : filesystem :=
  {| nodes := list_to_map
       [ ([], NDir [owner_rw]);
         (["data"], NDir [owner_rw]);
         (["data"; "f.txt"], NFile 1);
         (["s"], NDir [owner_rw]);
         (["s"; "f.txt"], NFile 1);
         (["s"; "stale"], NFile 2) ];
     inodes := list_to_map
       [ (1, {| st_nlink := 2; i_acl := [group_r; owner_rw]; i_linkable := true |});
         (2, {| st_nlink := 1; i_acl := [group_r]; i_linkable := true |}) ];
     new_dir_acl := [owner_rw] |}.

Definition ex_world : world := {| w_fs := ex_fs; w_ops := []; w_log := [] |}.

(** A share [/s] that mirrors the directory [/data] with its one file. *)
Definition ex_mirrored : filesystem :=
  {| nodes := list_to_map
       [ ([], NDir [owner_rw]);
         (["data"], NDir [owner_rw]);
         (["data"; "f.txt"], NFile 1);
         (["s"], NDir [owner_rw]);
         (["s"; "data"], NDir [owner_rw]);
         (["s"; "data"; "f.txt"], NFile 1) ];
     inodes := list_to_map
       [ (1, {| st_nlink := 2; i_acl := [group_r; owner_rw]; i_linkable := true |}) ];
     new_dir_acl := [owner_rw] |}.

Definition ex_mirrored_world : world :=
  {| w_fs := ex_mirrored; w_ops := []; w_log := [] |}.

(** A file that may not be hard-linked, and carries a lock entry. *)
Definition ex_protected : filesystem :=
  {| nodes := list_to_map
       [ ([], NDir [owner_rw]);
         (["data"], NDir [owner_rw]);
         (["data"; "ro.txt"], NFile 3);
         (["s"], NDir [owner_rw]) ];
     inodes := list_to_map
       [ (3, {| st_nlink := 1; i_acl := [group_r; lock_ace]; i_linkable := false |}) ];
     new_dir_acl := [owner_rw] |}.

Definition ex_protected_world : world :=
  {| w_fs := ex_protected; w_ops := []; w_log := [] |}.

(** An empty share [/s] beside a file that carries a lock entry. *)
Definition ex_empty_share : filesystem :=
  {| nodes := list_to_map
       [ ([], NDir [owner_rw]);
         (["data"], NDir [owner_rw]);
         (["data"; "f.txt"], NFile 1);
         (["s"], NDir [owner_rw]) ];
     inodes := list_to_map
       [ (1, {| st_nlink := 1; i_acl := [group_r; owner_rw; lock_ace];
                i_linkable := true |}) ];
     new_dir_acl := [owner_rw] |}.

Definition ex_empty_share_world : world :=
  {| w_fs := ex_empty_share; w_ops := []; w_log := [] |}.

(** A source tree [/data] with a sub-directory, beside an empty share [/s]
    whose ACL differs from that of the source directories. *)
Definition ex_tree : filesystem :=
  {| nodes := list_to_map
       [ ([], NDir [owner_rw]);
         (["data"], NDir [owner_rw]);
         (["data"; "f.txt"], NFile 1);
         (["data"; "sub"], NDir [owner_rw]);
         (["data"; "sub"; "g.txt"], NFile 2);
         (["s"], NDir [group_r]) ];
     inodes := list_to_map
       [ (1, {| st_nlink := 1; i_acl := [owner_rw]; i_linkable := true |});
         (2, {| st_nlink := 1; i_acl := [owner_rw]; i_linkable := true |}) ];
     new_dir_acl := [owner_rw] |}.

Definition ex_tree_world : world := {| w_fs := ex_tree; w_ops := []; w_log := [] |}.





(** A symbolic link [/data/alias] to the file [/data/f.txt]. *)
Definition ex_links : gmap path path := {[ ["data"; "alias"] := ["data"; "f.txt"] ]}.



(** * Properties *)

Arguments fs_stat_nlink : simpl never.
Arguments fs_mkdir : simpl never.
Arguments fs_makedirs : simpl never.
Arguments fs_link : simpl never.
Arguments fs_unlink : simpl never.
Arguments fs_rmdir : simpl never.
Arguments acl_of : simpl never.
Arguments acl_modify : simpl never.
Arguments scandir : simpl never.
Arguments listdir : simpl never.
Arguments bind : simpl never.
Arguments logging : simpl never.
Arguments get_fs : simpl never.
Arguments syscall : simpl never.
Arguments try_except : simpl never.

(** ** Running computations *)

Lemma bind_ret {A B} (a : A) (k : A → M B) w : bind (ret a) k w = k a w.
Proof. done. Qed.

Lemma bind_raise {A B} e (k : A → M B) w : bind (raise e) k w = (Raise e, w).
Proof. done. Qed.

Lemma bind_out_of_fuel {A B} (k : A → M B) w : bind out_of_fuel k w = (OutOfFuel, w).
Proof. done. Qed.

Lemma bind_logging {B} lv m (k : unit → M B) w :
  bind (logging lv m) k w = k tt (log_add lv m w).
Proof. done. Qed.

Lemma bind_get_fs {B} (k : filesystem → M B) w : bind get_fs k w = k (w_fs w) w.
Proof. done. Qed.

Lemma bind_bind {A B C} (m : M A) (k : A → M B) (h : B → M C) w :
  bind (bind m k) h w = bind m (λ a, bind (k a) h) w.
Proof. unfold bind. by destruct (m w) as [[a|e|] w']. Qed.

Lemma bind_Ok {A B} (m : M A) (k : A → M B) w a w' :
  m w = (Ok a, w') → bind m k w = k a w'.
Proof. unfold bind. by intros ->. Qed.

Lemma bind_Raise {A B} (m : M A) (k : A → M B) w e w' :
  m w = (Raise e, w') → bind m k w = (Raise e, w').
Proof. unfold bind. by intros ->. Qed.

Lemma syscall_Ok ev f w fs' :
  f (w_fs w) = (None, fs') → syscall ev f w = (Ok tt, op_add ev (with_fs fs' w)).
Proof. unfold syscall. by intros ->. Qed.

Lemma syscall_Raise ev f w e fs' :
  f (w_fs w) = (Some e, fs') → syscall ev f w = (Raise e, with_fs fs' w).
Proof. unfold syscall. by intros ->. Qed.

Ltac mstep :=
  repeat first
    [ rewrite bind_bind | rewrite bind_logging | rewrite bind_get_fs
    | rewrite bind_ret | rewrite bind_raise | rewrite bind_out_of_fuel
    | progress cbn [w_fs w_ops w_log log_add with_fs op_add] ].

(** ** Paths *)

Lemma strip_prefix_Some p k r : strip_prefix p k = Some r ↔ k = (p ++ r)%list.
Proof.
  revert k. induction p as [|a p IH]; intros k; simpl.
  - split; [intros [= ->] | intros ->]; done.
  - destruct k as [|b k]; [split; [done | intros [=]] |].
    case_decide as Hab.
    + subst b. rewrite IH. split; [intros -> | intros [= ->]]; done.
    + split; [done | intros [= -> ->]; done].
Qed.

Lemma strip_prefix_app p r : strip_prefix p (p ++ r) = Some r.
Proof. by apply strip_prefix_Some. Qed.

Lemma child_of_Some p k n : child_of p k = Some n ↔ k = (p ++ [n])%list ∧ n ≠ "".
Proof.
  unfold child_of. destruct (strip_prefix p k) as [r|] eqn:Hr.
  - apply strip_prefix_Some in Hr. subst k.
    destruct r as [|m [|m' r]].
    + split; [done | intros [H _]].
      rewrite app_nil_r in H. apply (f_equal length) in H.
      rewrite length_app in H. simpl in H. lia.
    + case_decide as Hm.
      * split; [done | intros [H Hn]]. apply app_inv_head in H. congruence.
      * split; [intros [= ->]; done | intros [H Hn]].
        apply app_inv_head in H. congruence.
    + split; [done | intros [H _]]. apply app_inv_head in H. done.
  - split; [done | intros [-> _]]. by rewrite strip_prefix_app in Hr.
Qed.

Lemma join_snoc p n : n ≠ "" → join p n = (p ++ [n])%list.
Proof. intros Hn. unfold join. by rewrite decide_False. Qed.

Lemma parent_snoc p n : parent (p ++ [n]) = p.
Proof. apply removelast_last. Qed.

Lemma basename_snoc p n : basename (p ++ [n]) = n.
Proof. unfold basename. by rewrite last_snoc. Qed.

Lemma replace_root_app X M r : replace_root X M (X ++ r) = (M ++ r)%list.
Proof. unfold replace_root. by rewrite strip_prefix_app. Qed.

(** ** Directory listings *)

Lemma elem_of_listdir fs p n nd :
  (n, nd) ∈ listdir fs p ↔ n ≠ "" ∧ nodes fs !! (p ++ [n])%list = Some nd.
Proof.
  unfold listdir. rewrite list_elem_of_omap. split.
  - intros [[k nd'] [Hin Hf]]. simpl in Hf.
    destruct (child_of p k) as [m|] eqn:Hc; simplify_eq/=.
    apply child_of_Some in Hc as [-> Hn].
    by apply elem_of_map_to_list in Hin.
  - intros [Hn Hl]. exists ((p ++ [n])%list, nd). split.
    + by apply elem_of_map_to_list.
    + simpl. by rewrite (proj2 (child_of_Some p _ n) (conj eq_refl Hn)).
Qed.

Lemma NoDup_listdir fs p : NoDup (listdir fs p).*1.
Proof.
  unfold listdir.
  pose proof (NoDup_fst_map_to_list (nodes fs)) as Hnd.
  induction (map_to_list (nodes fs)) as [|[k nd] l IH]; simpl; [constructor|].
  inversion_clear Hnd as [|?? Hk Hl]. specialize (IH Hl).
  destruct (child_of p k) as [n|] eqn:Hc; simpl; [|done].
  constructor; [|done].
  intros Hin. apply list_elem_of_fmap in Hin as [[n' nd'] [Heq Hin]].
  simpl in Heq. subst n'.
  apply list_elem_of_omap in Hin as [[k' nd''] [Hin Hf]]. simpl in Hf.
  destruct (child_of p k') as [m|] eqn:Hc'; simplify_eq/=.
  apply child_of_Some in Hc as [-> _]. apply child_of_Some in Hc' as [-> _].
  apply Hk. apply list_elem_of_fmap. by exists ((p ++ [n])%list, nd').
Qed.

Lemma scandir_Some fs top dirs nondirs :
  scandir fs top = Some (dirs, nondirs) →
  fs_isdir fs top = true ∧
  NoDup dirs ∧ NoDup nondirs ∧
  (∀ d, d ∈ dirs ↔ d ≠ "" ∧ ∃ a, nodes fs !! (top ++ [d])%list = Some (NDir a)) ∧
  (∀ f, f ∈ nondirs ↔ f ≠ "" ∧ ∃ i, nodes fs !! (top ++ [f])%list = Some (NFile i)).
Proof.
  unfold scandir. destruct (fs_isdir fs top) eqn:Hd; [|done].
  intros [= <- <-]. split; [done|].
  assert (Hsub : ∀ (P : string * node → Prop) `{∀ x, Decision (P x)},
    NoDup (filter P (listdir fs top)).*1).
  { intros P ?. pose proof (NoDup_listdir fs top) as H0.
    induction (listdir fs top) as [|e l IH]; simpl; [constructor|].
    inversion_clear H0 as [|?? He Hl]. rewrite filter_cons.
    destruct (decide (P e)); simpl; [|by apply IH].
    constructor; [|by apply IH].
    intros Hin. apply He.
    apply list_elem_of_fmap in Hin as [e' [-> Hin]].
    apply list_elem_of_filter in Hin as [_ Hin].
    by apply list_elem_of_fmap_2. }
  split; [apply Hsub|]. split; [apply Hsub|].
  split; intros x; rewrite list_elem_of_fmap.
  - split.
    + intros [[n nd] [-> Hin]]. apply list_elem_of_filter in Hin as [Hk Hin].
      apply elem_of_listdir in Hin as [Hn Hl]. simpl in *.
      destruct nd; [eauto | done].
    + intros [Hn [a Hl]]. exists (x, NDir a). split; [done|].
      apply list_elem_of_filter. split; [done|]. by apply elem_of_listdir.
  - split.
    + intros [[n nd] [-> Hin]]. apply list_elem_of_filter in Hin as [Hk Hin].
      apply elem_of_listdir in Hin as [Hn Hl]. simpl in *.
      destruct nd; [done | eauto].
    + intros [Hn [i Hl]]. exists (x, NFile i). split; [done|].
      apply list_elem_of_filter. split; [done|]. by apply elem_of_listdir.
Qed.

(** ** ACL writes *)

Lemma acl_modify_nodes f r t fs k :
  nodes (acl_modify f r t fs) !! k = rewrite_dir f r t k <$> nodes fs !! k.
Proof.
  unfold acl_modify. cbn [nodes]. rewrite map_lookup_imap.
  by destruct (nodes fs !! k).
Qed.

Lemma acl_modify_inodes f r t fs i :
  inodes (acl_modify f r t fs) !! i = rewrite_inode f r t (nodes fs) i <$> inodes fs !! i.
Proof.
  unfold acl_modify. cbn [inodes]. rewrite map_lookup_imap.
  by destruct (inodes fs !! i).
Qed.

Lemma reaches_file_iff (t : path) (i : nat) (m : gmap path node) :
  reaches false t m i ↔ m !! t = Some (NFile i).
Proof.
  unfold reaches. rewrite map_Exists_lookup. split.
  - intros (k & n & Hk & -> & ->). done.
  - intros H. exists t, (NFile i). done.
Qed.

(** A non-recursive write on a regular file rewrites its inode only. *)
Lemma acl_modify_file f t fs i :
  nodes fs !! t = Some (NFile i) →
  nodes (acl_modify f false t fs) = nodes fs ∧
  inodes (acl_modify f false t fs)
    = alter (λ ino, with_acl (f (i_acl ino)) ino) i (inodes fs).
Proof.
  intros Ht. split; apply map_eq; intros k.
  - rewrite acl_modify_nodes. destruct (nodes fs !! k) as [[a|j]|] eqn:Hk; simpl; try done.
    case_decide as Hs; [|done]. simpl in Hs. subst k. congruence.
  - rewrite acl_modify_inodes. unfold rewrite_inode.
    destruct (decide (k = i)) as [->|Hne].
    + rewrite lookup_alter_eq. destruct (inodes fs !! i); simpl; [|done].
      rewrite decide_True; [done|]. by apply reaches_file_iff.
    + rewrite lookup_alter_ne by done. destruct (inodes fs !! k); simpl; [|done].
      rewrite decide_False; [done|]. intros H%reaches_file_iff. congruence.
Qed.

(** ** The methods of [Share] *)

Section share_facts.
Variable acl_missing : option exn.

Lemma from_file_Ok p w a :
  acl_of (w_fs w) p = Some a → from_file acl_missing p w = (Ok a, w).
Proof. intros H. unfold from_file. mstep. by rewrite H. Qed.

Lemma bind_from_file {B} p (k : AccessControlList → M B) w a :
  acl_of (w_fs w) p = Some a → bind (from_file acl_missing p) k w = k a w.
Proof. intros H. by rewrite (bind_Ok _ _ _ _ _ (from_file_Ok p w a H)). Qed.

Lemma acl_write_Ok ev f r t w a :
  acl_of (w_fs w) t = Some a →
  acl_write acl_missing ev f r t w
    = (Ok tt, op_add ev (with_fs (acl_modify f r t (w_fs w)) w)).
Proof. intros H. unfold acl_write. mstep. rewrite H. by apply syscall_Ok. Qed.

Lemma acl_of_file fs p i ino :
  nodes fs !! p = Some (NFile i) → inodes fs !! i = Some ino →
  acl_of fs p = Some (i_acl ino).
Proof. intros Hp Hi. unfold acl_of. by rewrite Hp, Hi. Qed.

Lemma fs_unlink_file fs p i :
  nodes fs !! p = Some (NFile i) → (fs_unlink p fs).1 = None.
Proof. intros H. unfold fs_unlink. by rewrite H. Qed.

Lemma unshare_file_removes self target force w i ino perms :
  nodes (w_fs w) !! target = Some (NFile i) →
  inodes (w_fs w) !! i = Some ino →
  force = true ∨ st_nlink ino ≠ 1 →
  acl_of (w_fs w) (directory self) = Some perms →
  let new_permissions := acl_sub (i_acl ino) perms in
  let fs1 := acl_modify (λ _, new_permissions) false target (w_fs w) in
  _unshare_file acl_missing self target force w =
    (Ok tt,
     op_add (EvUnlink target)
       (with_fs (fs_unlink target fs1).2
          (op_add (EvAclSet new_permissions target)
             (with_fs fs1
                (log_add DEBUG (MsgNewPermissions target new_permissions)
                   (log_add DEBUG (MsgUnsharingFile target) w)))))).
Proof.
  intros Ht Hi Hf Hp new_permissions fs1.
  unfold _unshare_file. mstep.
  assert (Hguard : ∀ w0, w_fs w0 = w_fs w →
    (if negb force
     then let* n := os_stat_nlink target in
          if decide (n = 1)
          then logging ERROR (MsgOneHardLink target) ;;;
               raise (FileNotFoundError (OneHardLink target))
          else ret tt
     else ret tt) w0 = (Ok tt, w0)).
  { intros w0 Hw0. destruct force; simpl; [done|].
    unfold os_stat_nlink. mstep. unfold fs_stat_nlink. rewrite Hw0, Ht, Hi. mstep.
    destruct Hf as [|Hf]; [done|]. by rewrite decide_False. }
  erewrite bind_Ok; [|by apply Hguard].
  rewrite (bind_from_file _ _ _ (i_acl ino)) by (by eapply acl_of_file).
  unfold Share_permissions. rewrite (bind_from_file _ _ _ perms) by done.
  mstep. unfold acl_set.
  erewrite bind_Ok; [|by eapply acl_write_Ok, acl_of_file].
  unfold os_unlink, syscall. mstep.
  fold new_permissions. fold fs1.
  pose proof (acl_modify_file (λ _, new_permissions) target (w_fs w) i Ht) as [Hn _].
  fold fs1 in Hn.
  assert (Hu : (fs_unlink target fs1).1 = None).
  { eapply fs_unlink_file. by rewrite Hn. }
  destruct (fs_unlink target fs1) as [[e|] fs2]; simpl in *; done.
Qed.

Lemma fs_unlink_spec p fs i :
  nodes fs !! p = Some (NFile i) →
  ∃ fs', fs_unlink p fs = (None, fs') ∧
    nodes fs' = delete p (nodes fs) ∧
    new_dir_acl fs' = new_dir_acl fs ∧
    (∀ j, j ≠ i → inodes fs' !! j = inodes fs !! j) ∧
    inodes fs' !! i =
      inodes fs !! i ≫= (λ ino,
        if decide (st_nlink ino ≤ 1)%nat then None
        else Some (with_nlink (st_nlink ino - 1) ino)).
Proof.
  intros H. unfold fs_unlink. rewrite H. eexists. split; [done|].
  cbn [nodes inodes new_dir_acl set_nodes set_inodes]. split_and!; try done.
  - intros j Hj. destruct (inodes fs !! i) as [ino|]; [|done].
    case_decide; [by rewrite lookup_delete_ne | by rewrite lookup_insert_ne].
  - destruct (inodes fs !! i) as [ino|] eqn:Hi; simpl; [|done].
    case_decide; [by rewrite lookup_delete_eq | by rewrite lookup_insert_eq].
Qed.

(** C1. Un-sharing a regular file whose hardlink count is exactly 1 without
    the force flag raises [FileNotFoundError] and changes neither the file
    system (the entry, its inode and its ACL stay as they were) nor the
    trace of completed calls; with force, or with a hardlink count above 1,
    the new ACL is set and the entry is unlinked. *)
Theorem C1_unshare_file_guard self target force w i ino perms :
  nodes (w_fs w) !! target = Some (NFile i) →
  inodes (w_fs w) !! i = Some ino →
  acl_of (w_fs w) (directory self) = Some perms →
  (st_nlink ino = 1 → force = false →
     ∃ w', _unshare_file acl_missing self target force w
             = (Raise (FileNotFoundError (OneHardLink target)), w') ∧
           w_fs w' = w_fs w ∧ w_ops w' = w_ops w) ∧
  (force = true ∨ (st_nlink ino > 1)%nat →
     ∃ w', _unshare_file acl_missing self target force w = (Ok tt, w') ∧
           nodes (w_fs w') !! target = None ∧
           inodes (w_fs w') !! i =
             (if decide (st_nlink ino ≤ 1)%nat then None
              else Some {| st_nlink := st_nlink ino - 1;
                           i_acl := acl_sub (i_acl ino) perms;
                           i_linkable := i_linkable ino |}) ∧
           w_ops w' = (w_ops w ++ [EvAclSet (acl_sub (i_acl ino) perms) target;
                                   EvUnlink target])%list).
Proof.
  intros Ht Hi Hp. split.
  - intros Hn ->. unfold _unshare_file, os_stat_nlink. simpl negb. cbv iota.
    mstep. unfold fs_stat_nlink. rewrite Ht, Hi, Hn. mstep.
    rewrite decide_True by done. mstep. eexists. split; [done|]. done.
  - intros Hf. eexists. split.
    { eapply unshare_file_removes; [done..| |done]. destruct Hf; [by left | right; lia]. }
    mstep.
    pose proof (acl_modify_file (λ _, acl_sub (i_acl ino) perms) target (w_fs w) i Ht)
      as [Hn Hino].
    destruct (fs_unlink_spec target (acl_modify (λ _, acl_sub (i_acl ino) perms) false
                target (w_fs w)) i) as (fs' & -> & Hn' & _ & _ & Hi').
    { by rewrite Hn. }
    cbn [snd]. split_and!.
    + rewrite Hn'. apply lookup_delete_eq.
    + rewrite Hi', Hino, lookup_alter_eq, Hi. simpl. done.
    + by rewrite <- app_assoc.
Qed.
(** *** Construction *)

Lemma fs_mkdir_isdir p fs fs' :
  fs_mkdir p fs = (None, fs') → fs_isdir fs' p = true.
Proof.
  unfold fs_mkdir, fs_isdir. case_decide; [done|]. destruct (nodes fs !! p); [done|].
  destruct (nodes fs !! parent p) as [[a|j]|]; try done.
  intros [= <-]. cbn [nodes set_nodes]. by rewrite lookup_insert_eq.
Qed.

Lemma fs_mkdir_Some_unchanged p fs e fs' :
  fs_mkdir p fs = (Some e, fs') → fs' = fs.
Proof.
  unfold fs_mkdir. case_decide; [by intros [= _ <-]|].
  destruct (nodes fs !! p); [by intros [= _ <-]|].
  destruct (nodes fs !! parent p) as [[a|j]|]; by intros [= <-].
Qed.

(** A successful [os.makedirs] leaves a directory at [name]. *)
Lemma fs_makedirs_isdir name exist_ok fs fs' :
  fs_makedirs name exist_ok fs = (None, fs') → fs_isdir fs' name = true.
Proof.
  unfold fs_makedirs. destruct (rev name) as [|n rhead] eqn:Hrev.
  - assert (name = []) as -> by (by rewrite <- (rev_involutive name), Hrev).
    cbn. destruct (fs_mkdir [] fs) as [[e|] fs2] eqn:Hmk.
    + destruct (negb exist_ok || negb (fs_isdir fs2 [])) eqn:Hb; [done|].
      intros [= <-]. apply orb_false_elim in Hb as [_ Hb].
      by apply negb_false_iff in Hb.
    + intros [= <-]. by eapply fs_mkdir_isdir.
  - assert (Hname : rev (n :: rhead) = name) by (by rewrite <- Hrev, rev_involutive).
    cbn [makedirs_rev].
    set (st := if fs_exists fs (rev rhead) then (None, fs) else
                 match makedirs_rev rhead exist_ok fs with
                 | (Some (FileExistsError _), fs'0) => (None, fs'0)
                 | res => res
                 end).
    destruct st as [[e|] fs1]; [done|].
    rewrite Hname.
    destruct (fs_mkdir name fs1) as [[e|] fs2] eqn:Hmk.
    + destruct (negb exist_ok || negb (fs_isdir fs2 name)) eqn:Hb; [done|].
      intros [= <-]. apply orb_false_elim in Hb as [_ Hb].
      by apply negb_false_iff in Hb.
    + intros [= <-]. by eapply fs_mkdir_isdir.
Qed.

(** With its parent in place, [os.makedirs] is a single [mkdir]. *)
Lemma fs_makedirs_parent p n exist_ok fs :
  fs_exists fs p = true →
  fs_makedirs (p ++ [n]) exist_ok fs =
    match fs_mkdir (p ++ [n]) fs with
    | (Some e, fs2) =>
        if negb exist_ok || negb (fs_isdir fs2 (p ++ [n])) then (Some e, fs2)
        else (None, fs2)
    | ok => ok
    end.
Proof.
  intros Hp. unfold fs_makedirs. rewrite rev_app_distr. cbn [rev app makedirs_rev].
  by rewrite rev_involutive, Hp.
Qed.

Lemma nameless_snoc p n : nameless (p ++ [n]) ↔ n = "".
Proof. unfold nameless. rewrite last_snoc. naive_solver. Qed.

Lemma fs_makedirs_fresh p n exist_ok fs :
  n ≠ "" → nodes fs !! (p ++ [n])%list = None → fs_isdir fs p = true →
  fs_makedirs (p ++ [n]) exist_ok fs
    = (None, set_nodes (insert (p ++ [n])%list (NDir (new_dir_acl fs))) fs).
Proof.
  intros Hne Hn Hp. rewrite fs_makedirs_parent.
  - unfold fs_mkdir. rewrite decide_False by (by rewrite nameless_snoc).
    rewrite Hn, parent_snoc.
    unfold fs_isdir in Hp. by destruct (nodes fs !! p) as [[a|j]|].
  - unfold fs_isdir in Hp. unfold fs_exists. by destruct (nodes fs !! p).
Qed.

Lemma fs_makedirs_exists p n exist_ok fs :
  n ≠ "" → is_Some (nodes fs !! (p ++ [n])%list) → fs_exists fs p = true →
  fs_makedirs (p ++ [n]) exist_ok fs =
    if exist_ok && fs_isdir fs (p ++ [n]) then (None, fs)
    else (Some (FileExistsError (p ++ [n])), fs).
Proof.
  intros Hne [nd Hn] Hp. rewrite fs_makedirs_parent by done.
  unfold fs_mkdir. rewrite decide_False by (by rewrite nameless_snoc).
  rewrite Hn. by destruct exist_ok, (fs_isdir fs (p ++ [n])).
Qed.

Lemma init_unfold dir exist_ok w :
  __init__ dir exist_ok w =
    let w1 := if fs_exists (w_fs w) dir
              then log_add DEBUG (MsgExists (basename dir)) w else w in
    if fs_exists (w_fs w) dir && fs_isfile (w_fs w) dir
    then (Raise (IllegalShareSetupError dir), w1)
    else match fs_makedirs dir exist_ok (w_fs w) with
         | (Some e, fs') => (Raise e, with_fs fs' w1)
         | (None, fs') =>
             (Ok {| directory := realpath dir; lock_acl := [lock_ace] |},
              op_add (EvMakedirs dir) (with_fs fs' w1))
         end.
Proof.
  unfold __init__, os_path_exists, os_path_isfile, os_makedirs. mstep.
  destruct (fs_exists (w_fs w) dir) eqn:He; mstep; rewrite ?He.
  all: destruct (fs_isfile (w_fs w) dir); cbn [andb]; try done.
  all: unfold bind, syscall; cbn [w_fs log_add].
  all: by destruct (fs_makedirs dir exist_ok (w_fs w)) as [[e|] fs2].
Qed.

(** C7. Constructing a [Share] over a path that is a regular file raises
    [IllegalShareSetupError] and leaves the file system and the trace of
    completed calls as they were.  Otherwise, whenever construction succeeds
    the share's directory is the given path and exists as a directory; a
    named path that is absent in an existing directory is created, an existing
    directory is bound to when [exist_ok] holds and rejected with
    [FileExistsError] when it does not. *)
Theorem C7_share_construction dir exist_ok w :
  (fs_isfile (w_fs w) dir = true →
     ∃ w', __init__ dir exist_ok w = (Raise (IllegalShareSetupError dir), w') ∧
           w_fs w' = w_fs w ∧ w_ops w' = w_ops w) ∧
  (fs_isfile (w_fs w) dir = false →
     (∀ self w', __init__ dir exist_ok w = (Ok self, w') →
        directory self = realpath dir ∧ lock_acl self = [lock_ace] ∧
        fs_isdir (w_fs w') (directory self) = true) ∧
     (∀ p n, dir = (p ++ [n])%list → n ≠ "" → fs_isdir (w_fs w) p = true →
        (nodes (w_fs w) !! dir = None →
           ∃ w', __init__ dir exist_ok w
                   = (Ok {| directory := realpath dir; lock_acl := [lock_ace] |}, w') ∧
                 nodes (w_fs w') = <[dir := NDir (new_dir_acl (w_fs w))]> (nodes (w_fs w)) ∧
                 inodes (w_fs w') = inodes (w_fs w)) ∧
        (fs_isdir (w_fs w) dir = true →
           ∃ w', __init__ dir exist_ok w
                   = ((if exist_ok
                       then Ok {| directory := realpath dir; lock_acl := [lock_ace] |}
                       else Raise (FileExistsError dir)), w') ∧
                 w_fs w' = w_fs w))).
Proof.
  rewrite init_unfold. split.
  - intros Hf.
    assert (He : fs_exists (w_fs w) dir = true).
    { unfold fs_isfile in Hf. unfold fs_exists. by destruct (nodes (w_fs w) !! dir). }
    rewrite He, Hf. simpl. eexists. split; [done|]. done.
  - intros Hf. rewrite Hf, andb_false_r. split.
    + intros self w'.
      destruct (fs_makedirs dir exist_ok (w_fs w)) as [[e|] fs2] eqn:Hmk; [done|].
      intros [= <- <-]. cbn [directory lock_acl].
      split_and!; try done.
      destruct (fs_exists (w_fs w) dir); cbn [w_fs op_add with_fs log_add];
        by eapply fs_makedirs_isdir.
    + intros p n -> Hne Hp. split.
      * intros Hn. rewrite fs_makedirs_fresh by done.
        eexists. split; [done|].
        by destruct (fs_exists (w_fs w) (p ++ [n])).
      * intros Hd.
        assert (Hs : is_Some (nodes (w_fs w) !! (p ++ [n])%list)).
        { unfold fs_isdir in Hd. by destruct (nodes (w_fs w) !! (p ++ [n])%list). }
        assert (Hpe : fs_exists (w_fs w) p = true).
        { unfold fs_isdir in Hp. unfold fs_exists. by destruct (nodes (w_fs w) !! p). }
        rewrite (fs_makedirs_exists p n exist_ok (w_fs w) Hne Hs Hpe), Hd.
        destruct exist_ok; simpl; (eexists; split; [done|]);
          by destruct (fs_exists (w_fs w) (p ++ [n])).
Qed.

(** *** Well-formed file systems *)

Lemma wf_below_file fs p i k :
  wf fs → nodes fs !! p = Some (NFile i) → p `prefix_of` k →
  is_Some (nodes fs !! k) → k = p.
Proof.
  intros Hwf Hp [r ->] Hk.
  induction r as [|n r IH] using rev_ind; [by rewrite app_nil_r|].
  rewrite app_assoc in Hk. destruct (wf_parent _ Hwf _ _ Hk) as [_ Hd].
  unfold fs_isdir in Hd.
  destruct (nodes fs !! (p ++ r)%list) as [[a|j]|] eqn:Hpr; try done.
  assert (Heq : (p ++ r)%list = p) by (apply IH; eauto).
  rewrite Heq in Hpr. congruence.
Qed.

Lemma reaches_wf_file r (t : path) (i j : nat) fs :
  wf fs → nodes fs !! t = Some (NFile i) →
  reaches r t (nodes fs) j ↔ j = i.
Proof.
  intros Hwf Ht. unfold reaches. rewrite map_Exists_lookup. split.
  - intros (k & n & Hk & Hs & ->).
    assert (k = t) as ->.
    { destruct r; simpl in Hs; [|done]. eapply wf_below_file; eauto. }
    congruence.
  - intros ->. exists t, (NFile i). split_and!; try done.
    destruct r; simpl; done.
Qed.

(** An ACL write on a regular file, recursive or not, rewrites its inode
    only. *)
Lemma acl_modify_wf_file f r t fs i :
  wf fs → nodes fs !! t = Some (NFile i) →
  nodes (acl_modify f r t fs) = nodes fs ∧
  inodes (acl_modify f r t fs)
    = alter (λ ino, with_acl (f (i_acl ino)) ino) i (inodes fs).
Proof.
  intros Hwf Ht. split; apply map_eq; intros k.
  - rewrite acl_modify_nodes. destruct (nodes fs !! k) as [[a|j]|] eqn:Hk; simpl; try done.
    case_decide as Hs; [|done]. exfalso.
    assert (k = t) as ->; [|congruence].
    destruct r; simpl in Hs; [|done]. eapply wf_below_file; eauto.
  - rewrite acl_modify_inodes. unfold rewrite_inode.
    destruct (decide (k = i)) as [->|Hne].
    + rewrite lookup_alter_eq. destruct (inodes fs !! i); simpl; [|done].
      rewrite decide_True; [done|]. by eapply reaches_wf_file.
    + rewrite lookup_alter_ne by done. destruct (inodes fs !! k); simpl; [|done].
      rewrite decide_False; [done|]. intros H. by eapply reaches_wf_file in H.
Qed.

(** *** Linking *)

Lemma try_except_Ok {A} (m : M A) h w a w' :
  m w = (Ok a, w') → try_except m h w = (Ok a, w').
Proof. unfold try_except. by intros ->. Qed.

Lemma try_except_Raise {A} (m : M A) h w e w' :
  m w = (Raise e, w') →
  try_except m h w = match h e with Some k => k w' | None => (Raise e, w') end.
Proof. unfold try_except. by intros ->. Qed.

Lemma fs_link_spec src dst fs i ino :
  ¬ nameless dst →
  nodes fs !! src = Some (NFile i) → inodes fs !! i = Some ino →
  i_linkable ino = true → nodes fs !! dst = None → fs_isdir fs (parent dst) = true →
  fs_link src dst fs
    = (None, set_inodes (insert i (with_nlink (S (st_nlink ino)) ino))
               (set_nodes (insert dst (NFile i)) fs)).
Proof.
  intros Hnl Hs Hi Hl Hd Hp. unfold fs_link. rewrite decide_False by done.
  rewrite Hs, Hd.
  unfold fs_isdir in Hp. destruct (nodes fs !! parent dst) as [[a|j]|]; try done.
  by rewrite Hi, Hl.
Qed.

Lemma link_files_unfold fuel self source target :
  _link_files acl_missing (S fuel) self source target
    = try_except (link_attempt acl_missing self source target)
        (link_handler acl_missing self target
           (_link_files acl_missing fuel self source target)).
Proof. done. Qed.

Lemma unlock_file self source w i ino :
  nodes (w_fs w) !! source = Some (NFile i) →
  inodes (w_fs w) !! i = Some ino →
  _unlock acl_missing self source w =
    (Ok tt,
     op_add (EvAclUnset (lock_acl self) source true)
       (with_fs (acl_modify (λ cur, list_difference cur (lock_acl self)) true source
                   (w_fs w))
          (log_add DEBUG (MsgUnlocking source) w))).
Proof.
  intros Hs Hi. unfold _unlock, acl_unset. mstep.
  erewrite acl_write_Ok; [done|]. by eapply acl_of_file.
Qed.

(** Linking a linkable regular file to a free name in an existing
    directory, on a well-formed file system. *)
Lemma link_files_fresh fuel self source target w i ino perms :
  wf (w_fs w) →
  ¬ nameless target →
  nodes (w_fs w) !! source = Some (NFile i) →
  inodes (w_fs w) !! i = Some ino →
  i_linkable ino = true →
  nodes (w_fs w) !! target = None →
  fs_isdir (w_fs w) (parent target) = true →
  nodes (w_fs w) !! directory self = Some (NDir perms) →
  ∃ w', _link_files acl_missing (S fuel) self source target w = (Ok tt, w') ∧
    nodes (w_fs w') = <[target := NFile i]> (nodes (w_fs w)) ∧
    inodes (w_fs w') =
      <[i := {| st_nlink := S (st_nlink ino);
                i_acl := (list_difference (i_acl ino) (lock_acl self) ++ perms)%list;
                i_linkable := i_linkable ino |}]> (inodes (w_fs w)) ∧
    new_dir_acl (w_fs w') = new_dir_acl (w_fs w) ∧
    w_ops w' = (w_ops w ++ [EvAclUnset (lock_acl self) source true;
                            EvLink (realpath source) target;
                            EvAclAppend perms target false])%list.
Proof.
  intros Hwf Hnl Hs Hi Hl Ht Hp Hd.
  rewrite link_files_unfold. unfold link_attempt.
  set (f1 := λ cur : AccessControlList, list_difference cur (lock_acl self)).
  pose proof (acl_modify_wf_file f1 true source (w_fs w) i Hwf Hs) as [Hn1 Hi1].
  set (fs1 := acl_modify f1 true source (w_fs w)) in *.
  set (ino1 := with_acl (f1 (i_acl ino)) ino).
  assert (Hi1' : inodes fs1 !! i = Some ino1).
  { by rewrite Hi1, lookup_alter_eq, Hi. }
  assert (Hlink : fs_link source target fs1
    = (None, set_inodes (insert i (with_nlink (S (st_nlink ino1)) ino1))
               (set_nodes (insert target (NFile i)) fs1))).
  { apply fs_link_spec; try done; try by rewrite Hn1.
    unfold fs_isdir in *. by rewrite Hn1. }
  set (fs2 := set_inodes (insert i (with_nlink (S (st_nlink ino1)) ino1))
               (set_nodes (insert target (NFile i)) fs1)) in *.
  assert (Hdt : target ≠ directory self) by (intros ->; congruence).
  assert (Hp2 : acl_of fs2 (directory self) = Some perms).
  { unfold acl_of, fs2. cbn [nodes set_inodes set_nodes].
    by rewrite lookup_insert_ne, Hn1, Hd by done. }
  assert (Ht2 : nodes fs2 !! target = Some (NFile i)).
  { unfold fs2. cbn [nodes set_inodes set_nodes]. by rewrite lookup_insert_eq. }
  assert (Hi2 : inodes fs2 !! i = Some (with_nlink (S (st_nlink ino1)) ino1)).
  { unfold fs2. cbn [inodes set_inodes set_nodes]. by rewrite lookup_insert_eq. }
  pose proof (acl_modify_file (λ cur, (cur ++ perms)%list) target fs2 i Ht2) as [Hn3 Hi3].
  eexists. split.
  { apply try_except_Ok.
    erewrite bind_Ok; [|by eapply unlock_file]. mstep.
    unfold os_link, realpath. fold fs1.
    erewrite bind_Ok; [|apply syscall_Ok; cbn [w_fs op_add with_fs log_add]; exact Hlink].
    unfold Share_permissions. rewrite (bind_from_file _ _ _ perms) by done.
    unfold acl_append. eapply acl_write_Ok. cbn [w_fs op_add with_fs].
    by eapply acl_of_file. }
  cbn [w_fs w_ops op_add with_fs log_add]. split_and!.
  - rewrite Hn3. unfold fs2. cbn [nodes set_inodes set_nodes]. by rewrite Hn1.
  - rewrite Hi3. unfold fs2. cbn [inodes set_inodes set_nodes].
    rewrite alter_insert_eq, Hi1. apply map_eq. intros j.
    destruct (decide (j = i)) as [->|Hne].
    + by rewrite !lookup_insert_eq.
    + by rewrite !lookup_insert_ne, lookup_alter_ne.
  - done.
  - by rewrite <- !app_assoc.
Qed.

Lemma try_except_bind_Ok {A B} (m : M A) (k : A → M B) h w a w' :
  m w = (Ok a, w') → try_except (bind m k) h w = try_except (k a) h w'.
Proof. intros Hm. unfold try_except. by rewrite (bind_Ok _ _ _ _ _ Hm). Qed.

(** *** Locking *)

Lemma acl_of_modify_in_scope f r t fs p a :
  in_scope r t p → acl_of fs p = Some a →
  acl_of (acl_modify f r t fs) p = Some (f a).
Proof.
  intros Hs. unfold acl_of. rewrite acl_modify_nodes.
  destruct (nodes fs !! p) as [[b|i]|] eqn:Hp; cbn; try done.
  - intros [= ->]. by rewrite decide_True.
  - rewrite acl_modify_inodes. destruct (inodes fs !! i) as [ino|]; cbn; [|done].
    intros [= <-]. unfold rewrite_inode. rewrite decide_True; [done|].
    unfold reaches. apply map_Exists_lookup. by exists p, (NFile i).
Qed.

Lemma acl_of_modify_cases f r t fs p a :
  acl_of fs p = Some a →
  acl_of (acl_modify f r t fs) p = Some a ∨
  acl_of (acl_modify f r t fs) p = Some (f a).
Proof.
  unfold acl_of. rewrite acl_modify_nodes.
  destruct (nodes fs !! p) as [[b|i]|] eqn:Hp; cbn; try done.
  - intros [= ->]. case_decide; eauto.
  - rewrite acl_modify_inodes. destruct (inodes fs !! i) as [ino|]; cbn; [|done].
    intros [= <-]. unfold rewrite_inode. case_decide; eauto.
Qed.

Lemma lock_run self w a :
  acl_of (w_fs w) (directory self) = Some a →
  lock acl_missing self w =
    (Ok tt,
     op_add (EvAclAppend (lock_acl self) (directory self) true)
       (with_fs (acl_modify (λ cur, (cur ++ lock_acl self)%list) true (directory self)
                   (w_fs w))
          (log_add DEBUG (MsgLocking (directory self)) w))).
Proof.
  intros Ha. unfold lock, _lock, acl_append. mstep. by erewrite acl_write_Ok.
Qed.

Lemma unlock_run self w a :
  acl_of (w_fs w) (directory self) = Some a →
  unlock acl_missing self w =
    (Ok tt,
     op_add (EvAclUnset (lock_acl self) (directory self) true)
       (with_fs (acl_modify (λ cur, list_difference cur (lock_acl self)) true
                   (directory self) (w_fs w))
          (log_add DEBUG (MsgUnlocking (directory self)) w))).
Proof.
  intros Ha. unfold unlock, _unlock, acl_unset. mstep. by erewrite acl_write_Ok.
Qed.

Lemma filter_allow_difference_lock (a : AccessControlList) :
  filter (λ e, entry_type e ≠ "D") (list_difference a [lock_ace])
  = filter (λ e, entry_type e ≠ "D") a.
Proof.
  induction a as [|e a IH]; [done|]. simpl.
  destruct (decide_rel elem_of e [lock_ace]) as [He|He].
  - apply list_elem_of_singleton in He. subst e.
    rewrite IH. by rewrite (filter_cons_False _ lock_ace) by (intros H; by apply H).
  - rewrite !filter_cons. case_decide; by rewrite IH.
Qed.

Lemma filter_allow_app_lock (a : AccessControlList) :
  filter (λ e, entry_type e ≠ "D") (a ++ [lock_ace])%list
  = filter (λ e, entry_type e ≠ "D") a.
Proof.
  rewrite filter_app, (filter_cons_False _ lock_ace) by (intros H; by apply H).
  by rewrite filter_nil, app_nil_r.
Qed.

(** C6. The lock ACL of a share is the single entry of type ["D"] for
    ["EVERYONE"] with permissions ["wadNTo"].  On an existing share
    directory [lock] appends it to the ACL of the directory and of every
    entry beneath it, so that each of them carries it; [unlock] takes it out
    of each of them, so that none carries it; and [lock] followed by [unlock]
    leaves the entries of every ACL that are not of deny type as they were. *)
Theorem C6_lock_unlock self w a :
  lock_acl self = [lock_ace] →
  acl_of (w_fs w) (directory self) = Some a →
  entry_type lock_ace = "D" ∧ identity lock_ace = "EVERYONE" ∧
  permissions lock_ace = "wadNTo" ∧
  ∃ wl wu wlu,
    lock acl_missing self w = (Ok tt, wl) ∧
    unlock acl_missing self w = (Ok tt, wu) ∧
    unlock acl_missing self wl = (Ok tt, wlu) ∧
    (∀ p b, directory self `prefix_of` p → acl_of (w_fs w) p = Some b →
       acl_of (w_fs wl) p = Some (b ++ [lock_ace])%list ∧
       ∃ bl, acl_of (w_fs wl) p = Some bl ∧ lock_ace ∈ bl) ∧
    (∀ p b, directory self `prefix_of` p → acl_of (w_fs w) p = Some b →
       ∃ bu, acl_of (w_fs wu) p = Some bu ∧ lock_ace ∉ bu) ∧
    (∀ p b, directory self `prefix_of` p → acl_of (w_fs w) p = Some b →
       ∃ bu, acl_of (w_fs wlu) p = Some bu ∧ lock_ace ∉ bu) ∧
    (∀ p b, acl_of (w_fs w) p = Some b →
       ∃ blu, acl_of (w_fs wlu) p = Some blu ∧
              filter (λ e, entry_type e ≠ "D") blu
              = filter (λ e, entry_type e ≠ "D") b).
Proof.
  intros Hlock Ha. split_and!; try done.
  pose proof (lock_run self w a Ha) as Hl.
  pose proof (unlock_run self w a Ha) as Hu.
  rewrite Hlock in Hl, Hu.
  set (fl := λ cur : AccessControlList, (cur ++ [lock_ace])%list) in *.
  set (fu := λ cur : AccessControlList, list_difference cur [lock_ace]) in *.
  assert (Hal : acl_of (acl_modify fl true (directory self) (w_fs w)) (directory self)
                = Some (fl a)).
  { by apply acl_of_modify_in_scope. }
  eexists _, _, _. split; [exact Hl|]. split; [exact Hu|]. split.
  { erewrite unlock_run; [|cbn [w_fs op_add with_fs log_add]; exact Hal].
    rewrite Hlock. done. }
  cbn [w_fs op_add with_fs log_add]. fold fu.
  assert (Hnot : ∀ b : AccessControlList, lock_ace ∉ fu b).
  { intros b Hin. apply list_elem_of_difference in Hin as [_ Hin].
    apply Hin. by apply list_elem_of_singleton. }
  split_and!.
  - intros p b Hp Hb.
    assert (acl_of (acl_modify fl true (directory self) (w_fs w)) p = Some (fl b))
      as H by (by apply acl_of_modify_in_scope).
    split; [done|]. eexists. split; [done|].
    unfold fl. apply elem_of_app. right. by apply list_elem_of_singleton.
  - intros p b Hp Hb. eexists. split; [by apply acl_of_modify_in_scope|]. apply Hnot.
  - intros p b Hp Hb. eexists. split.
    + apply acl_of_modify_in_scope; [done|]. by apply acl_of_modify_in_scope.
    + apply Hnot.
  - intros p b Hb.
    destruct (acl_of_modify_cases fl true (directory self) (w_fs w) p b Hb) as [H1|H1];
      destruct (acl_of_modify_cases fu true (directory self) _ p _ H1) as [H2|H2];
      eexists; (split; [exact H2|]); unfold fu, fl;
      rewrite ?filter_allow_difference_lock, ?filter_allow_app_lock; done.
Qed.

(** *** Preservation of well-formedness *)

Lemma links_to_lookup fs i k v :
  links_to fs i !! k = Some v ↔ nodes fs !! k = Some v ∧ v = NFile i.
Proof. unfold links_to. by rewrite map_lookup_filter_Some. Qed.

Lemma links_to_insert_other fs i k v :
  nodes fs !! k = None → v ≠ NFile i →
  links_to (set_nodes (insert k v) fs) i = links_to fs i.
Proof.
  intros Hk Hv. apply map_eq. intros k'. apply option_eq. intros v'.
  rewrite !links_to_lookup. cbn [nodes set_nodes].
  destruct (decide (k = k')) as [->|Hne].
  - rewrite lookup_insert_eq, Hk. split; [|by intros [? _]].
    intros [[= <-] ->]. done.
  - by rewrite lookup_insert_ne.
Qed.

Lemma links_to_insert_same fs i k :
  nodes fs !! k = None →
  size (links_to (set_nodes (insert k (NFile i)) fs) i) = S (size (links_to fs i)).
Proof.
  intros Hk. unfold links_to. cbn [nodes set_nodes].
  rewrite map_filter_insert_True by done.
  apply map_size_insert_None. apply map_lookup_filter_None. by left.
Qed.

Lemma links_to_delete_other fs i k v :
  nodes fs !! k = Some v → v ≠ NFile i →
  links_to (set_nodes (delete k) fs) i = links_to fs i.
Proof.
  intros Hk Hv. apply map_eq. intros k'. apply option_eq. intros v'.
  rewrite !links_to_lookup. cbn [nodes set_nodes].
  destruct (decide (k = k')) as [->|Hne].
  - rewrite lookup_delete_eq, Hk. split; [by intros [? _]|].
    intros [[= <-] ->]. done.
  - by rewrite lookup_delete_ne.
Qed.

Lemma links_to_delete_same fs i k :
  nodes fs !! k = Some (NFile i) →
  S (size (links_to (set_nodes (delete k) fs) i)) = size (links_to fs i).
Proof.
  intros Hk. unfold links_to. cbn [nodes set_nodes].
  rewrite map_filter_delete. symmetry.
  rewrite <- (insert_delete_id (filter _ (nodes fs)) k (NFile i)) at 1.
  - apply map_size_insert_None. apply lookup_delete_eq.
  - by apply map_lookup_filter_Some.
Qed.

Lemma links_to_set_inodes fs f i : links_to (set_inodes f fs) i = links_to fs i.
Proof. done. Qed.

Lemma rewrite_dir_file f r t k n i : rewrite_dir f r t k n = NFile i ↔ n = NFile i.
Proof. destruct n; simpl; [case_decide|]; done. Qed.

Lemma links_to_acl_modify f r t fs i :
  links_to (acl_modify f r t fs) i = links_to fs i.
Proof.
  apply map_eq. intros k. apply option_eq. intros v.
  rewrite !links_to_lookup, acl_modify_nodes.
  destruct (nodes fs !! k) as [n|]; cbn; [|naive_solver].
  split.
  - intros [[= <-] Hv]. apply rewrite_dir_file in Hv as ->. done.
  - intros [[= <-] ->]. done.
Qed.

Lemma fs_isdir_acl_modify f r t fs p :
  fs_isdir (acl_modify f r t fs) p = fs_isdir fs p.
Proof.
  unfold fs_isdir. rewrite acl_modify_nodes.
  destruct (nodes fs !! p) as [[a|i]|]; cbn; [case_decide|..]; done.
Qed.

Lemma wf_acl_modify f r t fs : wf fs → wf (acl_modify f r t fs).
Proof.
  intros [Hp Hi Hn]. split.
  - intros k n Hk. rewrite fs_isdir_acl_modify. apply Hp.
    rewrite acl_modify_nodes in Hk. by apply fmap_is_Some in Hk.
  - intros k i Hk. rewrite acl_modify_nodes in Hk.
    destruct (nodes fs !! k) as [n|] eqn:Hk'; [|done]. cbn in Hk.
    injection Hk as Hk. apply rewrite_dir_file in Hk as ->.
    rewrite acl_modify_inodes. apply fmap_is_Some. eauto.
  - intros i ino Hino. rewrite acl_modify_inodes in Hino.
    destruct (inodes fs !! i) as [ino0|] eqn:Hi0; [|done]. cbn in Hino.
    injection Hino as <-. rewrite links_to_acl_modify, <- (Hn i ino0 Hi0).
    unfold rewrite_inode. by case_decide.
Qed.

Lemma wf_insert_dir fs p n a :
  wf fs → fs_isdir fs p = true → n ≠ "" → nodes fs !! (p ++ [n])%list = None →
  wf (set_nodes (insert (p ++ [n])%list (NDir a)) fs).
Proof.
  intros [Hp Hi Hn] Hd Hne Hfresh. split.
  - intros k m Hk. cbn [nodes set_nodes] in Hk. unfold fs_isdir. cbn [nodes set_nodes].
    assert (Hpar : ∀ q, fs_isdir fs q = true →
      match <[(p ++ [n])%list := NDir a]> (nodes fs) !! q with
      | Some (NDir _) => true | _ => false end = true).
    { intros q Hq. destruct (decide ((p ++ [n])%list = q)) as [<-|Hq'].
      - by rewrite lookup_insert_eq.
      - by rewrite lookup_insert_ne. }
    destruct (decide ((p ++ [n])%list = (k ++ [m])%list)) as [Heq|Hneq].
    + apply app_inj_tail in Heq as [<- <-]. split; [done|]. by apply Hpar.
    + rewrite lookup_insert_ne in Hk by done. destruct (Hp k m Hk). split; [done|].
      by apply Hpar.
  - intros k i Hk. cbn [nodes inodes set_nodes] in *.
    destruct (decide ((p ++ [n])%list = k)) as [<-|Hq'].
    + by rewrite lookup_insert_eq in Hk.
    + rewrite lookup_insert_ne in Hk by done. eauto.
  - intros i ino Hino. cbn [inodes set_nodes] in Hino.
    rewrite links_to_insert_other by done. eauto.
Qed.

Lemma wf_insert_file fs p n i ino x :
  wf fs → fs_isdir fs p = true → n ≠ "" → nodes fs !! (p ++ [n])%list = None →
  inodes fs !! i = Some ino → st_nlink x = S (st_nlink ino) →
  wf (set_inodes (insert i x) (set_nodes (insert (p ++ [n])%list (NFile i)) fs)).
Proof.
  intros [Hp Hi Hn] Hd Hne Hfresh Hino Hx. split.
  - intros k m Hk. cbn [nodes set_nodes set_inodes] in Hk. unfold fs_isdir.
    cbn [nodes set_nodes set_inodes].
    assert (Hpar : ∀ q, fs_isdir fs q = true →
      match <[(p ++ [n])%list := NFile i]> (nodes fs) !! q with
      | Some (NDir _) => true | _ => false end = true).
    { intros q Hq. destruct (decide ((p ++ [n])%list = q)) as [<-|Hq'].
      - unfold fs_isdir in Hq. by rewrite Hfresh in Hq.
      - by rewrite lookup_insert_ne. }
    destruct (decide ((p ++ [n])%list = (k ++ [m])%list)) as [Heq|Hneq].
    + apply app_inj_tail in Heq as [<- <-]. split; [done|]. by apply Hpar.
    + rewrite lookup_insert_ne in Hk by done. destruct (Hp k m Hk). split; [done|].
      by apply Hpar.
  - intros k j Hk. cbn [nodes inodes set_nodes set_inodes] in *.
    destruct (decide (i = j)) as [<-|Hij]; [by rewrite lookup_insert_eq|].
    rewrite lookup_insert_ne by done.
    destruct (decide ((p ++ [n])%list = k)) as [<-|Hq'].
    + rewrite lookup_insert_eq in Hk. congruence.
    + rewrite lookup_insert_ne in Hk by done. eauto.
  - intros j y Hy. cbn [inodes set_nodes set_inodes] in Hy.
    rewrite links_to_set_inodes.
    destruct (decide (i = j)) as [<-|Hij].
    + rewrite lookup_insert_eq in Hy. injection Hy as <-.
      rewrite links_to_insert_same, Hx by done. f_equal. eauto.
    + rewrite lookup_insert_ne in Hy by done.
      rewrite links_to_insert_other by (done || congruence). eauto.
Qed.

Lemma wf_unlink fs p i fs' :
  wf fs → nodes fs !! p = Some (NFile i) → fs_unlink p fs = (None, fs') → wf fs'.
Proof.
  intros [Hp Hi Hn] Hpi Hun.
  destruct (fs_unlink_spec p fs i Hpi) as (fs2 & Heq & Hnodes & _ & Hother & Hsame).
  rewrite Heq in Hun. injection Hun as <-.
  assert (Hl : ∀ j, links_to fs2 j = links_to (set_nodes (delete p) fs) j).
  { intros j. unfold links_to. cbn [nodes set_nodes]. by rewrite Hnodes. }
  split.
  - intros k m Hk. rewrite Hnodes in Hk. unfold fs_isdir. rewrite Hnodes.
    assert (p ≠ (k ++ [m])%list) as Hpk by (intros ->; by rewrite lookup_delete_eq in Hk).
    rewrite lookup_delete_ne in Hk by done. destruct (Hp k m Hk) as [? Hd].
    split; [done|]. unfold fs_isdir in Hd.
    destruct (decide (p = k)) as [->|Hne]; [by rewrite Hpi in Hd|].
    by rewrite lookup_delete_ne.
  - intros k j Hk. rewrite Hnodes in Hk.
    assert (p ≠ k) as Hpk by (intros ->; by rewrite lookup_delete_eq in Hk).
    rewrite lookup_delete_ne in Hk by done.
    destruct (decide (j = i)) as [->|Hji]; [|rewrite Hother by done; eauto].
    rewrite Hsame. destruct (Hi k i Hk) as [ino Hino]. rewrite Hino. cbn.
    case_decide as Hle; [|done]. exfalso.
    pose proof (Hn i ino Hino) as Hcount.
    pose proof (links_to_delete_same fs i p Hpi) as Hdel.
    assert (is_Some (links_to (set_nodes (delete p) fs) i !! k)) as Hin.
    { exists (NFile i). apply links_to_lookup. cbn [nodes set_nodes].
      by rewrite lookup_delete_ne. }
    assert (size (links_to (set_nodes (delete p) fs) i) ≠ 0) as Hnz.
    { intros Hz. apply map_size_empty_iff in Hz. rewrite Hz in Hin.
      rewrite lookup_empty in Hin. by destruct Hin. }
    lia.
  - intros j y Hy. rewrite Hl.
    destruct (decide (j = i)) as [->|Hji].
    + rewrite Hsame in Hy. destruct (inodes fs !! i) as [ino|] eqn:Hino; [|done].
      cbn in Hy. case_decide as Hle; [done|]. injection Hy as <-. cbn.
      pose proof (Hn i ino Hino). pose proof (links_to_delete_same fs i p Hpi). lia.
    + rewrite Hother in Hy by done.
      rewrite (links_to_delete_other fs j p (NFile i)) by (done || congruence). eauto.
Qed.

Lemma listdir_nil fs p n :
  listdir fs p = [] → n ≠ "" → nodes fs !! (p ++ [n])%list = None.
Proof.
  intros Hl Hn. destruct (nodes fs !! (p ++ [n])%list) as [nd|] eqn:Hk; [|done].
  assert ((n, nd) ∈ listdir fs p) as Hin by (by apply elem_of_listdir).
  rewrite Hl in Hin. by apply not_elem_of_nil in Hin.
Qed.

Lemma fs_rmdir_spec p fs fs' :
  fs_rmdir p fs = (None, fs') →
  fs_isdir fs p = true ∧ listdir fs p = [] ∧ fs' = set_nodes (delete p) fs.
Proof.
  unfold fs_rmdir, fs_isdir. destruct (nodes fs !! p) as [[a|i]|]; try done.
  destruct (listdir fs p); [|done]. case_decide; [done|]. by intros [= <-].
Qed.

Lemma wf_rmdir fs p fs' : wf fs → fs_rmdir p fs = (None, fs') → wf fs'.
Proof.
  intros [Hp Hi Hn] Hrm. apply fs_rmdir_spec in Hrm as (Hd & Hl & ->). split.
  - intros k m Hk. cbn [nodes set_nodes] in Hk. unfold fs_isdir. cbn [nodes set_nodes].
    assert (p ≠ (k ++ [m])%list) as Hpk by (intros ->; by rewrite lookup_delete_eq in Hk).
    rewrite lookup_delete_ne in Hk by done. destruct (Hp k m Hk) as [Hm Hkd].
    split; [done|].
    destruct (decide (p = k)) as [->|Hne].
    + rewrite (listdir_nil fs k m Hl Hm) in Hk. by destruct Hk.
    + by rewrite lookup_delete_ne.
  - intros k j Hk. cbn [nodes inodes set_nodes] in *.
    assert (p ≠ k) as Hpk by (intros ->; by rewrite lookup_delete_eq in Hk).
    rewrite lookup_delete_ne in Hk by done. eauto.
  - intros j y Hy. cbn [inodes set_nodes] in Hy.
    unfold fs_isdir in Hd. destruct (nodes fs !! p) as [[a|i]|] eqn:Hpn; try done.
    rewrite (links_to_delete_other fs j p (NDir a)) by done. eauto.
Qed.

(** *** Invariants of computations *)

Section preserves.
Context (R : world → world → Prop) `{!PreOrder R}.

Lemma preserves_ret {A} (a : A) : preserves R (ret a).
Proof. intros w. simpl. reflexivity. Qed.

Lemma preserves_raise {A} e : preserves R (@raise A e).
Proof. intros w. simpl. reflexivity. Qed.

Lemma preserves_out_of_fuel {A} : preserves R (@out_of_fuel A).
Proof. intros w. simpl. reflexivity. Qed.

Lemma preserves_get_fs : preserves R get_fs.
Proof. intros w. simpl. reflexivity. Qed.

Lemma preserves_bind {A B} (m : M A) (k : A → M B) :
  preserves R m → (∀ a, preserves R (k a)) → preserves R (bind m k).
Proof.
  intros Hm Hk w. unfold bind. specialize (Hm w).
  destruct (m w) as [[a|e|] w1]; simpl in *; [|done..].
  etrans; [exact Hm|]. apply Hk.
Qed.

Lemma preserves_try_except {A} (m : M A) handler :
  preserves R m → (∀ e h, handler e = Some h → preserves R h) →
  preserves R (try_except m handler).
Proof.
  intros Hm Hh w. unfold try_except. specialize (Hm w).
  destruct (m w) as [[a|e|] w1]; simpl in *; [done| |done].
  destruct (handler e) as [h|] eqn:He; [|done].
  etrans; [exact Hm|]. by eapply Hh.
Qed.

Lemma preserves_for_each {A} (l : list A) (f : A → M unit) :
  (∀ x, x ∈ l → preserves R (f x)) → preserves R (for_each l f).
Proof.
  induction l as [|x l IH]; intros Hf; simpl.
  - apply preserves_ret.
  - apply preserves_bind.
    + apply Hf. by left.
    + intros _. apply IH. intros y Hy. apply Hf. by right.
Qed.

Lemma preserves_if {A} (b : bool) (m1 m2 : M A) :
  preserves R m1 → preserves R m2 → preserves R (if b then m1 else m2).
Proof. by destruct b. Qed.

Lemma prefix_join top d root : join top d `prefix_of` root → top `prefix_of` root.
Proof.
  unfold join. case_decide; [done|]. intros Hpre.
  etrans; [|exact Hpre]. by apply prefix_app_r.
Qed.

Lemma preserves_os_walk fuel top body :
  (∀ root dirs nondirs, top `prefix_of` root → preserves R (body root dirs nondirs)) →
  preserves R (os_walk fuel top body).
Proof.
  revert top. induction fuel as [|fuel IH]; intros top Hb; simpl.
  - apply preserves_out_of_fuel.
  - apply preserves_bind; [apply preserves_get_fs|]. intros fs.
    destruct (scandir fs top) as [[dirs nondirs]|]; [|apply preserves_ret].
    apply preserves_bind; [by apply Hb|]. intros _.
    apply preserves_for_each. intros d _. apply IH.
    intros root ds fs' Hroot. apply Hb. by eapply prefix_join.
Qed.

Lemma preserves_os_walk_bottomup fuel top body :
  (∀ root dirs nondirs, top `prefix_of` root → preserves R (body root dirs nondirs)) →
  preserves R (os_walk_bottomup fuel top body).
Proof.
  revert top. induction fuel as [|fuel IH]; intros top Hb; simpl.
  - apply preserves_out_of_fuel.
  - apply preserves_bind; [apply preserves_get_fs|]. intros fs.
    destruct (scandir fs top) as [[dirs nondirs]|]; [|apply preserves_ret].
    apply preserves_bind; [|intros _; by apply Hb].
    apply preserves_for_each. intros d _. apply IH.
    intros root ds fs' Hroot. apply Hb. by eapply prefix_join.
Qed.

Lemma preserves_syscall ev f :
  (∀ w fs', f (w_fs w) = (None, fs') → R w (op_add ev (with_fs fs' w))) →
  (∀ w e fs', f (w_fs w) = (Some e, fs') → R w (with_fs fs' w)) →
  preserves R (syscall ev f).
Proof.
  intros Hok Herr w. unfold syscall.
  destruct (f (w_fs w)) as [[e|] fs'] eqn:Hf; simpl; eauto.
Qed.

End preserves.

(** *** What every method respects *)

Section step_inv.
Context (R : world → world → Prop) `{!StepInv R}.

Local Existing Instance step_inv_preorder.

Lemma respects_logging lv m : preserves R (logging lv m).
Proof. intros w. apply step_inv_log. Qed.

Lemma respects_syscall ev f :
  (∀ fs, sysstep fs (f fs).2) → preserves R (syscall ev f).
Proof.
  intros Hf. apply (preserves_syscall R).
  - intros w fs' Hfs. etrans; [|apply step_inv_op].
    apply step_inv_fs. specialize (Hf (w_fs w)). by rewrite Hfs in Hf.
  - intros w e fs' Hfs. apply step_inv_fs.
    specialize (Hf (w_fs w)). by rewrite Hfs in Hf.
Qed.

Lemma respects_os_makedirs name exist_ok : preserves R (os_makedirs name exist_ok).
Proof. apply respects_syscall. intros fs. constructor. Qed.

Lemma respects_os_link src dst : preserves R (os_link src dst).
Proof. apply respects_syscall. intros fs. constructor. Qed.

Lemma respects_os_unlink p : preserves R (os_unlink p).
Proof. apply respects_syscall. intros fs. constructor. Qed.

Lemma respects_os_rmdir p : preserves R (os_rmdir p).
Proof. apply respects_syscall. intros fs. constructor. Qed.

Lemma respects_os_stat_nlink p : preserves R (os_stat_nlink p).
Proof.
  apply (preserves_bind R); [apply (preserves_get_fs R)|]. intros fs.
  destruct (fs_stat_nlink fs p); [by apply (preserves_raise R) | by apply (preserves_ret R)].
Qed.

Lemma respects_missing {A} (a : A) : preserves R (missing acl_missing a).
Proof.
  unfold missing. destruct acl_missing; [by apply (preserves_raise R) | by apply (preserves_ret R)].
Qed.

Lemma respects_from_file p : preserves R (from_file acl_missing p).
Proof.
  apply (preserves_bind R); [by apply (preserves_get_fs R)|]. intros fs.
  destruct (acl_of fs p); [by apply (preserves_ret R) | apply respects_missing].
Qed.

Lemma respects_acl_write ev f r t : preserves R (acl_write acl_missing ev f r t).
Proof.
  apply (preserves_bind R); [by apply (preserves_get_fs R)|]. intros fs.
  destruct (acl_of fs t); [|apply respects_missing].
  apply respects_syscall. intros fs'. simpl. constructor.
Qed.

Lemma respects_unlock self target : preserves R (_unlock acl_missing self target).
Proof.
  apply (preserves_bind R); [apply respects_logging|]. intros _.
  apply respects_acl_write.
Qed.

Lemma respects_lock self target : preserves R (_lock acl_missing self target).
Proof.
  apply (preserves_bind R); [apply respects_logging|]. intros _.
  apply respects_acl_write.
Qed.

Lemma respects_makedir self dir : preserves R (_makedir acl_missing self dir).
Proof.
  apply (preserves_bind R); [apply respects_logging|]. intros _.
  apply (preserves_bind R); [apply respects_os_makedirs|]. intros _.
  apply (preserves_bind R); [apply respects_from_file|]. intros perms.
  apply respects_acl_write.
Qed.

Lemma respects_unshare_dir target : preserves R (_unshare_dir target).
Proof.
  apply (preserves_bind R); [apply respects_logging|]. intros _.
  apply respects_os_rmdir.
Qed.

Lemma respects_unshare_file self target force :
  preserves R (_unshare_file acl_missing self target force).
Proof.
  apply (preserves_bind R); [apply respects_logging|]. intros _.
  apply (preserves_bind R).
  { apply (preserves_if R); [|by apply (preserves_ret R)].
    apply (preserves_bind R); [apply respects_os_stat_nlink|]. intros n.
    case_decide; [|by apply (preserves_ret R)].
    apply (preserves_bind R); [apply respects_logging|]. intros _.
    by apply (preserves_raise R). }
  intros _.
  apply (preserves_bind R); [apply respects_from_file|]. intros cur.
  apply (preserves_bind R); [apply respects_from_file|]. intros perms.
  apply (preserves_bind R); [apply respects_logging|]. intros _.
  apply (preserves_bind R); [apply respects_acl_write|]. intros _.
  apply respects_os_unlink.
Qed.

Lemma respects_link_attempt self source target :
  preserves R (link_attempt acl_missing self source target).
Proof.
  apply (preserves_bind R); [apply respects_unlock|]. intros _.
  apply (preserves_bind R); [apply respects_logging|]. intros _.
  apply (preserves_bind R); [apply respects_os_link|]. intros _.
  apply (preserves_bind R); [apply respects_from_file|]. intros perms.
  apply respects_acl_write.
Qed.

Lemma respects_link_files fuel self source target :
  preserves R (_link_files acl_missing fuel self source target).
Proof.
  induction fuel as [|fuel IH]; [by apply (preserves_out_of_fuel R)|].
  rewrite link_files_unfold.
  apply (preserves_try_except R); [apply respects_link_attempt|].
  intros e h He. destruct e; simpl in He; try done; injection He as <-.
  - apply (preserves_bind R); [apply respects_logging|]. intros _.
    apply (preserves_bind R); [apply respects_unshare_file|]. intros _. exact IH.
  - apply (preserves_bind R); [apply respects_from_file|]. intros a.
    apply respects_logging.
Qed.

Lemma respects_duplicate fuel self source_root :
  preserves R (_duplicate_as_linked_tree acl_missing fuel self source_root).
Proof.
  apply (preserves_bind R); [apply respects_logging|]. intros _.
  apply (preserves_bind R); [apply respects_makedir|]. intros _.
  apply (preserves_os_walk R). intros root dirs nondirs _.
  apply (preserves_bind R); [ |intros _].
  - apply (preserves_for_each R). intros d _. apply respects_makedir.
  - apply (preserves_for_each R). intros f _. apply respects_link_files.
Qed.

Lemma respects_unshare_linked_tree fuel self dir force :
  preserves R (_unshare_linked_tree acl_missing fuel self dir force).
Proof.
  apply (preserves_bind R); [apply respects_logging|]. intros _.
  apply (preserves_bind R); [ |intros _; apply respects_os_rmdir].
  apply (preserves_os_walk_bottomup R). intros root dirs nondirs _.
  apply (preserves_bind R); [ |intros _].
  - apply (preserves_for_each R). intros f _. apply respects_unshare_file.
  - apply (preserves_for_each R). intros d _. apply respects_unshare_dir.
Qed.

Lemma respects_self_destruct fuel self force :
  preserves R (self_destruct acl_missing fuel self force).
Proof. apply respects_unshare_linked_tree. Qed.

Lemma respects_add fuel self items : preserves R (add acl_missing fuel self items).
Proof.
  apply (preserves_bind R); [apply respects_logging|]. intros _.
  apply (preserves_bind R); [by apply (preserves_get_fs R)|]. intros fs.
  apply (preserves_bind R); [ |intros _].
  { apply (preserves_for_each R). intros f _. apply respects_link_files. }
  apply (preserves_bind R); [ |intros _].
  { apply (preserves_for_each R). intros d _.
    apply (preserves_try_except R); [apply respects_duplicate|].
    intros e h He. destruct e; simpl in He; try done; injection He as <-.
    apply (preserves_bind R); [apply respects_logging|]. intros _.
    apply (preserves_bind R); [apply respects_unshare_linked_tree|]. intros _.
    apply respects_duplicate. }
  apply (preserves_for_each R). intros u _. apply respects_logging.
Qed.

End step_inv.

(** *** Well-formedness and growth are respected by every step *)

Lemma path_snoc_parent (p : path) : p ≠ [] → ∃ n, p = (parent p ++ [n])%list.
Proof.
  intros Hp. destruct (exists_last Hp) as (q & n & ->).
  exists n. by rewrite parent_snoc.
Qed.

Lemma wf_mkdir p fs : wf fs → wf (fs_mkdir p fs).2.
Proof.
  intros Hwf. unfold fs_mkdir. case_decide as Hnl; [done|].
  destruct (nodes fs !! p) eqn:Hp; [done|].
  destruct (nodes fs !! parent p) as [[a|j]|] eqn:Hpar; try done. cbn.
  assert (p ≠ []) as Hne by (intros ->; simpl in Hpar; congruence).
  destruct (path_snoc_parent p Hne) as [n Hn].
  rewrite Hn. apply wf_insert_dir; try done.
  - unfold fs_isdir. by rewrite Hpar.
  - intros ->. apply Hnl. rewrite Hn. by apply nameless_snoc.
  - by rewrite <- Hn.
Qed.

Lemma wf_makedirs_rev rname exist_ok fs : wf fs → wf (makedirs_rev rname exist_ok fs).2.
Proof.
  revert fs. induction rname as [|n rhead IH]; intros fs Hwf.
  - cbn. pose proof (wf_mkdir [] fs Hwf) as H0.
    destruct (fs_mkdir [] fs) as [[e|] fs2]; cbn in *; [|done].
    by destruct (negb exist_ok || negb (fs_isdir fs2 [])).
  - cbn [makedirs_rev].
    set (st := if fs_exists fs (rev rhead) then (None, fs) else
                 match makedirs_rev rhead exist_ok fs with
                 | (Some (FileExistsError _), fs'0) => (None, fs'0)
                 | res => res
                 end).
    assert (wf st.2) as Hst.
    { unfold st. destruct (fs_exists fs (rev rhead)); [done|].
      specialize (IH fs Hwf).
      destruct (makedirs_rev rhead exist_ok fs) as [[[]|] fs1]; done. }
    destruct st as [[e|] fs1]; [done|]. cbn in Hst.
    pose proof (wf_mkdir (rev (n :: rhead)) fs1 Hst) as H0.
    destruct (fs_mkdir (rev (n :: rhead)) fs1) as [[e|] fs2]; cbn in *; [|done].
    by destruct (negb exist_ok || negb (fs_isdir fs2 (rev rhead ++ [n]))).
Qed.

Lemma wf_link src dst fs : wf fs → wf (fs_link src dst fs).2.
Proof.
  intros Hwf. unfold fs_link. case_decide as Hnl; [done|].
  destruct (nodes fs !! src) as [nd|] eqn:Hs; [|done].
  destruct (nodes fs !! parent dst) as [[a|j]|] eqn:Hpar; try done.
  destruct (nodes fs !! dst) eqn:Hd; [done|].
  destruct nd as [b|i]; [done|].
  destruct (inodes fs !! i) as [ino|] eqn:Hi; [|done].
  destruct (i_linkable ino); [|done]. cbn.
  assert (dst ≠ []) as Hne by (intros ->; simpl in Hpar; congruence).
  destruct (path_snoc_parent dst Hne) as [n Hn].
  rewrite Hn. eapply wf_insert_file; try done.
  - unfold fs_isdir. by rewrite Hpar.
  - intros ->. apply Hnl. rewrite Hn. by apply nameless_snoc.
  - by rewrite <- Hn.
Qed.

Lemma wf_unlink_any p fs : wf fs → wf (fs_unlink p fs).2.
Proof.
  intros Hwf. destruct (nodes fs !! p) as [[a|i]|] eqn:Hp.
  - unfold fs_unlink. by rewrite Hp.
  - destruct (fs_unlink_spec p fs i Hp) as (fs' & Heq & _).
    rewrite Heq. eapply wf_unlink; eauto.
  - unfold fs_unlink. by rewrite Hp.
Qed.

Lemma wf_rmdir_any p fs : wf fs → wf (fs_rmdir p fs).2.
Proof.
  intros Hwf. destruct (fs_rmdir p fs) as [[e|] fs'] eqn:Hrm.
  - unfold fs_rmdir in Hrm. cbn.
    destruct (nodes fs !! p) as [[a|i]|]; try by injection Hrm as _ <-.
    destruct (listdir fs p); [|by injection Hrm as _ <-].
    case_decide; [by injection Hrm as _ <-|done].
  - by eapply wf_rmdir.
Qed.

Lemma wf_sysstep fs fs' : sysstep fs fs' → wf fs → wf fs'.
Proof.
  intros [name ok|src dst|p|p|f r t] Hwf.
  - by apply wf_makedirs_rev.
  - by apply wf_link.
  - by apply wf_unlink_any.
  - by apply wf_rmdir_any.
  - by apply wf_acl_modify.
Qed.

Global Instance keeps_wf_preorder : PreOrder keeps_wf.
Proof.
  split; [intros w Hwf; exact Hwf|].
  intros w1 w2 w3 H1 H2 Hwf. apply H2, H1, Hwf.
Qed.

Global Instance keeps_wf_step : StepInv keeps_wf.
Proof.
  split; [apply _|..].
  - intros w lv m Hwf. exact Hwf.
  - intros w fs' Hs Hwf. cbn. by eapply wf_sysstep.
  - intros w ev Hwf. exact Hwf.
Qed.

Global Instance grows_preorder : PreOrder grows.
Proof.
  split.
  - intros w. split; exists []; by rewrite app_nil_r.
  - intros w1 w2 w3 [[t1 H1] [l1 H1']] [[t2 H2] [l2 H2']]. split.
    + exists (t1 ++ t2)%list. by rewrite H2, H1, app_assoc.
    + exists (l1 ++ l2)%list. by rewrite H2', H1', app_assoc.
Qed.

Global Instance grows_step : StepInv grows.
Proof.
  split; [apply _|..].
  - intros w lv m. split; [exists []; by rewrite app_nil_r | by eexists].
  - intros w fs' _. split; exists []; by rewrite app_nil_r.
  - intros w ev. split; [by eexists | exists []; by rewrite app_nil_r].
Qed.

(** *** The log is write-only *)





















(** *** Adding items *)

Lemma bind_Ok_inv {A B} (m : M A) (k : A → M B) w b w' :
  bind m k w = (Ok b, w') → ∃ a w1, m w = (Ok a, w1) ∧ k a w1 = (Ok b, w').
Proof. unfold bind. destruct (m w) as [[a|e|] w1]; try done. eauto. Qed.

Lemma emitted_grows_l w w1 w2 ev : grows w w1 → emitted w1 w2 ev → emitted w w2 ev.
Proof.
  intros [[t1 H1] _] (t2 & H2 & Hin). exists (t1 ++ t2)%list. split.
  - by rewrite H2, H1, app_assoc.
  - apply elem_of_app. by right.
Qed.

Lemma emitted_grows_r w w1 w2 ev : emitted w w1 ev → grows w1 w2 → emitted w w2 ev.
Proof.
  intros (t1 & H1 & Hin) [[t2 H2] _]. exists (t1 ++ t2)%list. split.
  - by rewrite H2, H1, app_assoc.
  - apply elem_of_app. by left.
Qed.

Lemma logged_grows_l w w1 w2 r : grows w w1 → logged w1 w2 r → logged w w2 r.
Proof.
  intros [_ [t1 H1]] (t2 & H2 & Hin). exists (t1 ++ t2)%list. split.
  - by rewrite H2, H1, app_assoc.
  - apply elem_of_app. by right.
Qed.

Lemma logged_grows_r w w1 w2 r : logged w w1 r → grows w1 w2 → logged w w2 r.
Proof.
  intros (t1 & H1 & Hin) [_ [t2 H2]]. exists (t1 ++ t2)%list. split.
  - by rewrite H2, H1, app_assoc.
  - apply elem_of_app. by left.
Qed.

Lemma emitted_op_add w ev : emitted w (op_add ev w) ev.
Proof. exists [ev]. split; [done|]. by apply list_elem_of_singleton. Qed.

Lemma logged_log_add w lv m : logged w (log_add lv m w) (lv, m).
Proof. exists [(lv, m)]. split; [done|]. by apply list_elem_of_singleton. Qed.

Lemma grows_of {A} (m : M A) w r w' : preserves grows m → m w = (r, w') → grows w w'.
Proof. intros Hm Hw. specialize (Hm w). by rewrite Hw in Hm. Qed.

Lemma syscall_Ok_inv ev f w w' :
  syscall ev f w = (Ok tt, w') → ∃ fs', w' = op_add ev (with_fs fs' w).
Proof.
  unfold syscall. destruct (f (w_fs w)) as [[e|] fs']; [done|].
  intros [= <-]. eauto.
Qed.

(** A loop that ends normally ran its body, normally, on each element. *)
Lemma for_each_Ok_elem {A} (l : list A) (f : A → M unit) w w' x :
  (∀ y, preserves grows (f y)) →
  for_each l f w = (Ok tt, w') → x ∈ l →
  ∃ w1 w2, grows w w1 ∧ f x w1 = (Ok tt, w2) ∧ grows w2 w'.
Proof.
  intros Hf. revert w. induction l as [|y l IH]; intros w Hrun Hx.
  - by apply not_elem_of_nil in Hx.
  - simpl in Hrun. apply bind_Ok_inv in Hrun as ([] & w1 & Hy & Hrest).
    apply elem_of_cons in Hx as [->|Hx].
    + exists w, w1. split_and!; [reflexivity|done|].
      eapply grows_of; [|exact Hrest]. apply (preserves_for_each grows). auto.
    + destruct (IH w1 Hrest Hx) as (wa & wb & Ha & Hrun' & Hb).
      exists wa, wb. split_and!; [|done|done].
      etrans; [|exact Ha]. by eapply grows_of.
Qed.

(** [_link_files] ends normally only after the link was made, or after the
    permission error was logged. *)
Lemma link_files_Ok_linked fuel self source target w w' :
  _link_files acl_missing fuel self source target w = (Ok tt, w') →
  emitted w w' (EvLink (realpath source) target) ∨
  ∃ filename acl, logged w w' (ERROR, MsgInsufficient filename acl).
Proof.
  revert w. induction fuel as [|fuel IH]; intros w; [done|].
  rewrite link_files_unfold. unfold try_except.
  destruct (link_attempt acl_missing self source target w) as [[[]|e|] w1] eqn:Hatt;
    [| |done].
  - intros [= <-]. left. unfold link_attempt in Hatt.
    apply bind_Ok_inv in Hatt as ([] & wa & Ha & Hatt).
    apply bind_Ok_inv in Hatt as ([] & wb & Hb & Hatt).
    apply bind_Ok_inv in Hatt as ([] & wc & Hc & Hatt).
    eapply emitted_grows_l.
    { etrans; [eapply grows_of; [apply (respects_unlock grows)|exact Ha]|].
      eapply grows_of; [apply (respects_logging grows)|exact Hb]. }
    eapply emitted_grows_r.
    2:{ eapply grows_of; [|exact Hatt].
        apply (preserves_bind grows); [apply (respects_from_file grows)|].
        intros perms. apply (respects_acl_write grows). }
    unfold os_link in Hc. apply syscall_Ok_inv in Hc as [fs' ->].
    exists [EvLink (realpath source) target]. split; [done|].
    by apply list_elem_of_singleton.
  - assert (grows w w1) as Hg.
    { eapply grows_of; [apply (respects_link_attempt grows)|exact Hatt]. }
    destruct e; simpl; try done.
    + intros Hh.
      apply bind_Ok_inv in Hh as ([] & wa & Ha & Hh).
      apply bind_Ok_inv in Hh as ([] & wb & Hb & Hh).
      assert (grows w wb) as Hg'.
      { etrans; [exact Hg|]. etrans.
        - eapply grows_of; [apply (respects_logging grows)|exact Ha].
        - eapply grows_of; [apply (respects_unshare_file grows)|exact Hb]. }
      destruct (IH wb Hh) as [He|(fn & a & Hl)].
      * left. by eapply emitted_grows_l.
      * right. exists fn, a. by eapply logged_grows_l.
    + intros Hh. right.
      apply bind_Ok_inv in Hh as (a & wa & Ha & Hh).
      injection Hh as <-. exists filename, a.
      eapply logged_grows_l; [|apply logged_log_add].
      etrans; [exact Hg|].
      eapply grows_of; [apply (respects_from_file grows)|exact Ha].
Qed.

Lemma for_each_logging {A} (l : list A) (msg : A → message) lv w :
  ∃ w', for_each l (λ x, logging lv (msg x)) w = (Ok tt, w') ∧
        same_run w w' ∧ w_log w' = (w_log w ++ ((λ x, (lv, msg x)) <$> l))%list.
Proof.
  revert w. induction l as [|x l IH]; intros w; simpl.
  - exists w. by rewrite app_nil_r.
  - rewrite bind_logging. destruct (IH (log_add lv (msg x) w)) as (w' & -> & Hs & Hl).
    exists w'. split_and!; [done|done|].
    rewrite Hl. cbn. by rewrite <- app_assoc.
Qed.

(** The part of [add] that handles the files and directories among
    [items], as classified on file system [fs]. *)
Lemma add_unfold fuel self items w :
  add acl_missing fuel self items w =
    let fs := w_fs w in
    let files := filter (λ i, fs_isfile fs i = true) items in
    let directories := filter (λ i, fs_isdir fs i = true) items in
    (add_handle acl_missing fuel self files directories ;;;
     for_each (remove_dups (list_difference items (directories ++ files)))
       (λ unhandled_item, logging ERROR (MsgUnhandled unhandled_item)))
      (log_add DEBUG (MsgAdding (directory self) items) w).
Proof. unfold add, add_handle. by mstep. Qed.

Lemma respects_add_handle R `{!StepInv R} fuel self files directories :
  preserves R (add_handle acl_missing fuel self files directories).
Proof.
  pose proof (step_inv_preorder (R:=R)) as Hpre.
  apply (preserves_bind R); [|intros _].
  { apply (preserves_for_each R). intros f _. apply (respects_link_files R). }
  apply (preserves_for_each R). intros d _.
  apply (preserves_try_except R); [apply (respects_duplicate R)|].
  intros e h He. destruct e; simpl in He; try done; injection He as <-.
  apply (preserves_bind R); [apply (respects_logging R)|]. intros _.
  apply (preserves_bind R); [apply (respects_unshare_linked_tree R)|]. intros _.
  apply (respects_duplicate R).
Qed.




Lemma list_difference_nil {A} `{EqDecision A} (l k : list A) :
  (∀ x, x ∈ l → x ∈ k) → list_difference l k = [].
Proof.
  intros H. destruct (list_difference l k) as [|x d] eqn:Hd; [done|].
  assert (x ∈ list_difference l k) as Hx by (rewrite Hd; by left).
  apply list_elem_of_difference in Hx as [Hx Hnk]. destruct Hnk. by apply H.
Qed.


(** ** Further properties of the methods *)

Lemma filter_none {A} (P : A → Prop) `{∀ x, Decision (P x)} (l : list A) :
  (∀ x, x ∈ l → ¬ P x) → filter P l = [].
Proof.
  induction l as [|x l IH]; intros Hl; [done|].
  rewrite filter_cons, decide_False by (apply Hl; by left).
  apply IH. intros y Hy. apply Hl. by right.
Qed.

Lemma list_difference_empty {A} `{EqDecision A} (l : list A) : list_difference l [] = l.
Proof.
  induction l as [|x l IH]; [done|]. cbn. rewrite IH.
  destruct (decide_rel elem_of x []) as [Hx|]; [|done]. by apply not_elem_of_nil in Hx.
Qed.

(** X1. [add] on items none of which is a regular file or a directory: nothing
    is linked or created, whatever the fuel; the call ends normally, leaves
    the file system and the trace of completed calls as they were, and logs,
    after the record of the call, one error per distinct item.  The source
    takes these items from a set, so the order of their records is left
    open: they are stated up to permutation. *)
Theorem add_nothing_to_handle fuel self items w :
  (∀ i, i ∈ items → fs_isfile (w_fs w) i = false ∧ fs_isdir (w_fs w) i = false) →
  ∃ w' l, add acl_missing fuel self items w = (Ok tt, w') ∧
    w_fs w' = w_fs w ∧ w_ops w' = w_ops w ∧
    w_log w' = (w_log w ++ (DEBUG, MsgAdding (directory self) items) :: l)%list ∧
    l ≡ₚ ((λ u, (ERROR, MsgUnhandled u)) <$> remove_dups items).
Proof.
  intros Hnone. rewrite add_unfold. cbn zeta.
  rewrite (filter_none (λ i, fs_isfile (w_fs w) i = true)),
          (filter_none (λ i, fs_isdir (w_fs w) i = true)).
  2,3: intros x Hx; destruct (Hnone x Hx) as [Hf Hd]; congruence.
  unfold add_handle. cbn [for_each app]. mstep. rewrite list_difference_empty.
  destruct (for_each_logging (remove_dups items) MsgUnhandled ERROR
              (log_add DEBUG (MsgAdding (directory self) items) w))
    as (w' & Hrun & [Hfs Hops] & Hlog).
  exists w', ((λ u, (ERROR, MsgUnhandled u)) <$> remove_dups items).
  split; [exact Hrun|]. split_and!; [done|done| |done].
  rewrite Hlog. cbn [w_log log_add]. by rewrite <- app_assoc.
Qed.

Lemma scandir_not_dir fs top : fs_isdir fs top = false → scandir fs top = None.
Proof. unfold scandir. by intros ->. Qed.

(** X2. [_unshare_linked_tree] on a path that does not exist, or that is a
    regular file: the walk yields nothing, and the final [os.rmdir] raises
    the error of the operating system with nothing changed.  Whenever the
    method ends normally, its last completed call is the [os.rmdir] of the
    directory, and the directory is gone. *)
Theorem unshare_linked_tree_outcomes fuel self dir force w :
  (nodes (w_fs w) !! dir = None →
     ∃ w', _unshare_linked_tree acl_missing (S fuel) self dir force w
             = (Raise (FileNotFoundError (Enoent dir)), w') ∧
           w_fs w' = w_fs w ∧ w_ops w' = w_ops w) ∧
  (∀ i, nodes (w_fs w) !! dir = Some (NFile i) →
     ∃ w', _unshare_linked_tree acl_missing (S fuel) self dir force w
             = (Raise (NotADirectoryError dir), w') ∧
           w_fs w' = w_fs w ∧ w_ops w' = w_ops w) ∧
  (∀ w', _unshare_linked_tree acl_missing fuel self dir force w = (Ok tt, w') →
     nodes (w_fs w') !! dir = None ∧
     ∃ t, w_ops w' = (w_ops w ++ t ++ [EvRmdir dir])%list).
Proof.
  split_and!.
  - intros Hd. unfold _unshare_linked_tree. mstep. cbn [os_walk_bottomup]. mstep.
    rewrite scandir_not_dir by (unfold fs_isdir; by rewrite Hd). mstep.
    unfold os_rmdir. erewrite syscall_Raise.
    2:{ unfold fs_rmdir. cbn [w_fs log_add]. by rewrite Hd. }
    eexists. split; [done|]. done.
  - intros i Hd. unfold _unshare_linked_tree. mstep. cbn [os_walk_bottomup]. mstep.
    rewrite scandir_not_dir by (unfold fs_isdir; by rewrite Hd). mstep.
    unfold os_rmdir. erewrite syscall_Raise.
    2:{ unfold fs_rmdir. cbn [w_fs log_add]. by rewrite Hd. }
    eexists. split; [done|]. done.
  - intros w' Hrun. unfold _unshare_linked_tree in Hrun.
    apply bind_Ok_inv in Hrun as ([] & w1 & Hlog & Hrun).
    apply bind_Ok_inv in Hrun as ([] & w2 & Hwalk & Hrm).
    assert (grows w w2) as [[t Ht] _].
    { etrans; [eapply grows_of; [apply (respects_logging grows)|exact Hlog]|].
      eapply grows_of; [|exact Hwalk].
      apply (preserves_os_walk_bottomup grows). intros root dirs nondirs _.
      apply (preserves_bind grows); [ |intros _].
      - apply (preserves_for_each grows). intros f _. apply (respects_unshare_file grows).
      - apply (preserves_for_each grows). intros d _. apply (respects_unshare_dir grows). }
    unfold os_rmdir, syscall in Hrm.
    destruct (fs_rmdir dir (w_fs w2)) as [[e|] fs'] eqn:Hfs; [done|].
    injection Hrm as <-. cbn [w_fs w_ops op_add with_fs].
    apply fs_rmdir_spec in Hfs. split.
    + destruct Hfs as (_ & _ & ->). cbn [nodes set_nodes]. apply lookup_delete_eq.
    + exists t. by rewrite Ht, app_assoc.
Qed.

Lemma wf_of_entries fs : wf_entries fs → wf fs.
Proof.
  intros [Hn Hi]. split.
  - intros k n [nd Hk]. destruct (Hn _ _ Hk) as [[Hroot|[Hl Hp]] _].
    + by destruct k.
    + rewrite last_snoc in Hl. rewrite parent_snoc in Hp. split; [congruence|done].
  - intros k i Hk. by destruct (Hn _ _ Hk) as [_ ?].
  - intros i ino Hino. by apply (Hi _ _ Hino).
Qed.

Lemma wf_of_check fs : bool_decide (wf_entries fs) = true → wf fs.
Proof. intros H. apply wf_of_entries. by apply bool_decide_eq_true in H. Qed.

Lemma acl_modify_dir f t fs a :
  nodes fs !! t = Some (NDir a) →
  nodes (acl_modify f false t fs) = <[t := NDir (f a)]> (nodes fs) ∧
  inodes (acl_modify f false t fs) = inodes fs.
Proof.
  intros Ht. split; apply map_eq; intros k.
  - rewrite acl_modify_nodes. destruct (decide (k = t)) as [->|Hne].
    + rewrite lookup_insert_eq, Ht. simpl. by rewrite decide_True.
    + rewrite lookup_insert_ne by done.
      destruct (nodes fs !! k) as [[b|j]|]; simpl; try done.
      by rewrite decide_False.
  - rewrite acl_modify_inodes. unfold rewrite_inode.
    destruct (inodes fs !! k); simpl; [|done].
    rewrite decide_False; [done|]. intros H%reaches_file_iff. congruence.
Qed.

(** X3. [_makedir] in an existing directory: an absent name becomes a directory
    that carries the ACL read from the share directory, by one [os.makedirs]
    and one ACL write; a name in use raises [FileExistsError] for that path,
    with nothing changed and no call completed. *)
Theorem makedir_outcomes self p n w perms :
  n ≠ "" →
  fs_isdir (w_fs w) p = true →
  acl_of (w_fs w) (directory self) = Some perms →
  (nodes (w_fs w) !! (p ++ [n])%list = None →
     ∃ w', _makedir acl_missing self (p ++ [n]) w = (Ok tt, w') ∧
       nodes (w_fs w') = <[(p ++ [n])%list := NDir perms]> (nodes (w_fs w)) ∧
       inodes (w_fs w') = inodes (w_fs w) ∧
       w_ops w' = (w_ops w ++ [EvMakedirs (p ++ [n]); EvAclSet perms (p ++ [n])])%list) ∧
  (is_Some (nodes (w_fs w) !! (p ++ [n])%list) →
     ∃ w', _makedir acl_missing self (p ++ [n]) w
             = (Raise (FileExistsError (p ++ [n])), w') ∧
       w_fs w' = w_fs w ∧ w_ops w' = w_ops w).
Proof.
  intros Hn Hp Hperms. split.
  - intros Hfree. unfold _makedir. mstep. unfold os_makedirs.
    erewrite bind_Ok.
    2:{ apply syscall_Ok. cbn [w_fs log_add]. by apply fs_makedirs_fresh. }
    set (fs1 := set_nodes (insert (p ++ [n])%list (NDir (new_dir_acl (w_fs w)))) (w_fs w)).
    assert (Hne : directory self ≠ (p ++ [n])%list).
    { intros Heq. unfold acl_of in Hperms. by rewrite Heq, Hfree in Hperms. }
    assert (Hperms1 : acl_of fs1 (directory self) = Some perms).
    { unfold acl_of, fs1 in *. cbn [nodes inodes set_nodes].
      by rewrite lookup_insert_ne. }
    assert (Ht1 : nodes fs1 !! (p ++ [n])%list = Some (NDir (new_dir_acl (w_fs w)))).
    { unfold fs1. cbn [nodes set_nodes]. by rewrite lookup_insert_eq. }
    unfold Share_permissions. rewrite (bind_from_file _ _ _ perms) by done.
    unfold acl_set. erewrite acl_write_Ok.
    2:{ cbn [w_fs op_add with_fs]. unfold acl_of. by rewrite Ht1. }
    eexists. split; [done|]. cbn [w_fs w_ops op_add with_fs log_add].
    destruct (acl_modify_dir (λ _, perms) _ fs1 _ Ht1) as [-> ->].
    split_and!.
    + unfold fs1. cbn [nodes set_nodes]. by rewrite insert_insert_eq.
    + done.
    + by rewrite <- app_assoc.
  - intros Hused. unfold _makedir. mstep. unfold os_makedirs.
    erewrite bind_Raise.
    2:{ apply syscall_Raise. cbn [w_fs log_add].
        rewrite fs_makedirs_exists; [done..|].
        unfold fs_isdir in Hp. unfold fs_exists. by destruct (nodes (w_fs w) !! p). }
    eexists. split; [done|]. done.
Qed.

Lemma fs_makedirs_exists_wf name fs :
  wf fs → is_Some (nodes fs !! name) →
  fs_makedirs name false fs = (Some (FileExistsError name), fs).
Proof.
  intros Hwf [nd Hnd]. destruct (decide (name = [])) as [->|Hne].
  - unfold fs_makedirs. cbn [rev makedirs_rev]. unfold fs_mkdir.
    rewrite decide_False by done. by rewrite Hnd.
  - destruct (path_snoc_parent name Hne) as [n Hname]. rewrite Hname in Hnd |- *.
    destruct (wf_parent fs Hwf (parent name) n) as [Hn Hp]; [by eexists|].
    rewrite fs_makedirs_exists; [done|done|by eexists|].
    unfold fs_isdir in Hp. unfold fs_exists. by destruct (nodes fs !! parent name).
Qed.

Lemma bind_ret_tt (m : M unit) w : bind m (λ _, ret tt) w = m w.
Proof. unfold bind. by destruct (m w) as [[[]|e|] w']. Qed.

(** X4. Adding a directory whose place in the share is taken: the first
    duplication attempt fails in its first [os.makedirs] with
    [FileExistsError] for the path inside the share, having changed nothing;
    [add] then un-shares exactly that path, without force, and duplicates
    again. *)
Theorem add_existing_mirror fuel self X w :
  wf (w_fs w) →
  fs_isdir (w_fs w) X = true →
  is_Some (nodes (w_fs w) !! join (directory self) (basename X)) →
  let mirror := join (directory self) (basename X) in
  (∃ w1, _duplicate_as_linked_tree acl_missing fuel self X w
           = (Raise (FileExistsError mirror), w1) ∧
         w_fs w1 = w_fs w ∧ w_ops w1 = w_ops w) ∧
  (∃ w2, same_run w w2 ∧
         add acl_missing fuel self [X] w
           = (_unshare_linked_tree acl_missing fuel self mirror false ;;;
              _duplicate_as_linked_tree acl_missing fuel self X) w2).
Proof.
  intros Hwf HX Hm mirror.
  assert (Hdup : ∀ w0, w_fs w0 = w_fs w →
    _duplicate_as_linked_tree acl_missing fuel self X w0
      = (Raise (FileExistsError mirror),
         log_add DEBUG (MsgCreating mirror)
           (log_add DEBUG (MsgDuplicating (directory self)) w0))).
  { intros w0 Hw0. unfold _duplicate_as_linked_tree, _makedir. mstep.
    fold mirror. unfold os_makedirs. erewrite bind_Raise; [done|].
    erewrite syscall_Raise; [done|]. cbn [w_fs log_add]. rewrite Hw0.
    by apply fs_makedirs_exists_wf. }
  split.
  - rewrite Hdup by done. eexists. split; [done|]. done.
  - rewrite add_unfold. cbn zeta. unfold add_handle.
    assert (Hnf : fs_isfile (w_fs w) X = false).
    { unfold fs_isdir in HX. unfold fs_isfile.
      by destruct (nodes (w_fs w) !! X) as [[a|i]|]. }
    rewrite !filter_cons, !filter_nil.
    rewrite decide_False by congruence. rewrite decide_True by done.
    rewrite list_difference_nil.
    2:{ intros x Hx. apply elem_of_app. by left. }
    cbn [for_each remove_dups]. mstep.
    set (w1 := log_add DEBUG (MsgAdding (directory self) [X]) w).
    exists (log_add DEBUG (MsgDirExists mirror)
              (log_add DEBUG (MsgCreating mirror)
                 (log_add DEBUG (MsgDuplicating (directory self)) w1))).
    split; [done|].
    unfold bind at 1. erewrite try_except_Raise by (by apply Hdup).
    cbn beta iota. rewrite bind_logging.
    match goal with
    | |- match ?r with _ => _ end = _ => destruct r as [[[]|e|] w'] eqn:Hrun
    end; reflexivity.
Qed.

Lemma fs_link_denied src dst fs i ino :
  ¬ nameless dst →
  nodes fs !! src = Some (NFile i) → inodes fs !! i = Some ino →
  i_linkable ino = false → nodes fs !! dst = None → fs_isdir fs (parent dst) = true →
  fs_link src dst fs = (Some (PermissionError src), fs).
Proof.
  intros Hnl Hs Hi Hl Hd Hp. unfold fs_link. rewrite decide_False by done.
  rewrite Hs, Hd.
  unfold fs_isdir in Hp. destruct (nodes fs !! parent dst) as [[a|j]|]; try done.
  by rewrite Hi, Hl.
Qed.

(** X5. The source file may not be hard-linked (the [PermissionError] of
    [os.link]): [_link_files] has by then taken the lock entries out of the
    source's ACL, makes no link, and its handler reads the ACL of the target,
    which does not exist.  Where the ACL wrapper carries on from a missing
    path, the error is swallowed: the call ends normally after logging the
    source path with an empty ACL; where the wrapper raises, that exception
    comes out instead. *)
Theorem link_files_permission_error fuel self source target w i ino :
  wf (w_fs w) →
  ¬ nameless target →
  nodes (w_fs w) !! source = Some (NFile i) →
  inodes (w_fs w) !! i = Some ino →
  i_linkable ino = false →
  nodes (w_fs w) !! target = None →
  fs_isdir (w_fs w) (parent target) = true →
  ∃ w', _link_files acl_missing (S fuel) self source target w
          = (match acl_missing with Some e => Raise e | None => Ok tt end, w') ∧
    nodes (w_fs w') = nodes (w_fs w) ∧
    inodes (w_fs w') =
      alter (λ ino, with_acl (list_difference (i_acl ino) (lock_acl self)) ino) i
        (inodes (w_fs w)) ∧
    w_ops w' = (w_ops w ++ [EvAclUnset (lock_acl self) source true])%list ∧
    (acl_missing = None →
       w_log w' = (w_log w ++ [(DEBUG, MsgUnlocking source);
                               (DEBUG, MsgLinking source target);
                               (ERROR, MsgInsufficient (realpath source) [])])%list).
Proof.
  intros Hwf Hnl Hs Hi Hl Ht Hp.
  set (f1 := λ cur : AccessControlList, list_difference cur (lock_acl self)).
  pose proof (acl_modify_wf_file f1 true source (w_fs w) i Hwf Hs) as [Hn1 Hi1].
  set (fs1 := acl_modify f1 true source (w_fs w)) in *.
  assert (Hlink : fs_link source target fs1 = (Some (PermissionError source), fs1)).
  { apply (fs_link_denied _ _ _ i (with_acl (f1 (i_acl ino)) ino)); try done.
    - by rewrite Hn1.
    - by rewrite Hi1, lookup_alter_eq, Hi.
    - by rewrite Hn1.
    - unfold fs_isdir in *. by rewrite Hn1. }
  assert (Hatt : link_attempt acl_missing self source target w
    = (Raise (PermissionError source),
       with_fs fs1
         (log_add DEBUG (MsgLinking source target)
            (op_add (EvAclUnset (lock_acl self) source true)
               (with_fs fs1 (log_add DEBUG (MsgUnlocking source) w)))))).
  { unfold link_attempt. erewrite bind_Ok; [|by eapply unlock_file]. mstep.
    unfold os_link, realpath. fold f1. fold fs1.
    erewrite bind_Raise; [done|]. by apply syscall_Raise. }
  rewrite link_files_unfold, (try_except_Raise _ _ _ _ _ Hatt).
  cbn [link_handler]. unfold from_file. mstep.
  assert (Hnone : acl_of fs1 target = None).
  { unfold acl_of. by rewrite Hn1, Ht. }
  rewrite Hnone. unfold missing. destruct acl_missing as [e|]; mstep.
  - eexists. split; [done|]. cbn [w_fs w_ops w_log op_add with_fs log_add].
    split_and!; done.
  - eexists. split; [done|]. cbn [w_fs w_ops w_log op_add with_fs log_add].
    split_and!; try done. intros _. by rewrite <- !app_assoc.
Qed.

Lemma wf_nlink_pos fs p i ino :
  wf fs → nodes fs !! p = Some (NFile i) → inodes fs !! i = Some ino →
  (0 < st_nlink ino)%nat.
Proof.
  intros Hwf Hp Hi. rewrite (wf_nlink fs Hwf i ino Hi).
  destruct (decide (size (links_to fs i) = 0)) as [Hz|]; [|lia].
  apply map_size_empty_inv in Hz.
  assert (links_to fs i !! p = Some (NFile i)) as Hl by (by apply links_to_lookup).
  rewrite Hz in Hl. by rewrite lookup_empty in Hl.
Qed.

Lemma fs_link_in_use src dst fs nd :
  wf fs → nodes fs !! src = Some nd → is_Some (nodes fs !! dst) →
  fs_isdir fs (parent dst) = true →
  fs_link src dst fs = (Some (FileExistsError src), fs).
Proof.
  intros Hwf Hs [d Hd] Hp. unfold fs_link.
  assert (¬ nameless dst) as Hnl.
  { destruct (decide (dst = [])) as [->|Hne]; [done|].
    destruct (path_snoc_parent dst Hne) as [n Hn]. rewrite Hn in Hd |- *.
    rewrite nameless_snoc. by eapply wf_parent; eauto. }
  rewrite decide_False by done. rewrite Hs, Hd.
  unfold fs_isdir in Hp. by destruct (nodes fs !! parent dst) as [[a|j]|].
Qed.

Lemma link_attempt_in_use self source target w i nd :
  wf (w_fs w) →
  nodes (w_fs w) !! source = Some (NFile i) →
  nodes (w_fs w) !! target = Some nd →
  fs_isdir (w_fs w) (parent target) = true →
  let fs1 := acl_modify (λ cur, list_difference cur (lock_acl self)) true source (w_fs w) in
  nodes fs1 = nodes (w_fs w) ∧
  inodes fs1 = alter (λ ino, with_acl (list_difference (i_acl ino) (lock_acl self)) ino) i
                 (inodes (w_fs w)) ∧
  link_attempt acl_missing self source target w
    = (Raise (FileExistsError source),
       with_fs fs1
         (log_add DEBUG (MsgLinking source target)
            (op_add (EvAclUnset (lock_acl self) source true)
               (with_fs fs1 (log_add DEBUG (MsgUnlocking source) w))))).
Proof.
  intros Hwf Hs Ht Hp fs1.
  destruct (wf_inode _ Hwf _ _ Hs) as [ino Hi].
  pose proof (acl_modify_wf_file (λ cur, list_difference cur (lock_acl self))
                true source (w_fs w) i Hwf Hs) as [Hn1 Hi1].
  fold fs1 in Hn1, Hi1. split; [done|]. split; [done|].
  unfold link_attempt. erewrite bind_Ok; [|by eapply unlock_file]. mstep.
  unfold os_link, realpath. fold fs1.
  erewrite bind_Raise; [done|]. apply syscall_Raise. cbn [w_fs with_fs log_add op_add].
  eapply fs_link_in_use.
  - by apply wf_acl_modify.
  - by rewrite Hn1.
  - rewrite Hn1. by eexists.
  - unfold fs_isdir in *. by rewrite Hn1.
Qed.

(** X6. The target of [_link_files] is a file whose only hard link is the
    target itself: [os.link] fails with [FileExistsError], the handler's
    [_unshare_file] stops at its guard, and the [FileNotFoundError] of the
    guard comes out of [_link_files].  Nothing is unlinked; the one call
    completed is the removal of the lock entries from the source. *)
Theorem link_files_target_last_link fuel self source target w i j inoj :
  wf (w_fs w) →
  nodes (w_fs w) !! source = Some (NFile i) →
  nodes (w_fs w) !! target = Some (NFile j) →
  inodes (w_fs w) !! j = Some inoj →
  fs_isdir (w_fs w) (parent target) = true →
  st_nlink inoj = 1 →
  ∃ w', _link_files acl_missing (S fuel) self source target w
          = (Raise (FileNotFoundError (OneHardLink target)), w') ∧
    nodes (w_fs w') = nodes (w_fs w) ∧
    inodes (w_fs w') =
      alter (λ ino, with_acl (list_difference (i_acl ino) (lock_acl self)) ino) i
        (inodes (w_fs w)) ∧
    w_ops w' = (w_ops w ++ [EvAclUnset (lock_acl self) source true])%list.
Proof.
  intros Hwf Hs Ht Hj Hp Hone.
  destruct (link_attempt_in_use self source target w i (NFile j) Hwf Hs Ht Hp)
    as (Hn1 & Hi1 & Hatt).
  set (fs1 := acl_modify (λ cur, list_difference cur (lock_acl self)) true source
                (w_fs w)) in *.
  rewrite link_files_unfold, (try_except_Raise _ _ _ _ _ Hatt).
  cbn [link_handler]. mstep. unfold _unshare_file. mstep. cbn [negb].
  unfold os_stat_nlink. mstep.
  assert (Hst : fs_stat_nlink fs1 target = inr 1).
  { unfold fs_stat_nlink. rewrite Hn1, Ht, Hi1.
    destruct (decide (j = i)) as [->|Hne].
    - by rewrite lookup_alter_eq, Hj; cbn; rewrite Hone.
    - by rewrite lookup_alter_ne, Hj, Hone. }
  rewrite Hst. mstep. rewrite decide_True by done. mstep.
  eexists. split; [done|]. done.
Qed.

(** X7. The target of [_link_files] is taken by a file that has other hard
    links, among them possibly the source itself (a file that is added
    again): the handler un-shares the target and the second attempt links
    the source in its place.  The completed calls are the six listed; the
    inode of the source counts one more link, none more if the target was
    already one of its links, and the inode that was at the target counts
    one less. *)
Theorem link_files_target_replaced fuel self source target w i ino j inoj perms :
  wf (w_fs w) →
  source ≠ target →
  nodes (w_fs w) !! source = Some (NFile i) →
  inodes (w_fs w) !! i = Some ino →
  i_linkable ino = true →
  nodes (w_fs w) !! target = Some (NFile j) →
  inodes (w_fs w) !! j = Some inoj →
  st_nlink inoj ≠ 1 →
  fs_isdir (w_fs w) (parent target) = true →
  nodes (w_fs w) !! directory self = Some (NDir perms) →
  let stale_acl :=
    if decide (j = i) then list_difference (i_acl inoj) (lock_acl self) else i_acl inoj in
  ∃ w', _link_files acl_missing (S (S fuel)) self source target w = (Ok tt, w') ∧
    nodes (w_fs w') = <[target := NFile i]> (nodes (w_fs w)) ∧
    w_ops w' = (w_ops w ++ [EvAclUnset (lock_acl self) source true;
                            EvAclSet (acl_sub stale_acl perms) target;
                            EvUnlink target;
                            EvAclUnset (lock_acl self) source true;
                            EvLink (realpath source) target;
                            EvAclAppend perms target false])%list ∧
    (∃ ino', inodes (w_fs w') !! i = Some ino' ∧
             st_nlink ino' = if decide (j = i) then st_nlink ino else S (st_nlink ino)) ∧
    (j ≠ i → ∃ inoj', inodes (w_fs w') !! j = Some inoj' ∧
                      st_nlink inoj' = (st_nlink inoj - 1)%nat ∧
                      i_acl inoj' = acl_sub (i_acl inoj) perms).
Proof.
  intros Hwf Hst Hs Hi Hl Ht Hj Hn1j Hp Hd stale_acl.
  destruct (link_attempt_in_use self source target w i (NFile j) Hwf Hs Ht Hp)
    as (Hn1 & Hi1 & Hatt).
  set (L := lock_acl self) in *.
  set (fs1 := acl_modify (λ cur, list_difference cur L) true source (w_fs w)) in *.
  assert (Hwf1 : wf fs1) by (by apply wf_acl_modify).
  pose proof (wf_nlink_pos _ _ _ _ Hwf Ht Hj) as Hpos.
  (* the inode at the target, after the unlock of the source *)
  set (inoj1 := with_acl stale_acl inoj).
  assert (Hj1 : inodes fs1 !! j = Some inoj1).
  { rewrite Hi1. unfold inoj1, stale_acl. destruct (decide (j = i)) as [->|Hne].
    - by rewrite lookup_alter_eq, Hj.
    - rewrite lookup_alter_ne, Hj by done. by destruct inoj. }
  assert (Hd1 : acl_of fs1 (directory self) = Some perms).
  { unfold acl_of. by rewrite Hn1, Hd. }
  rewrite link_files_unfold, (try_except_Raise _ _ _ _ _ Hatt).
  cbn [link_handler]. mstep.
  erewrite bind_Ok.
  2:{ eapply (unshare_file_removes self target false _ j inoj1 perms);
        cbn [w_fs with_fs log_add op_add]; try done.
      - by rewrite Hn1.
      - by right. }
  cbn [w_fs with_fs log_add op_add i_acl inoj1 with_acl].
  set (newp := acl_sub stale_acl perms).
  set (fs2 := acl_modify (λ _, newp) false target fs1).
  assert (Ht1 : nodes fs1 !! target = Some (NFile j)) by (by rewrite Hn1).
  destruct (acl_modify_file (λ _, newp) target fs1 j Ht1) as [Hn2 Hi2].
  fold fs2 in Hn2, Hi2.
  assert (Ht2 : nodes fs2 !! target = Some (NFile j)) by (by rewrite Hn2).
  destruct (fs_unlink_spec target fs2 j Ht2) as (fs3 & Hul & Hn3 & _ & Hi3o & Hi3j).
  rewrite Hul. cbn [snd].
  assert (Hwf3 : wf fs3).
  { pose proof (wf_unlink_any target fs2 (wf_acl_modify _ _ _ _ Hwf1)) as H3.
    by rewrite Hul in H3. }
  assert (Hj2 : inodes fs2 !! j = Some (with_acl newp inoj1)).
  { by rewrite Hi2, lookup_alter_eq, Hj1. }
  assert (Hj3 : inodes fs3 !! j
                = Some (with_nlink (st_nlink inoj - 1) (with_acl newp inoj1))).
  { rewrite Hi3j, Hj2. cbn. rewrite decide_False by lia. done. }
  (* the inode of the source, after the target was un-shared *)
  set (ino3 := if decide (j = i)
               then with_nlink (st_nlink inoj - 1) (with_acl newp inoj1)
               else with_acl (list_difference (i_acl ino) L) ino).
  assert (Hi3 : inodes fs3 !! i = Some ino3).
  { unfold ino3. destruct (decide (j = i)) as [->|Hne]; [done|].
    rewrite Hi3o by done. rewrite Hi2, lookup_alter_ne by done.
    by rewrite Hi1, lookup_alter_eq, Hi. }
  assert (Hl3 : i_linkable ino3 = true).
  { unfold ino3. destruct (decide (j = i)) as [->|Hne]; [|done].
    cbn. congruence. }
  edestruct (link_files_fresh fuel self source target
               (op_add (EvUnlink target)
                  (with_fs fs3
                     (op_add (EvAclSet newp target)
                        (with_fs fs2
                           (log_add DEBUG (MsgNewPermissions target newp)
                              (log_add DEBUG (MsgUnsharingFile target)
                                 (log_add DEBUG (MsgFileExists source)
                                    (with_fs fs1
                                       (log_add DEBUG (MsgLinking source target)
                                          (op_add (EvAclUnset L source true)
                                             (with_fs fs1
                                                (log_add DEBUG (MsgUnlocking source) w))))))))))))
               i ino3 perms) as (w' & Hrun & Hn' & Hi' & _ & Hops');
    cbn [w_fs w_ops with_fs log_add op_add]; try done.
  { destruct (decide (target = [])) as [->|Hne]; [done|].
    destruct (path_snoc_parent target Hne) as [n Hn].
    destruct (wf_parent _ Hwf (parent target) n) as [Hnn _];
      [rewrite <- Hn; by eexists|].
    rewrite Hn. by rewrite nameless_snoc. }
  { rewrite Hn3, lookup_delete_ne by done. by rewrite Hn2, Hn1. }
  { by rewrite Hn3, lookup_delete_eq. }
  { assert (target ≠ parent target) as Hne.
    { intros Heq. unfold fs_isdir in Hp. by rewrite <- Heq, Ht in Hp. }
    unfold fs_isdir in *. rewrite Hn3, lookup_delete_ne by done. by rewrite Hn2, Hn1. }
  { assert (target ≠ directory self) as Hne by congruence.
    rewrite Hn3, lookup_delete_ne by done. by rewrite Hn2, Hn1. }
  exists w'. split; [exact Hrun|].
  cbn [w_fs w_ops with_fs log_add op_add] in Hn', Hi', Hops'. split_and!.
  - rewrite Hn', Hn3, Hn2, Hn1. by rewrite insert_delete_eq.
  - rewrite Hops'. by rewrite <- !app_assoc.
  - rewrite Hi', lookup_insert_eq. eexists. split; [done|]. cbn.
    unfold ino3. destruct (decide (j = i)) as [->|Hne]; cbn.
    + assert (inoj = ino) as -> by congruence. lia.
    + done.
  - intros Hne. rewrite Hi', lookup_insert_ne, Hj3 by done.
    eexists. split; [done|]. cbn. split; [done|].
    unfold newp, stale_acl. by rewrite decide_False.
Qed.

(** *** Without force, no file loses its last hard link *)

Lemma links_kept_refl fs : links_kept fs fs.
Proof. intros i ino Hi Hpos. eauto. Qed.

Lemma links_kept_trans fs1 fs2 fs3 :
  links_kept fs1 fs2 → links_kept fs2 fs3 → links_kept fs1 fs3.
Proof.
  intros H12 H23 i ino Hi Hpos.
  destruct (H12 i ino Hi Hpos) as (ino2 & Hi2 & Hpos2). eauto.
Qed.

Lemma inodes_mkdir p fs : inodes (fs_mkdir p fs).2 = inodes fs.
Proof.
  unfold fs_mkdir. case_decide; [done|]. destruct (nodes fs !! p); [done|].
  by destruct (nodes fs !! parent p) as [[a|j]|].
Qed.

Lemma inodes_makedirs_rev rname exist_ok fs :
  inodes (makedirs_rev rname exist_ok fs).2 = inodes fs.
Proof.
  revert fs. induction rname as [|n rhead IH]; intros fs.
  - cbn. pose proof (inodes_mkdir [] fs) as H0.
    destruct (fs_mkdir [] fs) as [[e|] fs2]; cbn in *; [|done].
    by destruct (negb exist_ok || negb (fs_isdir fs2 [])).
  - cbn [makedirs_rev].
    set (st := if fs_exists fs (rev rhead) then (None, fs) else
                 match makedirs_rev rhead exist_ok fs with
                 | (Some (FileExistsError _), fs'0) => (None, fs'0)
                 | res => res
                 end).
    assert (inodes st.2 = inodes fs) as Hst.
    { unfold st. destruct (fs_exists fs (rev rhead)); [done|].
      specialize (IH fs).
      destruct (makedirs_rev rhead exist_ok fs) as [[[]|] fs1]; done. }
    destruct st as [[e|] fs1]; [done|]. cbn in Hst.
    pose proof (inodes_mkdir (rev (n :: rhead)) fs1) as H0.
    destruct (fs_mkdir (rev (n :: rhead)) fs1) as [[e|] fs2]; cbn in *; [|congruence].
    destruct (negb exist_ok || negb (fs_isdir fs2 (rev rhead ++ [n]))); cbn; congruence.
Qed.

Lemma links_kept_eq fs fs' : inodes fs' = inodes fs → links_kept fs fs'.
Proof. intros Heq i ino Hi Hpos. rewrite Heq. eauto. Qed.

Lemma links_kept_link src dst fs : links_kept fs (fs_link src dst fs).2.
Proof.
  unfold fs_link. case_decide; [apply links_kept_refl|].
  destruct (nodes fs !! src) as [nd|]; [|apply links_kept_refl].
  destruct (nodes fs !! parent dst) as [[a|j]|]; try apply links_kept_refl.
  destruct (nodes fs !! dst); [apply links_kept_refl|].
  destruct nd as [b|i]; [apply links_kept_refl|].
  destruct (inodes fs !! i) as [ino|] eqn:Hi; [|apply links_kept_refl].
  destruct (i_linkable ino); [|apply links_kept_refl].
  intros k inok Hk Hpos. cbn [snd inodes set_inodes set_nodes].
  destruct (decide (k = i)) as [->|Hne].
  - rewrite lookup_insert_eq. eexists. split; [done|]. cbn. lia.
  - rewrite lookup_insert_ne by done. eauto.
Qed.

Lemma inodes_rmdir p fs : inodes (fs_rmdir p fs).2 = inodes fs.
Proof.
  unfold fs_rmdir. destruct (nodes fs !! p) as [[a|i]|]; try done.
  destruct (listdir fs p); [|done]. by case_decide.
Qed.

Lemma links_kept_acl_modify f r t fs : links_kept fs (acl_modify f r t fs).
Proof.
  intros i ino Hi Hpos. rewrite acl_modify_inodes, Hi. cbn.
  eexists. split; [done|]. unfold rewrite_inode. by case_decide.
Qed.

Lemma links_kept_sysstep_keep fs fs' : sysstep_keep fs fs' → links_kept fs fs'.
Proof.
  intros [name ok|src dst|p|f r t].
  - apply links_kept_eq, inodes_makedirs_rev.
  - apply links_kept_link.
  - apply links_kept_eq, inodes_rmdir.
  - apply links_kept_acl_modify.
Qed.

Lemma sysstep_keep_sysstep fs fs' : sysstep_keep fs fs' → sysstep fs fs'.
Proof. intros [name ok|src dst|p|f r t]; constructor. Qed.

(** [os.unlink] of an entry whose inode does not count exactly one link. *)
Lemma links_kept_unlink p fs :
  (∀ i ino, nodes fs !! p = Some (NFile i) → inodes fs !! i = Some ino →
            st_nlink ino ≠ 1) →
  links_kept fs (fs_unlink p fs).2.
Proof.
  intros Hguard. destruct (nodes fs !! p) as [[a|i]|] eqn:Hp.
  - unfold fs_unlink. rewrite Hp. apply links_kept_refl.
  - destruct (fs_unlink_spec p fs i Hp) as (fs' & Heq & _ & _ & Ho & Hi).
    rewrite Heq. cbn [snd]. intros k inok Hk Hpos.
    destruct (decide (k = i)) as [->|Hne].
    + rewrite Hi, Hk. cbn. specialize (Hguard i inok eq_refl Hk).
      rewrite decide_False by lia. eexists. split; [done|]. cbn. lia.
    + rewrite Ho by done. eauto.
  - unfold fs_unlink. rewrite Hp. apply links_kept_refl.
Qed.

Global Instance keeps_links_preorder : PreOrder keeps_links.
Proof.
  split.
  - intros w Hwf. split; [done|apply links_kept_refl].
  - intros w1 w2 w3 H12 H23 Hwf. destruct (H12 Hwf) as [Hwf2 Hk12].
    destruct (H23 Hwf2) as [Hwf3 Hk23]. split; [done|].
    by eapply links_kept_trans.
Qed.

(** The file systems [_unshare_file] without force can leave: at most one
    ACL write on the target, then the [os.unlink], which is reached only
    past the guard. *)
Lemma unshare_file_steps self target w :
  let fs := w_fs w in
  let fs' := w_fs (_unshare_file acl_missing self target false w).2 in
  ∃ fs1, (fs1 = fs ∨ ∃ a, fs1 = acl_modify (λ _, a) false target fs) ∧
         (fs' = fs1 ∨
          (fs' = (fs_unlink target fs1).2 ∧
           ∃ n, fs_stat_nlink fs target = inr n ∧ n ≠ 1)).
Proof.
  intros fs fs'. subst fs'.
  unfold _unshare_file, Share_permissions, acl_set, acl_write, from_file, missing,
    os_stat_nlink, os_unlink, syscall, bind, logging, get_fs, ret, raise.
  cbn [negb w_fs log_add with_fs op_add fst snd]. fold fs.
  destruct (fs_stat_nlink fs target) as [e|n] eqn:Hst.
  { exists fs. split; [by left|]. by left. }
  destruct (decide (n = 1)) as [Hn|Hn].
  { exists fs. split; [by left|]. by left. }
  repeat (case_match; simplify_eq/=);
    try (exists fs; split; [by left|]; by left).
  all: match goal with
       | H : fs_unlink _ ?X = (_, ?f) |- _ =>
           exists X; split;
           [ first [by left | right; by eexists]
           | right; split; [by rewrite H | eauto] ]
       end.
Qed.

Lemma unshare_file_keeps_links self target :
  preserves keeps_links (_unshare_file acl_missing self target false).
Proof.
  intros w Hwf. split; [by apply (respects_unshare_file keeps_wf)|].
  destruct (unshare_file_steps self target w) as (fs1 & Hfs1 & Hfs').
  cbn zeta in Hfs1, Hfs'.
  assert (links_kept (w_fs w) fs1) as Hk1.
  { destruct Hfs1 as [->|[a ->]]; [apply links_kept_refl|apply links_kept_acl_modify]. }
  destruct Hfs' as [->|[-> (n & Hst & Hn)]]; [done|].
  eapply links_kept_trans; [exact Hk1|]. apply links_kept_unlink.
  intros i ino Ht Hi. unfold fs_stat_nlink in Hst.
  destruct Hfs1 as [->|[a ->]].
  - rewrite Ht, Hi in Hst. congruence.
  - rewrite acl_modify_nodes in Ht. rewrite acl_modify_inodes in Hi.
    destruct (nodes (w_fs w) !! target) as [nd|] eqn:Hnd; [|done].
    cbn in Ht. injection Ht as Ht. apply rewrite_dir_file in Ht. subst nd.
    destruct (inodes (w_fs w) !! i) as [ino0|] eqn:Hi0; [|done].
    cbn in Hi. injection Hi as <-.
    assert (st_nlink (rewrite_inode (λ _, a) false target (nodes (w_fs w)) i ino0)
            = st_nlink ino0) as -> by (unfold rewrite_inode; by case_decide).
    congruence.
Qed.

(** What a relation needs to be kept by [add] and by un-sharing without
    force: it is a preorder that every log record, every recorded call and
    every call into the file system other than [os.unlink] respects, and
    [_unshare_file] without force keeps it. *)
Section guarded.
Context (R : world → world → Prop) `{!PreOrder R}.
Hypothesis R_log : ∀ w lv m, R w (log_add lv m w).
Hypothesis R_op : ∀ w ev, R w (op_add ev w).
Hypothesis R_fs : ∀ w fs', sysstep_keep (w_fs w) fs' → R w (with_fs fs' w).
Hypothesis R_unshare_file :
  ∀ self target, preserves R (_unshare_file acl_missing self target false).

Lemma guarded_logging lv m : preserves R (logging lv m).
Proof. intros w. apply R_log. Qed.

Lemma guarded_syscall ev f :
  (∀ fs, sysstep_keep fs (f fs).2) → preserves R (syscall ev f).
Proof.
  intros Hf. apply (preserves_syscall R).
  - intros w fs' Hfs. etrans; [|apply R_op].
    apply R_fs. specialize (Hf (w_fs w)). by rewrite Hfs in Hf.
  - intros w e fs' Hfs. apply R_fs.
    specialize (Hf (w_fs w)). by rewrite Hfs in Hf.
Qed.

Lemma guarded_missing {A} (a : A) : preserves R (missing acl_missing a).
Proof.
  unfold missing.
  destruct acl_missing; [by apply (preserves_raise R) | by apply (preserves_ret R)].
Qed.

Lemma guarded_from_file p : preserves R (from_file acl_missing p).
Proof.
  apply (preserves_bind R); [by apply (preserves_get_fs R)|]. intros fs.
  destruct (acl_of fs p); [by apply (preserves_ret R) | apply guarded_missing].
Qed.

Lemma guarded_acl_write ev f r t : preserves R (acl_write acl_missing ev f r t).
Proof.
  apply (preserves_bind R); [by apply (preserves_get_fs R)|]. intros fs.
  destruct (acl_of fs t); [|apply guarded_missing].
  apply guarded_syscall. intros fs'. cbn. constructor.
Qed.

Lemma guarded_makedir self dir : preserves R (_makedir acl_missing self dir).
Proof.
  apply (preserves_bind R); [apply guarded_logging|]. intros _.
  apply (preserves_bind R).
  { apply guarded_syscall. intros fs. constructor. }
  intros _.
  apply (preserves_bind R); [apply guarded_from_file|]. intros perms.
  apply guarded_acl_write.
Qed.

Lemma guarded_link_files fuel self source target :
  preserves R (_link_files acl_missing fuel self source target).
Proof.
  induction fuel as [|fuel IH]; [by apply (preserves_out_of_fuel R)|].
  rewrite link_files_unfold. apply (preserves_try_except R).
  - apply (preserves_bind R).
    { apply (preserves_bind R); [apply guarded_logging|]. intros _.
      apply guarded_acl_write. }
    intros _.
    apply (preserves_bind R); [apply guarded_logging|]. intros _.
    apply (preserves_bind R).
    { apply guarded_syscall. intros fs. constructor. }
    intros _.
    apply (preserves_bind R); [apply guarded_from_file|]. intros perms.
    apply guarded_acl_write.
  - intros e h He. destruct e; simpl in He; try done; injection He as <-.
    + apply (preserves_bind R); [apply guarded_logging|]. intros _.
      apply (preserves_bind R); [apply R_unshare_file|]. intros _. exact IH.
    + apply (preserves_bind R); [apply guarded_from_file|]. intros a.
      apply guarded_logging.
Qed.

Lemma guarded_duplicate fuel self source_root :
  preserves R (_duplicate_as_linked_tree acl_missing fuel self source_root).
Proof.
  apply (preserves_bind R); [apply guarded_logging|]. intros _.
  apply (preserves_bind R); [apply guarded_makedir|]. intros _.
  apply (preserves_os_walk R). intros root dirs nondirs _.
  apply (preserves_bind R); [ |intros _].
  - apply (preserves_for_each R). intros d _. apply guarded_makedir.
  - apply (preserves_for_each R). intros f _. apply guarded_link_files.
Qed.

Lemma guarded_unshare_linked_tree fuel self dir :
  preserves R (_unshare_linked_tree acl_missing fuel self dir false).
Proof.
  apply (preserves_bind R); [apply guarded_logging|]. intros _.
  apply (preserves_bind R).
  2:{ intros _. apply guarded_syscall. intros fs. constructor. }
  apply (preserves_os_walk_bottomup R). intros root dirs nondirs _.
  apply (preserves_bind R); [ |intros _].
  - apply (preserves_for_each R). intros f _. apply R_unshare_file.
  - apply (preserves_for_each R). intros d _.
    apply (preserves_bind R); [apply guarded_logging|]. intros _.
    apply guarded_syscall. intros fs. constructor.
Qed.

Lemma guarded_add fuel self items : preserves R (add acl_missing fuel self items).
Proof.
  apply (preserves_bind R); [apply guarded_logging|]. intros _.
  apply (preserves_bind R); [by apply (preserves_get_fs R)|]. intros fs.
  apply (preserves_bind R); [ |intros _].
  { apply (preserves_for_each R). intros f _. apply guarded_link_files. }
  apply (preserves_bind R); [ |intros _].
  { apply (preserves_for_each R). intros d _.
    apply (preserves_try_except R); [apply guarded_duplicate|].
    intros e h He. destruct e; simpl in He; try done; injection He as <-.
    apply (preserves_bind R); [apply guarded_logging|]. intros _.
    apply (preserves_bind R); [apply guarded_unshare_linked_tree|]. intros _.
    apply guarded_duplicate. }
  apply (preserves_for_each R). intros u _. apply guarded_logging.
Qed.

End guarded.

Lemma keeps_links_fs w fs' : sysstep_keep (w_fs w) fs' → keeps_links w (with_fs fs' w).
Proof.
  intros Hstep Hwf. cbn [w_fs with_fs]. split.
  - eapply wf_sysstep; [by apply sysstep_keep_sysstep|done].
  - by apply links_kept_sysstep_keep.
Qed.

(** X8. Without force, no file loses its last hard link: whatever [add] and
    [self_destruct] do on a well-formed file system, however they end, every
    file that had a directory entry before still has one afterwards. *)
Theorem no_last_link_lost fuel self items w p i :
  wf (w_fs w) →
  nodes (w_fs w) !! p = Some (NFile i) →
  (∃ p', nodes (w_fs (add acl_missing fuel self items w).2) !! p' = Some (NFile i)) ∧
  (∃ p', nodes (w_fs (self_destruct acl_missing fuel self false w).2) !! p'
         = Some (NFile i)).
Proof.
  intros Hwf Hp. destruct (wf_inode _ Hwf _ _ Hp) as [ino Hi].
  pose proof (wf_nlink_pos _ _ _ _ Hwf Hp Hi) as Hpos.
  assert (Hgen : ∀ w', keeps_links w w' → ∃ p', nodes (w_fs w') !! p' = Some (NFile i)).
  { intros w' Hk. destruct (Hk Hwf) as [Hwf' Hkept].
    destruct (Hkept i ino Hi Hpos) as (ino' & Hi' & Hpos').
    rewrite (wf_nlink _ Hwf' _ _ Hi') in Hpos'.
    destruct (map_choose (links_to (w_fs w') i)) as (p' & nd & Hl).
    { apply map_size_non_empty_iff. lia. }
    apply links_to_lookup in Hl as [Hl ->]. eauto. }
  split; apply Hgen.
  - apply (guarded_add keeps_links); intros.
    + intros Hw. split; [done|apply links_kept_refl].
    + intros Hw. split; [done|apply links_kept_refl].
    + by apply keeps_links_fs.
    + apply unshare_file_keeps_links.
  - apply (guarded_unshare_linked_tree keeps_links); intros.
    + intros Hw. split; [done|apply links_kept_refl].
    + intros Hw. split; [done|apply links_kept_refl].
    + by apply keeps_links_fs.
    + apply unshare_file_keeps_links.
Qed.

(** *** Un-sharing stays inside its directory *)

Global Instance confined_preorder dir : PreOrder (confined dir).
Proof.
  split.
  - intros w. split; [done|]. exists []. by rewrite app_nil_r.
  - intros w1 w2 w3 [Hn12 (t1 & Ht1 & Hf1)] [Hn23 (t2 & Ht2 & Hf2)]. split.
    + intros k Hk. by rewrite Hn23, Hn12.
    + exists (t1 ++ t2)%list. split; [by rewrite Ht2, Ht1, app_assoc|].
      by apply Forall_app.
Qed.

Lemma nodes_unlink_other p fs k : k ≠ p → nodes (fs_unlink p fs).2 !! k = nodes fs !! k.
Proof.
  intros Hk. unfold fs_unlink. destruct (nodes fs !! p) as [[a|i]|]; try done.
  cbn [snd nodes set_inodes set_nodes]. by rewrite lookup_delete_ne.
Qed.

Lemma nodes_rmdir_other p fs k : k ≠ p → nodes (fs_rmdir p fs).2 !! k = nodes fs !! k.
Proof.
  intros Hk. unfold fs_rmdir. destruct (nodes fs !! p) as [[a|i]|]; try done.
  destruct (listdir fs p); [|done]. case_decide; [done|].
  cbn [snd nodes set_nodes]. by rewrite lookup_delete_ne.
Qed.

Lemma nodes_acl_modify_other f t fs k :
  k ≠ t → nodes (acl_modify f false t fs) !! k = nodes fs !! k.
Proof.
  intros Hk. rewrite acl_modify_nodes.
  destruct (nodes fs !! k) as [[a|i]|]; cbn; try done. by rewrite decide_False.
Qed.

Lemma prefix_of_join (dir root : path) n : dir `prefix_of` root → dir `prefix_of` join root n.
Proof.
  intros Hpre. unfold join. case_decide; [done|]. by apply prefix_app_r.
Qed.

Lemma confined_step dir ev f :
  removal ev → dir `prefix_of` written ev →
  (∀ fs k, k ≠ written ev → nodes (f fs).2 !! k = nodes fs !! k) →
  preserves (confined dir) (syscall ev f).
Proof.
  intros Hrem Hpre Hframe.
  assert (Hout : ∀ fs k, ¬ dir `prefix_of` k → nodes (f fs).2 !! k = nodes fs !! k).
  { intros fs k Hk. apply Hframe. by intros ->. }
  apply (preserves_syscall (confined dir)).
  - intros w fs' Hf. split.
    + intros k Hk. cbn [w_fs op_add with_fs]. specialize (Hout (w_fs w) k Hk).
      by rewrite Hf in Hout.
    + exists [ev]. split; [done|]. by repeat constructor.
  - intros w e fs' Hf. split.
    + intros k Hk. cbn [w_fs op_add with_fs]. specialize (Hout (w_fs w) k Hk).
      by rewrite Hf in Hout.
    + exists []. split; [by rewrite app_nil_r|constructor].
Qed.

Lemma confined_logging dir lv m : preserves (confined dir) (logging lv m).
Proof. intros w. split; [done|]. exists []. by rewrite app_nil_r. Qed.

Lemma confined_from_file dir p : preserves (confined dir) (from_file acl_missing p).
Proof.
  apply (preserves_bind (confined dir)); [by apply (preserves_get_fs (confined dir))|].
  intros fs. unfold missing.
  destruct (acl_of fs p), acl_missing;
    by first [apply (preserves_ret (confined dir)) | apply (preserves_raise (confined dir))].
Qed.

Lemma confined_unshare_file dir self target force :
  dir `prefix_of` target →
  preserves (confined dir) (_unshare_file acl_missing self target force).
Proof.
  intros Hpre. set (R := confined dir).
  apply (preserves_bind R); [apply confined_logging|]. intros _.
  apply (preserves_bind R).
  { apply (preserves_if R); [|by apply (preserves_ret R)].
    apply (preserves_bind R).
    { apply (preserves_bind R); [by apply (preserves_get_fs R)|]. intros fs.
      destruct (fs_stat_nlink fs target);
        [by apply (preserves_raise R) | by apply (preserves_ret R)]. }
    intros n. case_decide; [|by apply (preserves_ret R)].
    apply (preserves_bind R); [apply confined_logging|]. intros _.
    by apply (preserves_raise R). }
  intros _.
  apply (preserves_bind R); [apply confined_from_file|]. intros cur.
  apply (preserves_bind R); [apply confined_from_file|]. intros perms.
  apply (preserves_bind R); [apply confined_logging|]. intros _.
  apply (preserves_bind R).
  { apply (preserves_bind R); [by apply (preserves_get_fs R)|]. intros fs.
    destruct (acl_of fs target).
    - apply confined_step; [done|done|]. intros fs' k Hk. cbn [snd].
      by apply nodes_acl_modify_other.
    - unfold missing.
      destruct acl_missing;
        [by apply (preserves_raise R) | by apply (preserves_ret R)]. }
  intros _. apply confined_step; [done|done|]. intros fs k Hk.
  by apply nodes_unlink_other.
Qed.

(** X9. [_unshare_linked_tree], with or without force and however it ends,
    leaves every directory entry that is not at or below its directory
    exactly as it was, and completes only ACL sets, [os.unlink]s and
    [os.rmdir]s, each on a path at or below that directory. *)
Theorem unshare_linked_tree_confined fuel self dir force w :
  confined dir w (_unshare_linked_tree acl_missing fuel self dir force w).2.
Proof.
  revert w. change (preserves (confined dir)
                      (_unshare_linked_tree acl_missing fuel self dir force)).
  set (R := confined dir).
  apply (preserves_bind R); [apply confined_logging|]. intros _.
  apply (preserves_bind R).
  2:{ intros _. apply confined_step; [done|done|]. intros fs k Hk.
      by apply nodes_rmdir_other. }
  apply (preserves_os_walk_bottomup R). intros root dirs nondirs Hroot.
  apply (preserves_bind R); [ |intros _].
  - apply (preserves_for_each R). intros f _.
    apply confined_unshare_file. by apply prefix_of_join.
  - apply (preserves_for_each R). intros d _.
    apply (preserves_bind R); [apply confined_logging|]. intros _.
    apply confined_step; [done|by apply prefix_of_join|]. intros fs k Hk.
    by apply nodes_rmdir_other.
Qed.

(** *** A file shared and un-shared again *)

Lemma listdir_empty fs p :
  (∀ n, n ≠ "" → nodes fs !! (p ++ [n])%list = None) → listdir fs p = [].
Proof.
  intros Hnone. destruct (listdir fs p) as [|[n nd] l] eqn:Hl; [done|].
  assert ((n, nd) ∈ listdir fs p) as Hin by (rewrite Hl; by left).
  apply elem_of_listdir in Hin as [Hn Hk]. by rewrite Hnone in Hk.
Qed.

Lemma NoDup_single {A} (l : list A) x : NoDup l → (∀ y, y ∈ l ↔ y = x) → l = [x].
Proof.
  intros Hnd Hl. destruct l as [|a l].
  - assert (x ∈ []) as Hx by (by apply Hl). by apply not_elem_of_nil in Hx.
  - assert (a = x) as -> by (apply Hl; by left).
    destruct l as [|b l]; [done|].
    assert (b = x) as -> by (apply Hl; right; by left).
    apply NoDup_cons in Hnd as [Hnd _]. destruct Hnd. by left.
Qed.

Lemma list_empty_elem {A} (l : list A) : (∀ y, y ∉ l) → l = [].
Proof. destruct l as [|a l]; [done|]. intros H. destruct (H a). by left. Qed.

(** A directory whose one entry is a regular file. *)
Lemma scandir_single fs p n i :
  fs_isdir fs p = true → n ≠ "" →
  nodes fs !! (p ++ [n])%list = Some (NFile i) →
  (∀ m, m ≠ n → nodes fs !! (p ++ [m])%list = None) →
  scandir fs p = Some ([], [n]).
Proof.
  intros Hd Hn Hk Hother.
  destruct (scandir fs p) as [[dirs nondirs]|] eqn:Hs.
  2:{ unfold scandir in Hs. by rewrite Hd in Hs. }
  apply scandir_Some in Hs as (_ & _ & Hnd & Hdirs & Hfiles).
  f_equal. f_equal.
  - apply list_empty_elem. intros m Hm. apply Hdirs in Hm as [_ [a Ha]].
    destruct (decide (m = n)) as [->|Hne]; [congruence|].
    by rewrite Hother in Ha.
  - apply NoDup_single; [done|]. intros m. rewrite Hfiles. split.
    + intros [_ [j Hj]]. destruct (decide (m = n)) as [|Hne]; [done|].
      by rewrite Hother in Hj.
    + intros ->. eauto.
Qed.

Lemma fs_rmdir_empty p fs a :
  nodes fs !! p = Some (NDir a) → listdir fs p = [] → p ≠ [] →
  fs_rmdir p fs = (None, set_nodes (delete p) fs).
Proof. intros Hp Hl Hne. unfold fs_rmdir. by rewrite Hp, Hl, decide_False. Qed.

Lemma list_difference_app_same {A} `{EqDecision A} (l k : list A) :
  list_difference (l ++ k) k = list_difference l k.
Proof.
  induction l as [|x l IH]; cbn.
  - by apply list_difference_nil.
  - rewrite IH. by destruct (decide_rel elem_of x k).
Qed.

(** X10. One regular file is added to an empty share, and the share is then
    destructed without force.  Both calls end normally on any positive fuel;
    six calls complete in all; the directory entries end as they were but for
    the share directory, which is gone, and the file's inode counts its links
    as before.  Its ACL is not what it was: the lock entries and every entry
    that the share directory's ACL holds have been taken out of it. *)
Theorem add_file_then_self_destruct fuel self d n w i ino perms :
  wf (w_fs w) →
  directory self ≠ [] →
  nodes (w_fs w) !! directory self = Some (NDir perms) →
  listdir (w_fs w) (directory self) = [] →
  nodes (w_fs w) !! (d ++ [n])%list = Some (NFile i) →
  inodes (w_fs w) !! i = Some ino →
  i_linkable ino = true →
  let source := (d ++ [n])%list in
  let target := (directory self ++ [n])%list in
  let shared_acl := (list_difference (i_acl ino) (lock_acl self) ++ perms)%list in
  ∃ w1 w2,
    add acl_missing (S fuel) self [source] w = (Ok tt, w1) ∧
    nodes (w_fs w1) = <[target := NFile i]> (nodes (w_fs w)) ∧
    inodes (w_fs w1) !! i = Some (with_nlink (S (st_nlink ino)) (with_acl shared_acl ino)) ∧
    self_destruct acl_missing (S fuel) self false w1 = (Ok tt, w2) ∧
    nodes (w_fs w2) = delete (directory self) (nodes (w_fs w)) ∧
    inodes (w_fs w2) =
      <[i := with_acl (list_difference (list_difference (i_acl ino) (lock_acl self)) perms)
               ino]> (inodes (w_fs w)) ∧
    w_ops w2 = (w_ops w ++ [EvAclUnset (lock_acl self) source true;
                            EvLink (realpath source) target;
                            EvAclAppend perms target false;
                            EvAclSet (acl_sub shared_acl perms) target;
                            EvUnlink target;
                            EvRmdir (directory self)])%list.
Proof.
  intros Hwf HS Hd Hempty Hf Hi Hl source target shared_acl.
  destruct (wf_parent _ Hwf d n) as [Hn _]; [by eexists|].
  subst source. set (source := (d ++ [n])%list) in *.
  set (dir := directory self) in *.
  pose proof (wf_nlink_pos _ _ _ _ Hwf Hf Hi) as Hpos.
  assert (Ht : nodes (w_fs w) !! target = None) by (by apply listdir_nil).
  assert (Hisf : fs_isfile (w_fs w) source = true) by (unfold fs_isfile; by rewrite Hf).
  assert (Hisd : fs_isdir (w_fs w) source = false) by (unfold fs_isdir; by rewrite Hf).
  assert (Hdd : fs_isdir (w_fs w) dir = true) by (unfold fs_isdir; by rewrite Hd).
  (* add *)
  destruct (link_files_fresh fuel self source target
              (log_add DEBUG (MsgAdding dir [source]) w) i ino perms)
    as (w1 & Hrun1 & Hn1 & Hi1 & _ & Hops1); cbn [w_fs log_add]; try done.
  { unfold target. by rewrite nameless_snoc. }
  { unfold target. by rewrite parent_snoc. }
  cbn [w_fs w_ops log_add] in Hn1, Hi1, Hops1.
  assert (Hadd : add acl_missing (S fuel) self [source] w = (Ok tt, w1)).
  { rewrite add_unfold. cbn zeta. unfold add_handle.
    rewrite !filter_cons, !filter_nil.
    rewrite decide_True by done. rewrite decide_False by congruence.
    rewrite list_difference_nil.
    2:{ intros x Hx. apply elem_of_app. by right. }
    cbn [for_each remove_dups]. unfold source at 2. rewrite basename_snoc.
    rewrite join_snoc by done. fold dir. fold target.
    unfold bind. by rewrite Hrun1. }
  exists w1.
  (* self_destruct *)
  set (ino1 := with_nlink (S (st_nlink ino)) (with_acl shared_acl ino)).
  assert (Hi1' : inodes (w_fs w1) !! i = Some ino1).
  { by rewrite Hi1, lookup_insert_eq. }
  assert (Ht1 : nodes (w_fs w1) !! target = Some (NFile i)).
  { by rewrite Hn1, lookup_insert_eq. }
  assert (Htd : target ≠ dir).
  { intros Heq. rewrite Heq in Ht. congruence. }
  assert (Hd1 : nodes (w_fs w1) !! dir = Some (NDir perms)).
  { by rewrite Hn1, lookup_insert_ne. }
  assert (Hscan : scandir (w_fs w1) dir = Some ([], [n])).
  { apply (scandir_single _ _ _ i); try done.
    - unfold fs_isdir. by rewrite Hd1.
    - intros m Hm. rewrite Hn1, lookup_insert_ne.
      + destruct (decide (m = "")) as [->|Hm'].
        * destruct (nodes (w_fs w) !! (dir ++ [""])%list) eqn:Hk; [|done].
          destruct (wf_parent _ Hwf dir "") as [Hne _]; [by eexists|done].
        * by apply listdir_nil.
      + unfold target. intros Heq. apply app_inv_head in Heq. congruence. }
  set (newp := acl_sub shared_acl perms).
  set (fs2 := acl_modify (λ _, newp) false target (w_fs w1)).
  destruct (acl_modify_file (λ _, newp) target (w_fs w1) i Ht1) as [Hn2 Hi2].
  fold fs2 in Hn2, Hi2.
  assert (Ht2 : nodes fs2 !! target = Some (NFile i)) by (by rewrite Hn2).
  destruct (fs_unlink_spec target fs2 i Ht2) as (fs3 & Hul & Hn3 & _ & Hi3o & Hi3).
  assert (Hd3 : nodes fs3 !! dir = Some (NDir perms)).
  { rewrite Hn3, lookup_delete_ne by done. by rewrite Hn2. }
  assert (Hnodes3 : nodes fs3 = nodes (w_fs w)).
  { rewrite Hn3, Hn2, Hn1. by apply delete_insert_id. }
  assert (Hempty3 : listdir fs3 dir = []).
  { apply listdir_empty. intros m Hm. rewrite Hnodes3. by apply listdir_nil. }
  eexists. split; [exact Hadd|]. split; [exact Hn1|]. split; [exact Hi1'|].
  split.
  { unfold self_destruct, _unshare_linked_tree. fold dir. mstep.
    cbn [os_walk_bottomup]. mstep. rewrite Hscan. cbn [for_each]. mstep.
    rewrite join_snoc by done. fold target.
    erewrite bind_Ok.
    2:{ eapply (unshare_file_removes self target false _ i ino1 perms);
          cbn [w_fs log_add]; try done.
        - right. unfold ino1. cbn.
          pose proof (wf_nlink_pos _ _ _ _ Hwf Hf Hi). lia.
        - unfold acl_of. fold dir. by rewrite Hd1. }
    cbn [w_fs log_add with_fs op_add i_acl ino1 with_nlink with_acl].
    fold newp. fold fs2. rewrite Hul. cbn [snd]. mstep.
    unfold os_rmdir. apply syscall_Ok. cbn [w_fs log_add with_fs op_add].
    by eapply fs_rmdir_empty. }
  cbn [w_fs w_ops log_add with_fs op_add nodes inodes set_nodes]. split_and!.
  - by rewrite Hnodes3.
  - apply map_eq. intros k. destruct (decide (k = i)) as [->|Hne].
    + rewrite Hi3, Hi2, lookup_alter_eq, Hi1', lookup_insert_eq. cbn.
      rewrite decide_False by lia. f_equal. unfold ino1, with_nlink, with_acl. cbn.
      f_equal; [lia|]. unfold newp, shared_acl, acl_sub.
      by rewrite list_difference_app_same.
    + rewrite Hi3o by done. rewrite Hi2, lookup_alter_ne by done.
      rewrite Hi1, !lookup_insert_ne; done.
  - rewrite Hops1. by rewrite <- !app_assoc.
Qed.

(** *** Duplicating a directory tree *)

Lemma duplicate_unfold fuel self source_root :
  _duplicate_as_linked_tree acl_missing fuel self source_root =
    (logging DEBUG (MsgDuplicating (directory self)) ;;;
     _makedir acl_missing self (join (directory self) (basename source_root)) ;;;
     os_walk fuel source_root
       (duplicate_body acl_missing fuel self source_root
          (join (directory self) (basename source_root)))).
Proof. done. Qed.

(** A loop whose body ends normally and re-establishes the invariant ends
    normally, with the invariant for the whole list. *)
Lemma for_each_inv {A} (I : list A → world → Prop) (l : list A) (f : A → M unit) w :
  I [] w →
  (∀ done x rest w1, l = (done ++ x :: rest)%list → I done w1 →
     ∃ w2, f x w1 = (Ok tt, w2) ∧ I (done ++ [x])%list w2) →
  ∃ w', for_each l f w = (Ok tt, w') ∧ I l w'.
Proof.
  intros H0 Hstep.
  assert (Haux : ∀ rest done w1, l = (done ++ rest)%list → I done w1 →
    ∃ w', for_each rest f w1 = (Ok tt, w') ∧ I l w').
  { induction rest as [|x rest IH]; intros done w1 Hl Hd.
    - exists w1. rewrite app_nil_r in Hl. subst done. done.
    - destruct (Hstep done x rest w1 Hl Hd) as (w2 & Hrun & H2).
      destruct (IH (done ++ [x])%list w2) as (w' & Hrest & Hl').
      { by rewrite <- app_assoc. }
      { done. }
      exists w'. split; [|done]. cbn [for_each]. by rewrite (bind_Ok _ _ _ _ _ Hrun). }
  by apply (Haux l [] w).
Qed.

Lemma inodes_kept_refl fs : inodes_kept fs fs.
Proof. intros i ino Hi. eauto. Qed.

Lemma inodes_kept_trans fs1 fs2 fs3 :
  inodes_kept fs1 fs2 → inodes_kept fs2 fs3 → inodes_kept fs1 fs3.
Proof.
  intros H12 H23 i ino Hi. destruct (H12 i ino Hi) as (ino2 & Hi2 & Hl2).
  destruct (H23 i ino2 Hi2) as (ino3 & Hi3 & Hl3). exists ino3. split; congruence.
Qed.

Lemma wf_ancestor fs (p s : path) :
  wf fs → is_Some (nodes fs !! (p ++ s)%list) → fs_isdir fs p = true ∨ s = [].
Proof.
  intros Hwf. induction s as [|n s IH] using rev_ind; intros Hk; [by right|]. left.
  rewrite app_assoc in Hk. destruct (wf_parent _ Hwf _ _ Hk) as [_ Hd].
  destruct IH as [IH| ->].
  - unfold fs_isdir in Hd. destruct (nodes fs !! (p ++ s)%list); [by eexists|done].
  - done.
  - by rewrite app_nil_r in Hd.
Qed.

Lemma wf_below_absent fs (p s : path) :
  wf fs → nodes fs !! p = None → nodes fs !! (p ++ s)%list = None.
Proof.
  intros Hwf Hp. destruct (nodes fs !! (p ++ s)%list) eqn:Hk; [|done].
  destruct (wf_ancestor fs p s Hwf) as [Hd| ->]; [by eexists| |].
  - unfold fs_isdir in Hd. by rewrite Hp in Hd.
  - rewrite app_nil_r in Hk. congruence.
Qed.

(** The first loop of the body: the sub-directories of the mirror. *)
Lemma mirror_subdirs self dst perms dirs w :
  wf (w_fs w) →
  fs_isdir (w_fs w) dst = true →
  nodes (w_fs w) !! directory self = Some (NDir perms) →
  (∀ s, directory self ≠ (dst ++ s)%list) →
  NoDup dirs →
  (∀ d, d ∈ dirs → d ≠ "" ∧ nodes (w_fs w) !! (dst ++ [d])%list = None) →
  ∃ w', for_each dirs (λ subdir, _makedir acl_missing self (join dst subdir)) w
          = (Ok tt, w') ∧
    wf (w_fs w') ∧
    inodes (w_fs w') = inodes (w_fs w) ∧
    (∀ d, d ∈ dirs → nodes (w_fs w') !! (dst ++ [d])%list = Some (NDir perms)) ∧
    (∀ k, (∀ d, d ∈ dirs → k ≠ (dst ++ [d])%list) →
          nodes (w_fs w') !! k = nodes (w_fs w) !! k).
Proof.
  intros Hwf Hdst HS HSd Hnd Hfree.
  apply (for_each_inv (λ done w1,
    wf (w_fs w1) ∧ inodes (w_fs w1) = inodes (w_fs w) ∧
    (∀ d, d ∈ done → nodes (w_fs w1) !! (dst ++ [d])%list = Some (NDir perms)) ∧
    (∀ k, (∀ d, d ∈ done → k ≠ (dst ++ [d])%list) →
          nodes (w_fs w1) !! k = nodes (w_fs w) !! k))).
  { split_and!; try done. intros d Hd. by apply not_elem_of_nil in Hd. }
  intros done x rest w1 Hl (Hwf1 & Hi1 & Hdone & Hframe).
  assert (x ∈ dirs) as Hx by (rewrite Hl; apply elem_of_app; right; by left).
  destruct (Hfree x Hx) as [Hxn Hxfree].
  assert (x ∉ done) as Hxd.
  { rewrite Hl in Hnd. apply NoDup_app in Hnd as (_ & Hnd & _).
    intros Hin. apply (Hnd x Hin). by left. }
  assert (Hother : ∀ d, d ∈ done → ∀ s, (dst ++ [x])%list ≠ (dst ++ [d] ++ s)%list).
  { intros d Hd s Heq. apply app_inv_head in Heq. injection Heq as -> _. done. }
  destruct (makedir_outcomes self dst x w1 perms) as [Hmk _]; try done.
  { unfold fs_isdir in *. rewrite Hframe; [done|].
    intros d _ Heq. apply (f_equal length) in Heq. rewrite length_app in Heq.
    cbn in Heq. lia. }
  { unfold acl_of. rewrite Hframe, HS; [done|]. intros d _. apply HSd. }
  destruct Hmk as (w2 & Hrun & Hn2 & Hi2 & _).
  { rewrite Hframe; [done|]. intros d Hd Heq.
    apply (Hother d Hd []). by rewrite app_nil_r. }
  exists w2. rewrite join_snoc by done. split; [done|]. split_and!.
  - pose proof (respects_makedir keeps_wf self (dst ++ [x])%list w1 Hwf1) as Hk.
    by rewrite Hrun in Hk.
  - congruence.
  - intros d Hd. rewrite Hn2. apply elem_of_app in Hd as [Hd|Hd].
    + rewrite lookup_insert_ne; [by apply Hdone|].
      intros Heq. apply (Hother d Hd []). by rewrite app_nil_r.
    + apply list_elem_of_singleton in Hd as ->. by rewrite lookup_insert_eq.
  - intros k Hk. rewrite Hn2, lookup_insert_ne.
    + apply Hframe. intros d Hd. apply Hk. apply elem_of_app. by left.
    + intros Heq. apply (Hk x); [|done]. apply elem_of_app. right. by left.
Qed.

(** The second loop of the body: the files, hard-linked into the mirror. *)
Lemma mirror_files fuel self src dst perms files w :
  wf (w_fs w) →
  fs_isdir (w_fs w) dst = true →
  nodes (w_fs w) !! directory self = Some (NDir perms) →
  (∀ s, directory self ≠ (dst ++ s)%list) →
  (∀ q s, (src ++ q)%list ≠ (dst ++ s)%list) →
  NoDup files →
  (∀ f, f ∈ files →
     f ≠ "" ∧ nodes (w_fs w) !! (dst ++ [f])%list = None ∧
     ∃ i ino, nodes (w_fs w) !! (src ++ [f])%list = Some (NFile i) ∧
              inodes (w_fs w) !! i = Some ino ∧ i_linkable ino = true) →
  ∃ w', for_each files (λ file,
          _link_files acl_missing (S fuel) self (join src file) (join dst file)) w
          = (Ok tt, w') ∧
    wf (w_fs w') ∧
    inodes_kept (w_fs w) (w_fs w') ∧
    (∀ f, f ∈ files →
       nodes (w_fs w') !! (dst ++ [f])%list = nodes (w_fs w) !! (src ++ [f])%list) ∧
    (∀ k, (∀ f, f ∈ files → k ≠ (dst ++ [f])%list) →
          nodes (w_fs w') !! k = nodes (w_fs w) !! k).
Proof.
  intros Hwf Hdst HS HSd Hdis Hnd Hfiles.
  apply (for_each_inv (λ done w1,
    wf (w_fs w1) ∧ inodes_kept (w_fs w) (w_fs w1) ∧
    (∀ f, f ∈ done →
       nodes (w_fs w1) !! (dst ++ [f])%list = nodes (w_fs w) !! (src ++ [f])%list) ∧
    (∀ k, (∀ f, f ∈ done → k ≠ (dst ++ [f])%list) →
          nodes (w_fs w1) !! k = nodes (w_fs w) !! k))).
  { split_and!; try done; [apply inodes_kept_refl|].
    intros f Hf. by apply not_elem_of_nil in Hf. }
  intros done x rest w1 Hl (Hwf1 & Hk1 & Hdone & Hframe).
  assert (x ∈ files) as Hx by (rewrite Hl; apply elem_of_app; right; by left).
  destruct (Hfiles x Hx) as (Hxn & Hxfree & i & ino & Hsrc & Hino & Hlink).
  assert (x ∉ done) as Hxd.
  { rewrite Hl in Hnd. apply NoDup_app in Hnd as (_ & Hnd & _).
    intros Hin. apply (Hnd x Hin). by left. }
  assert (Hother : ∀ f, f ∈ done → (dst ++ [x])%list ≠ (dst ++ [f])%list).
  { intros f Hf Heq. apply app_inv_head in Heq. injection Heq as ->. done. }
  destruct (Hk1 i ino Hino) as (ino1 & Hino1 & Hlink1).
  destruct (link_files_fresh fuel self (src ++ [x])%list (dst ++ [x])%list w1 i ino1 perms)
    as (w2 & Hrun & Hn2 & Hi2 & _ & _); try done.
  { by rewrite nameless_snoc. }
  { rewrite Hframe; [done|]. intros f _. apply Hdis. }
  { congruence. }
  { rewrite Hframe; [done|]. intros f Hf. by apply Hother. }
  { rewrite parent_snoc. unfold fs_isdir in *. rewrite Hframe; [done|].
    intros f _ Heq. apply (f_equal length) in Heq. rewrite length_app in Heq.
    cbn in Heq. lia. }
  { rewrite Hframe; [done|]. intros f _. apply HSd. }
  exists w2. rewrite !join_snoc by done. split; [done|]. split_and!.
  - pose proof (respects_link_files keeps_wf (S fuel) self (src ++ [x])%list
                  (dst ++ [x])%list w1 Hwf1) as Hk.
    by rewrite Hrun in Hk.
  - eapply inodes_kept_trans; [exact Hk1|].
    intros j inoj Hj. rewrite Hi2. destruct (decide (j = i)) as [->|Hne].
    + rewrite lookup_insert_eq. eexists. split; [done|]. cbn. congruence.
    + rewrite lookup_insert_ne by done. eauto.
  - intros f Hf. rewrite Hn2. apply elem_of_app in Hf as [Hf|Hf].
    + rewrite lookup_insert_ne; [by apply Hdone|]. by apply Hother.
    + apply list_elem_of_singleton in Hf as ->. by rewrite lookup_insert_eq.
  - intros k Hk. rewrite Hn2, lookup_insert_ne.
    + apply Hframe. intros f Hf. apply Hk. apply elem_of_app. by left.
    + intros Heq. apply (Hk x); [|done]. apply elem_of_app. right. by left.
Qed.

Lemma path_snoc_app (p r : path) x s :
  ((p ++ (r ++ [x])) ++ s)%list = ((p ++ r) ++ x :: s)%list.
Proof. by rewrite <- !app_assoc. Qed.

Lemma path_cons_ne (p : path) x s y : s ≠ [] → (p ++ [y])%list ≠ (p ++ x :: s)%list.
Proof. intros Hs Heq. apply app_inv_head in Heq. injection Heq as _ <-. done. Qed.

Section mirror.
Variables (self : Share) (X M : path) (perms : AccessControlList) (F : nat).
Hypothesis HXM : ∀ q s, (X ++ q)%list ≠ (M ++ s)%list.
Hypothesis HSM : ∀ s, directory self ≠ (M ++ s)%list.

(** The walk from a directory of the source tree whose mirror is ready
    ends normally and leaves the tree below it mirrored. *)
Lemma walk_mirrors fuel : ∀ r w,
  mirror_ready self perms fuel (X ++ r) (M ++ r) (w_fs w) →
  ∃ w', os_walk fuel (X ++ r) (duplicate_body acl_missing (S F) self X M) w = (Ok tt, w') ∧
        mirrored perms (X ++ r) (M ++ r) (w_fs w) (w_fs w').
Proof.
  induction fuel as [|fuel IH]; intros r w (Hwf & Hsrc & Hdst & Hbelow & HS & Hlk & Hfuel).
  { exfalso. specialize (Hfuel []). rewrite app_nil_r in Hfuel.
    unfold fs_isdir in Hsrc. destruct (nodes (w_fs w) !! (X ++ r)%list) eqn:Hk; [|done].
    assert (length (@nil string) < 0)%nat by (apply Hfuel; eauto). cbn in *. lia. }
  assert (Hdis : ∀ q s, ((X ++ r) ++ q)%list ≠ ((M ++ r) ++ s)%list).
  { intros q s. rewrite <- !app_assoc. apply HXM. }
  assert (HSd : ∀ s, directory self ≠ ((M ++ r) ++ s)%list).
  { intros s. rewrite <- app_assoc. apply HSM. }
  set (src := (X ++ r)%list) in *. set (dst := (M ++ r)%list) in *.
  cbn [os_walk]. mstep.
  destruct (scandir (w_fs w) src) as [[dirs nondirs]|] eqn:Hs.
  2:{ unfold scandir in Hs. by rewrite Hsrc in Hs. }
  apply scandir_Some in Hs as (_ & Hnd_d & Hnd_f & Hdirs & Hfiles).
  assert (Hrr : replace_root X M src = dst) by apply replace_root_app.
  unfold duplicate_body at 1. cbn zeta. rewrite !Hrr. rewrite bind_bind.
  (* the sub-directories *)
  destruct (mirror_subdirs self dst perms dirs w) as (wA & HrunA & HwfA & HiA & HdA & HfA);
    try done.
  { intros d Hd. apply Hdirs in Hd as [Hd _]. split; [done|]. by apply Hbelow. }
  rewrite (bind_Ok _ _ _ _ _ HrunA). cbn beta.
  assert (HsrcA : ∀ q, nodes (w_fs wA) !! (src ++ q)%list = nodes (w_fs w) !! (src ++ q)%list).
  { intros q. apply HfA. intros d _. apply Hdis. }
  (* the files *)
  destruct (mirror_files F self src dst perms nondirs wA)
    as (wB & HrunB & HwfB & HkB & HdB & HfB); try done.
  { unfold fs_isdir in *. rewrite HfA; [done|]. intros d _ Heq.
    apply (f_equal length) in Heq. rewrite length_app in Heq. cbn in Heq. lia. }
  { rewrite HfA; [done|]. intros d _. apply HSd. }
  { intros f Hf. apply Hfiles in Hf as [Hfn [i Hi]]. split; [done|]. split.
    - rewrite HfA.
      + by apply Hbelow.
      + intros d Hd Heq. apply app_inv_head in Heq. injection Heq as ->.
        apply Hdirs in Hd as [_ [a Ha]]. congruence.
    - destruct (wf_inode _ Hwf _ _ Hi) as [ino Hino].
      exists i, ino. rewrite HsrcA, HiA. split_and!; try done.
      by apply (Hlk [f] i ino). }
  rewrite (bind_Ok _ _ _ _ _ HrunB). cbn beta.
  assert (HsrcB : ∀ q, nodes (w_fs wB) !! (src ++ q)%list = nodes (w_fs w) !! (src ++ q)%list).
  { intros q. rewrite HfB; [apply HsrcA|]. intros f _. apply Hdis. }
  assert (HbelowB : ∀ d s, s ≠ [] → nodes (w_fs wB) !! (dst ++ d :: s)%list = None).
  { intros d s Hs. rewrite HfB, HfA.
    - by apply Hbelow.
    - intros d' _ Heq. symmetry in Heq. by apply path_cons_ne in Heq.
    - intros f _ Heq. symmetry in Heq. by apply path_cons_ne in Heq. }
  assert (HdirB : ∀ d, d ∈ dirs → nodes (w_fs wB) !! (dst ++ [d])%list = Some (NDir perms)).
  { intros d Hd. rewrite HfB; [by apply HdA|].
    intros f Hf Heq. apply app_inv_head in Heq. injection Heq as ->.
    apply Hdirs in Hd as [_ [a Ha]]. apply Hfiles in Hf as [_ [i Hi]]. congruence. }
  assert (HSB : nodes (w_fs wB) !! directory self = Some (NDir perms)).
  { rewrite HfB, HfA; [done| |]; intros n _; apply HSd. }
  assert (HkwB : inodes_kept (w_fs w) (w_fs wB)).
  { intros i ino Hi. apply HkB. by rewrite HiA. }
  (* the walks of the sub-directories *)
  destruct (for_each_inv (λ done w1,
      wf (w_fs w1) ∧ inodes_kept (w_fs wB) (w_fs w1) ∧
      (∀ d s, d ∈ done → s ≠ [] →
         nodes (w_fs w1) !! (dst ++ d :: s)%list
           = mirror_node perms <$> nodes (w_fs wB) !! (src ++ d :: s)%list) ∧
      (∀ k, (∀ d s, d ∈ done → s ≠ [] → k ≠ (dst ++ d :: s)%list) →
            nodes (w_fs w1) !! k = nodes (w_fs wB) !! k))
    dirs (λ d, os_walk fuel (join src d) (duplicate_body acl_missing (S F) self X M)) wB)
    as (wC & HrunC & HwfC & HkC & HmC & HfC).
  { split_and!; try done; [apply inodes_kept_refl|].
    intros d s Hd. by apply not_elem_of_nil in Hd. }
  { intros done x rest w1 Hl (Hwf1 & Hk1 & Hm1 & Hf1).
    assert (x ∈ dirs) as Hx by (rewrite Hl; apply elem_of_app; right; by left).
    assert (x ∉ done) as Hxd.
    { rewrite Hl in Hnd_d. apply NoDup_app in Hnd_d as (_ & Hnd & _).
      intros Hin. apply (Hnd x Hin). by left. }
    destruct (proj1 (Hdirs x) Hx) as [Hxn [a Hxa]].
    assert (Hsrc1 : ∀ q, nodes (w_fs w1) !! (src ++ q)%list
                         = nodes (w_fs w) !! (src ++ q)%list).
    { intros q. rewrite Hf1; [apply HsrcB|]. intros d s _ _. apply Hdis. }
    assert (Hbelow1 : ∀ s, s ≠ [] → nodes (w_fs w1) !! (dst ++ x :: s)%list = None).
    { intros s Hs. rewrite Hf1; [by apply HbelowB|].
      intros d s' Hd _ Heq. apply app_inv_head in Heq. injection Heq as -> _. done. }
    rewrite join_snoc by done.
    destruct (IH (r ++ [x])%list w1) as (w2 & Hrun2 & Hwf2 & Hm2 & Hf2 & Hk2).
    { rewrite !(app_assoc _ r [x]). fold src. fold dst. split_and!.
      - done.
      - unfold fs_isdir. by rewrite Hsrc1, Hxa.
      - unfold fs_isdir. rewrite Hf1, HdirB; [done|done|].
        intros d s _ Hs. by apply path_cons_ne.
      - intros s Hs. rewrite <- app_assoc. by apply Hbelow1.
      - rewrite Hf1; [done|]. intros d s _ _. apply HSd.
      - intros s i ino Hi Hino. rewrite <- app_assoc in Hi. rewrite Hsrc1 in Hi.
        destruct (wf_inode _ Hwf _ _ Hi) as [ino0 Hino0].
        destruct (HkwB i ino0 Hino0) as (inoB & HinoB & HlB).
        destruct (Hk1 i inoB HinoB) as (ino1 & Hino1 & Hl1).
        assert (ino = ino1) as -> by congruence.
        rewrite Hl1, HlB. by apply (Hlk ([x] ++ s)%list i ino0).
      - intros s Hs. rewrite <- app_assoc in Hs. rewrite Hsrc1 in Hs.
        apply Hfuel in Hs. rewrite length_app in Hs. cbn in Hs. lia. }
    rewrite (app_assoc X r [x]) in Hrun2, Hm2. rewrite (app_assoc M r [x]) in Hm2, Hf2.
    fold src in Hrun2, Hm2. fold dst in Hm2, Hf2.
    exists w2. split; [exact Hrun2|]. split_and!.
    - done.
    - by eapply inodes_kept_trans.
    - intros d s Hd Hs. apply elem_of_app in Hd as [Hd|Hd].
      + rewrite Hf2; [by apply Hm1|].
        intros s' _ Heq. rewrite <- app_assoc in Heq. apply app_inv_head in Heq.
        injection Heq as -> _. done.
      + apply list_elem_of_singleton in Hd as ->.
        specialize (Hm2 s Hs). rewrite <- !app_assoc in Hm2. cbn in Hm2.
        rewrite Hm2. by rewrite Hsrc1, HsrcB.
    - intros k Hk. rewrite Hf2.
      + apply Hf1. intros d s Hd Hs. apply Hk; [|done]. apply elem_of_app. by left.
      + intros s Hs Heq. rewrite <- app_assoc in Heq.
        apply (Hk x s); [|done|done]. apply elem_of_app. right. by left. }
  exists wC. split; [exact HrunC|]. split_and!.
  - done.
  - intros s Hs. destruct s as [|d s]; [done|]. clear Hs.
    destruct (decide (s = [])) as [->|Hs].
    + rewrite HfC by (intros d' s' _ Hs'; by apply path_cons_ne).
      destruct (nodes (w_fs w) !! (src ++ [d])%list) as [[a|i]|] eqn:Hk.
      * assert (d ∈ dirs) as Hd.
        { apply Hdirs. split; [|eauto].
          destruct (wf_parent _ Hwf src d) as [Hn _]; [by eexists|done]. }
        by rewrite HdirB.
      * assert (d ∈ nondirs) as Hd.
        { apply Hfiles. split; [|eauto].
          destruct (wf_parent _ Hwf src d) as [Hn _]; [by eexists|done]. }
        by rewrite HdB, HsrcA, Hk.
      * rewrite HfB, HfA.
        -- cbn. apply Hbelow. done.
        -- intros d' Hd' Heq. apply app_inv_head in Heq. injection Heq as ->.
           apply Hdirs in Hd' as [_ [a Ha]]. congruence.
        -- intros f Hf Heq. apply app_inv_head in Heq. injection Heq as ->.
           apply Hfiles in Hf as [_ [i Hi]]. congruence.
    + destruct (decide (d ∈ dirs)) as [Hd|Hd].
      * rewrite HmC by done. by rewrite HsrcB.
      * rewrite HfC.
        2:{ intros d' s' Hd' _ Heq. apply app_inv_head in Heq. injection Heq as -> _. done. }
        rewrite HbelowB by done.
        destruct (nodes (w_fs w) !! (src ++ d :: s)%list) eqn:Hk; [|done].
        exfalso. apply Hd.
        assert (is_Some (nodes (w_fs w) !! ((src ++ [d]) ++ s)%list)) as Hsome.
        { rewrite <- app_assoc. by eexists. }
        destruct (wf_ancestor (w_fs w) (src ++ [d])%list s Hwf Hsome) as [Hdir|?]; [|done].
        unfold fs_isdir in Hdir.
        destruct (nodes (w_fs w) !! (src ++ [d])%list) as [[a|i]|] eqn:Hkd; try done.
        apply Hdirs. split; [|eauto].
        destruct (wf_parent _ Hwf src d) as [Hn _]; [by eexists|done].
  - intros k Hk. rewrite HfC, HfB, HfA.
    + done.
    + intros d _. by apply Hk.
    + intros f _. by apply Hk.
    + intros d s _ _. by apply Hk.
  - by eapply inodes_kept_trans.
Qed.

End mirror.

Lemma mirror_apart fs (S X : path) b :
  wf fs → is_Some (nodes fs !! X) → nodes fs !! (S ++ [b])%list = None →
  ¬ X `prefix_of` S →
  ∀ q s, (X ++ q)%list ≠ ((S ++ [b]) ++ s)%list.
Proof.
  intros Hwf HX HM HXS q s Heq.
  destruct (prefix_weak_total X (S ++ [b])%list (X ++ q)%list) as [[t Ht]|[t Ht]].
  - by apply prefix_app_r.
  - rewrite Heq. by apply prefix_app_r.
  - destruct t as [|c t _] using rev_ind.
    + rewrite app_nil_r in Ht. rewrite <- Ht, HM in HX. by destruct HX.
    + rewrite app_assoc in Ht. apply app_inj_tail in Ht as [-> _].
      apply HXS. by apply prefix_app_r.
  - rewrite Ht, (wf_below_absent fs _ t Hwf HM) in HX. by destruct HX.
Qed.

Lemma snoc_not_self (S : path) b s : S ≠ ((S ++ [b]) ++ s)%list.
Proof.
  intros Heq. apply (f_equal length) in Heq. rewrite !length_app in Heq.
  cbn in Heq. lia.
Qed.

Lemma duplicate_mirrors_run fuel self X w perms :
  wf (w_fs w) →
  nodes (w_fs w) !! directory self = Some (NDir perms) →
  fs_isdir (w_fs w) X = true →
  basename X ≠ "" →
  nodes (w_fs w) !! (directory self ++ [basename X])%list = None →
  ¬ X `prefix_of` directory self →
  (∀ s i ino, nodes (w_fs w) !! (X ++ s)%list = Some (NFile i) →
              inodes (w_fs w) !! i = Some ino → i_linkable ino = true) →
  (∀ s, is_Some (nodes (w_fs w) !! (X ++ s)%list) → (length s < fuel)%nat) →
  ∃ w', _duplicate_as_linked_tree acl_missing fuel self X w = (Ok tt, w') ∧
    wf (w_fs w') ∧
    holds_mirror perms X (directory self ++ [basename X]) (w_fs w) (w_fs w') ∧
    inodes_kept (w_fs w) (w_fs w').
Proof.
  intros Hwf HS HX Hb HM HXS Hlk Hfuel.
  set (dir := directory self) in *. set (b := basename X) in *.
  set (mirror := (dir ++ [b])%list) in *.
  assert (HXsome : is_Some (nodes (w_fs w) !! X)).
  { unfold fs_isdir in HX. destruct (nodes (w_fs w) !! X); [by eexists|done]. }
  destruct fuel as [|F].
  { exfalso. specialize (Hfuel []). rewrite app_nil_r in Hfuel.
    specialize (Hfuel HXsome). cbn in Hfuel. lia. }
  pose proof (mirror_apart _ dir X b Hwf HXsome HM HXS) as HXM. fold mirror in HXM.
  assert (HSM : ∀ s, dir ≠ (mirror ++ s)%list) by apply snoc_not_self.
  assert (HXne : X ≠ mirror).
  { intros Heq. specialize (HXM [] []). rewrite !app_nil_r in HXM. done. }
  rewrite duplicate_unfold. fold dir b. rewrite join_snoc by done. fold mirror. mstep.
  destruct (makedir_outcomes self dir b
              (log_add DEBUG (MsgDuplicating dir) w) perms) as [Hmk _];
    cbn [w_fs log_add]; try done.
  { unfold fs_isdir. by rewrite HS. }
  { unfold acl_of. fold dir. by rewrite HS. }
  destruct Hmk as (w1 & Hrun1 & Hn1 & Hi1 & _); [done|].
  fold mirror in Hrun1, Hn1. cbn [w_fs log_add] in Hn1, Hi1.
  rewrite (bind_Ok _ _ _ _ _ Hrun1). cbn beta.
  assert (Hwf1 : wf (w_fs w1)).
  { pose proof (respects_makedir keeps_wf self mirror
                  (log_add DEBUG (MsgDuplicating dir) w) Hwf) as Hk.
    by rewrite Hrun1 in Hk. }
  assert (Hsrc1 : ∀ q, nodes (w_fs w1) !! (X ++ q)%list = nodes (w_fs w) !! (X ++ q)%list).
  { intros q. rewrite Hn1, lookup_insert_ne; [done|].
    intros Heq. apply (HXM q []). by rewrite app_nil_r. }
  destruct (walk_mirrors self X mirror perms F HXM HSM (S F) [] w1)
    as (w' & Hrun & Hwf' & Hm & Hf & Hk).
  { rewrite !app_nil_r. split_and!.
    - done.
    - unfold fs_isdir in *. specialize (Hsrc1 []). rewrite app_nil_r in Hsrc1.
      by rewrite Hsrc1.
    - unfold fs_isdir. by rewrite Hn1, lookup_insert_eq.
    - intros s Hs. rewrite Hn1, lookup_insert_ne.
      + by apply wf_below_absent.
      + intros Heq. apply (f_equal length) in Heq. rewrite length_app in Heq.
        destruct s; [done|]. cbn in Heq. lia.
    - rewrite Hn1, lookup_insert_ne; [done|].
      intros Heq. apply (HSM []). by rewrite app_nil_r.
    - intros s i ino Hi Hino. rewrite Hsrc1 in Hi. rewrite Hi1 in Hino. eauto.
    - intros s Hs. rewrite Hsrc1 in Hs. by apply Hfuel. }
  rewrite (app_nil_r X) in Hrun, Hm. rewrite (app_nil_r mirror) in Hm, Hf.
  exists w'. split; [exact Hrun|]. split; [done|]. split.
  2:{ intros i ino Hi. apply Hk. by rewrite Hi1. }
  intros k. destruct (strip_prefix mirror k) as [s|] eqn:Hsp.
  - apply strip_prefix_Some in Hsp as ->. destruct (decide (s = [])) as [->|Hs].
    + rewrite !app_nil_r. rewrite Hf.
      * rewrite Hn1, lookup_insert_eq. unfold fs_isdir in HX.
        by destruct (nodes (w_fs w) !! X) as [[a|i]|].
      * intros s Hs Heq. apply (f_equal length) in Heq. rewrite length_app in Heq.
        destruct s; [done|]. cbn in Heq. lia.
    + rewrite Hm by done. by rewrite Hsrc1.
  - rewrite Hf.
    + rewrite Hn1, lookup_insert_ne; [done|].
      intros <-. by rewrite (proj2 (strip_prefix_Some mirror mirror [])) in Hsp
        by (by rewrite app_nil_r).
    + intros s _ ->. by rewrite strip_prefix_app in Hsp.
Qed.

(** X11. Duplicating a directory tree into a share.  On a well-formed file
    system where the share directory exists, the name of the source directory
    is free in it, the share does not lie inside the source tree, every file
    of the tree may be hard-linked and the fuel exceeds the depth of the
    tree: [_duplicate_as_linked_tree] ends normally, and so does [add] on the
    source directory alone.  Afterwards the share holds, under the name of
    the source directory, an exact mirror of the tree: a directory with the
    ACL of the share directory for every directory, the same file (inode)
    for every file, nothing else; every other directory entry is as it
    was. *)
Theorem duplicate_mirrors fuel self X w perms :
  wf (w_fs w) →
  nodes (w_fs w) !! directory self = Some (NDir perms) →
  fs_isdir (w_fs w) X = true →
  basename X ≠ "" →
  nodes (w_fs w) !! (directory self ++ [basename X])%list = None →
  ¬ X `prefix_of` directory self →
  (∀ s i ino, nodes (w_fs w) !! (X ++ s)%list = Some (NFile i) →
              inodes (w_fs w) !! i = Some ino → i_linkable ino = true) →
  (∀ s, is_Some (nodes (w_fs w) !! (X ++ s)%list) → (length s < fuel)%nat) →
  (∃ w', _duplicate_as_linked_tree acl_missing fuel self X w = (Ok tt, w') ∧
     wf (w_fs w') ∧
     holds_mirror perms X (directory self ++ [basename X]) (w_fs w) (w_fs w')) ∧
  (∃ w', add acl_missing fuel self [X] w = (Ok tt, w') ∧
     wf (w_fs w') ∧
     holds_mirror perms X (directory self ++ [basename X]) (w_fs w) (w_fs w')).
Proof.
  intros Hwf HS HX Hb HM HXS Hlk Hfuel. split.
  - destruct (duplicate_mirrors_run fuel self X w perms)
      as (w' & Hrun & Hwf' & Hm & _); try done.
    by exists w'.
  - destruct (duplicate_mirrors_run fuel self X
                (log_add DEBUG (MsgAdding (directory self) [X]) w) perms)
      as (w' & Hrun & Hwf' & Hm & _); try done.
    exists w'. split; [|done].
    rewrite add_unfold. cbn zeta. unfold add_handle.
    assert (Hnf : fs_isfile (w_fs w) X = false).
    { unfold fs_isdir in HX. unfold fs_isfile.
      by destruct (nodes (w_fs w) !! X) as [[a|i]|]. }
    rewrite !filter_cons, !filter_nil.
    rewrite decide_False by congruence. rewrite decide_True by done.
    rewrite list_difference_nil.
    2:{ intros x Hx. apply elem_of_app. by left. }
    cbn [for_each remove_dups]. mstep.
    unfold bind at 1. erewrite try_except_Ok by exact Hrun. done.
Qed.

(** The last two hypotheses of [duplicate_mirrors] in a form that can be
    checked on a given file system. *)
Lemma linkable_of_check fs (X : path) :
  bool_decide (map_Forall (λ _ ino, i_linkable ino = true) (inodes fs)) = true →
  ∀ s i ino, nodes fs !! (X ++ s)%list = Some (NFile i) →
             inodes fs !! i = Some ino → i_linkable ino = true.
Proof.
  intros H s i ino _ Hino. apply bool_decide_eq_true in H. by apply (H i ino).
Qed.

Lemma depth_of_check fs (X : path) fuel :
  bool_decide (map_Forall (λ (k : path) _, (length k < fuel)%nat) (nodes fs)) = true →
  ∀ s, is_Some (nodes fs !! (X ++ s)%list) → (length s < fuel)%nat.
Proof.
  intros H s [nd Hk]. apply bool_decide_eq_true in H.
  specialize (H _ _ Hk). cbn in H. rewrite length_app in H. lia.
Qed.

(** *** Un-sharing a directory tree *)

Lemma unshare_linked_tree_unfold fuel self dir force :
  _unshare_linked_tree acl_missing fuel self dir force =
    (logging DEBUG (MsgUnsharingTree (directory self)) ;;;
     os_walk_bottomup fuel dir (unshare_body acl_missing self force) ;;;
     os_rmdir dir).
Proof. done. Qed.

(** Two entries of one inode make its link count at least two. *)
Lemma wf_nlink_two fs (p q : path) i ino :
  wf fs → p ≠ q →
  nodes fs !! p = Some (NFile i) → nodes fs !! q = Some (NFile i) →
  inodes fs !! i = Some ino → (2 ≤ st_nlink ino)%nat.
Proof.
  intros Hwf Hpq Hp Hq Hi. rewrite (wf_nlink fs Hwf i ino Hi).
  assert (Hsub : ({[p := NFile i; q := NFile i]} : gmap path node) ⊆ links_to fs i).
  { apply map_subseteq_spec. intros k v Hk. apply links_to_lookup.
    apply lookup_insert_Some in Hk as [[<- <-]|[_ Hk]]; [done|].
    apply lookup_singleton_Some in Hk as [<- <-]. done. }
  apply map_subseteq_size in Hsub.
  rewrite map_size_insert_None, map_size_singleton in Hsub; [lia|].
  by rewrite lookup_singleton_ne.
Qed.

(** The loop over the files of a directory: each is un-shared. *)
Lemma unshare_files self perms force dir top files w :
  wf (w_fs w) →
  nodes (w_fs w) !! directory self = Some (NDir perms) →
  (force = true ∨ linked_outside dir (w_fs w)) →
  dir `prefix_of` top →
  NoDup files →
  (∀ f, f ∈ files → f ≠ "" ∧ ∃ i, nodes (w_fs w) !! (top ++ [f])%list = Some (NFile i)) →
  ∃ w', for_each files (λ shared_file,
          _unshare_file acl_missing self (join top shared_file) force) w = (Ok tt, w') ∧
    wf (w_fs w') ∧
    (∀ f, f ∈ files → nodes (w_fs w') !! (top ++ [f])%list = None) ∧
    (∀ k, (∀ f, f ∈ files → k ≠ (top ++ [f])%list) →
          nodes (w_fs w') !! k = nodes (w_fs w) !! k) ∧
    (linked_outside dir (w_fs w) → inodes_kept (w_fs w) (w_fs w')).
Proof.
  intros Hwf HS Hguard Hpre Hnd Hfiles.
  apply (for_each_inv (λ done w1,
    wf (w_fs w1) ∧
    (∀ f, f ∈ done → nodes (w_fs w1) !! (top ++ [f])%list = None) ∧
    (∀ k, (∀ f, f ∈ done → k ≠ (top ++ [f])%list) →
          nodes (w_fs w1) !! k = nodes (w_fs w) !! k) ∧
    (linked_outside dir (w_fs w) → inodes_kept (w_fs w) (w_fs w1)))).
  { split_and!; try done.
    - intros f Hf. by apply not_elem_of_nil in Hf.
    - intros _. apply inodes_kept_refl. }
  intros done x rest w1 Hl (Hwf1 & Hgone & Hframe & Hkept).
  assert (x ∈ files) as Hx by (rewrite Hl; apply elem_of_app; right; by left).
  destruct (Hfiles x Hx) as (Hxn & i & Hxi).
  assert (x ∉ done) as Hxd.
  { rewrite Hl in Hnd. apply NoDup_app in Hnd as (_ & Hnd & _).
    intros Hin. apply (Hnd x Hin). by left. }
  assert (Hother : ∀ f, f ∈ done → (top ++ [x])%list ≠ (top ++ [f])%list).
  { intros f Hf Heq. apply app_inv_head in Heq. injection Heq as ->. done. }
  assert (Hx1 : nodes (w_fs w1) !! (top ++ [x])%list = Some (NFile i)).
  { rewrite Hframe; [done|]. intros f Hf. by apply Hother. }
  destruct (wf_inode _ Hwf1 _ _ Hx1) as [ino Hino].
  assert (HS1 : nodes (w_fs w1) !! directory self = Some (NDir perms)).
  { rewrite Hframe; [done|]. intros f Hf Heq.
    assert (f ∈ files) as Hff by (rewrite Hl; apply elem_of_app; by left).
    destruct (Hfiles f Hff) as (_ & j & Hfj). congruence. }
  assert (Hout1 : linked_outside dir (w_fs w) → (2 ≤ st_nlink ino)%nat).
  { intros Hout. destruct Hpre as [r ->].
    destruct (Hout (r ++ [x])%list i) as (k & Hk & Hki).
    { by rewrite app_assoc. }
    apply (wf_nlink_two (w_fs w1) ((dir ++ r) ++ [x])%list k i ino); try done.
    - intros <-. apply Hk. rewrite <- app_assoc. by apply prefix_app_r.
    - rewrite Hframe; [done|]. intros f _ ->. apply Hk.
      rewrite <- app_assoc. by apply prefix_app_r. }
  set (newp := acl_sub (i_acl ino) perms).
  set (fs2 := acl_modify (λ _, newp) false (top ++ [x])%list (w_fs w1)).
  pose proof (unshare_file_removes self (top ++ [x])%list force w1 i ino perms Hx1 Hino)
    as Hrun.
  cbn zeta in Hrun. fold newp fs2 in Hrun.
  destruct (acl_modify_file (λ _, newp) (top ++ [x])%list (w_fs w1) i Hx1) as [Hn2 Hi2].
  fold fs2 in Hn2, Hi2.
  assert (Hx2 : nodes fs2 !! (top ++ [x])%list = Some (NFile i)) by (by rewrite Hn2).
  destruct (fs_unlink_spec (top ++ [x])%list fs2 i Hx2) as (fs3 & Hul & Hn3 & _ & Hi3o & Hi3).
  rewrite Hul in Hrun. cbn [snd] in Hrun.
  eexists. rewrite join_snoc by done. split.
  { apply Hrun.
    - destruct Hguard as [->|Hout]; [by left|]. right.
      specialize (Hout1 Hout). lia.
    - unfold acl_of. by rewrite HS1. }
  cbn [w_fs with_fs op_add log_add]. split_and!.
  - pose proof (respects_unshare_file keeps_wf self (top ++ [x])%list force w1 Hwf1) as Hk.
    rewrite Hrun in Hk; [done| |].
    + destruct Hguard as [->|Hout]; [by left|]. right.
      specialize (Hout1 Hout). lia.
    + unfold acl_of. by rewrite HS1.
  - intros f Hf. rewrite Hn3, Hn2. apply elem_of_app in Hf as [Hf|Hf].
    + rewrite lookup_delete_ne; [by apply Hgone|]. by apply Hother.
    + apply list_elem_of_singleton in Hf as ->. by rewrite lookup_delete_eq.
  - intros k Hk. rewrite Hn3, Hn2, lookup_delete_ne.
    + apply Hframe. intros f Hf. apply Hk. apply elem_of_app. by left.
    + intros Heq. apply (Hk x); [|done]. apply elem_of_app. right. by left.
  - intros Hout. eapply inodes_kept_trans; [by apply Hkept|].
    specialize (Hout1 Hout).
    intros j inoj Hj. destruct (decide (j = i)) as [->|Hne].
    + rewrite Hi3, Hi2, lookup_alter_eq, Hj. cbn.
      assert (inoj = ino) as -> by congruence.
      rewrite decide_False by lia. eexists. split; [done|]. done.
    + rewrite Hi3o by done. rewrite Hi2, lookup_alter_ne by done. eauto.
Qed.

(** The loop over the sub-directories of a directory, each of them empty by
    then: each is removed. *)
Lemma unshare_dirs top dirs w :
  wf (w_fs w) →
  NoDup dirs →
  (∀ d, d ∈ dirs →
     d ≠ "" ∧ fs_isdir (w_fs w) (top ++ [d])%list = true ∧
     ∀ s, s ≠ [] → nodes (w_fs w) !! (top ++ d :: s)%list = None) →
  ∃ w', for_each dirs (λ sub_dir, _unshare_dir (join top sub_dir)) w = (Ok tt, w') ∧
    wf (w_fs w') ∧
    inodes (w_fs w') = inodes (w_fs w) ∧
    (∀ d, d ∈ dirs → nodes (w_fs w') !! (top ++ [d])%list = None) ∧
    (∀ k, (∀ d, d ∈ dirs → k ≠ (top ++ [d])%list) →
          nodes (w_fs w') !! k = nodes (w_fs w) !! k).
Proof.
  intros Hwf Hnd Hdirs.
  apply (for_each_inv (λ done w1,
    wf (w_fs w1) ∧ inodes (w_fs w1) = inodes (w_fs w) ∧
    (∀ d, d ∈ done → nodes (w_fs w1) !! (top ++ [d])%list = None) ∧
    (∀ k, (∀ d, d ∈ done → k ≠ (top ++ [d])%list) →
          nodes (w_fs w1) !! k = nodes (w_fs w) !! k))).
  { split_and!; try done. intros d Hd. by apply not_elem_of_nil in Hd. }
  intros done x rest w1 Hl (Hwf1 & Hi1 & Hgone & Hframe).
  assert (x ∈ dirs) as Hx by (rewrite Hl; apply elem_of_app; right; by left).
  destruct (Hdirs x Hx) as (Hxn & Hxd & Hxe).
  assert (x ∉ done) as Hxnd.
  { rewrite Hl in Hnd. apply NoDup_app in Hnd as (_ & Hnd & _).
    intros Hin. apply (Hnd x Hin). by left. }
  assert (Hother : ∀ d, d ∈ done → (top ++ [x])%list ≠ (top ++ [d])%list).
  { intros d Hd Heq. apply app_inv_head in Heq. injection Heq as ->. done. }
  unfold fs_isdir in Hxd.
  destruct (nodes (w_fs w) !! (top ++ [x])%list) as [[a|i]|] eqn:Hxa; try done.
  assert (Hrm : fs_rmdir (top ++ [x])%list (w_fs w1)
                = (None, set_nodes (delete (top ++ [x])%list) (w_fs w1))).
  { apply (fs_rmdir_empty _ _ a).
    - rewrite Hframe; [done|]. intros d Hd. by apply Hother.
    - apply listdir_empty. intros n Hn. rewrite <- app_assoc. cbn.
      rewrite Hframe; [by apply Hxe|].
      intros d _ Heq. apply app_inv_head in Heq. done.
    - by destruct top. }
  eexists. rewrite join_snoc by done. split.
  { unfold _unshare_dir. mstep. unfold os_rmdir. apply syscall_Ok. exact Hrm. }
  cbn [w_fs with_fs op_add log_add nodes inodes set_nodes]. split_and!.
  - pose proof (wf_rmdir_any (top ++ [x])%list (w_fs w1) Hwf1) as Hk.
    by rewrite Hrm in Hk.
  - done.
  - intros d Hd. apply elem_of_app in Hd as [Hd|Hd].
    + rewrite lookup_delete_ne; [by apply Hgone|]. by apply Hother.
    + apply list_elem_of_singleton in Hd as ->. by rewrite lookup_delete_eq.
  - intros k Hk. rewrite lookup_delete_ne.
    + apply Hframe. intros d Hd. apply Hk. apply elem_of_app. by left.
    + intros Heq. apply (Hk x); [|done]. apply elem_of_app. right. by left.
Qed.

Lemma linked_outside_shrink dir fs fs' :
  (∀ k nd, nodes fs' !! k = Some nd → nodes fs !! k = Some nd) →
  (∀ k, ¬ dir `prefix_of` k → nodes fs' !! k = nodes fs !! k) →
  linked_outside dir fs → linked_outside dir fs'.
Proof.
  intros Hsub Hout Hl s i Hs. destruct (Hl s i (Hsub _ _ Hs)) as (k & Hk & Hki).
  exists k. split; [done|]. by rewrite Hout.
Qed.

Section unshare.
Variables (self : Share) (D : path) (perms : AccessControlList) (force : bool).
Hypothesis HSD : ∀ s, s ≠ [] → directory self ≠ (D ++ s)%list.

(** The bottom-up walk from a directory at or below [D] ends normally and
    leaves that directory empty. *)
Lemma walk_empties fuel : ∀ r w,
  unshare_ready self perms force fuel D (D ++ r) (w_fs w) →
  ∃ w', os_walk_bottomup fuel (D ++ r) (unshare_body acl_missing self force) w
          = (Ok tt, w') ∧
        emptied D (D ++ r) (w_fs w) (w_fs w').
Proof.
  induction fuel as [|fuel IH]; intros r w (Hwf & Htop & HS & Hguard & Hfuel).
  { exfalso. specialize (Hfuel []). rewrite app_nil_r in Hfuel.
    unfold fs_isdir in Htop. destruct (nodes (w_fs w) !! (D ++ r)%list) eqn:Hk; [|done].
    assert (length (@nil string) < 0)%nat by (apply Hfuel; eauto). cbn in *. lia. }
  assert (HDtop : ∀ k, ¬ D `prefix_of` k → ∀ s, k ≠ ((D ++ r) ++ s)%list).
  { intros k Hk s ->. apply Hk. rewrite <- app_assoc. by apply prefix_app_r. }
  assert (HStop : ∀ s, s ≠ [] → directory self ≠ ((D ++ r) ++ s)%list).
  { intros s Hs. rewrite <- app_assoc. apply HSD. by destruct r. }
  assert (Hpre : D `prefix_of` (D ++ r)%list) by (by apply prefix_app_r).
  set (top := (D ++ r)%list) in *.
  cbn [os_walk_bottomup]. mstep.
  destruct (scandir (w_fs w) top) as [[dirs nondirs]|] eqn:Hs.
  2:{ unfold scandir in Hs. by rewrite Htop in Hs. }
  apply scandir_Some in Hs as (_ & Hnd_d & Hnd_f & Hdirs & Hfiles).
  (* the walks of the sub-directories *)
  destruct (for_each_inv (λ done w1,
      wf (w_fs w1) ∧
      (∀ d s, d ∈ done → s ≠ [] → nodes (w_fs w1) !! (top ++ d :: s)%list = None) ∧
      (∀ k, (∀ d s, d ∈ done → s ≠ [] → k ≠ (top ++ d :: s)%list) →
            nodes (w_fs w1) !! k = nodes (w_fs w) !! k) ∧
      (linked_outside D (w_fs w) → inodes_kept (w_fs w) (w_fs w1)))
    dirs (λ d, os_walk_bottomup fuel (join top d) (unshare_body acl_missing self force)) w)
    as (w1 & Hrun1 & Hwf1 & Hgone1 & Hframe1 & Hkept1).
  { split_and!; try done.
    - intros d s Hd. by apply not_elem_of_nil in Hd.
    - intros _. apply inodes_kept_refl. }
  { intros done x rest wa Hl (Hwfa & Hgonea & Hframea & Hkepta).
    assert (x ∈ dirs) as Hx by (rewrite Hl; apply elem_of_app; right; by left).
    assert (x ∉ done) as Hxd.
    { rewrite Hl in Hnd_d. apply NoDup_app in Hnd_d as (_ & Hnd & _).
      intros Hin. apply (Hnd x Hin). by left. }
    destruct (proj1 (Hdirs x) Hx) as [Hxn [a Hxa]].
    assert (Hsuba : ∀ k nd, nodes (w_fs wa) !! k = Some nd → nodes (w_fs w) !! k = Some nd).
    { intros k nd Hk. rewrite <- Hframea; [done|].
      intros d s Hd Hs' ->. rewrite Hgonea in Hk; done. }
    rewrite join_snoc by done.
    destruct (IH (r ++ [x])%list wa) as (wb & Hrunb & Hwfb & Hgoneb & Hframeb & Hkeptb).
    { rewrite (app_assoc D r [x]). fold top. split_and!.
      - done.
      - unfold fs_isdir. rewrite Hframea, Hxa; [done|].
        intros d s _ Hs'. by apply path_cons_ne.
      - rewrite Hframea; [done|]. intros d s _ _. apply HStop. done.
      - destruct Hguard as [->|Hout]; [by left|]. right.
        apply (linked_outside_shrink D (w_fs w)); try done.
        intros k Hk. apply Hframea. intros d s _ _. by apply HDtop.
      - intros s Hs'. rewrite <- app_assoc in Hs'. destruct Hs' as [nd Hs'].
        apply Hsuba in Hs'. assert (length ([x] ++ s) < S fuel)%nat as Hlen.
        { apply Hfuel. by eexists. }
        rewrite length_app in Hlen. cbn in Hlen. lia. }
    rewrite (app_assoc D r [x]) in Hrunb, Hgoneb, Hframeb. fold top in Hrunb, Hgoneb, Hframeb.
    exists wb. split; [exact Hrunb|]. split_and!.
    - done.
    - intros d s Hd Hs'. apply elem_of_app in Hd as [Hd|Hd].
      + rewrite Hframeb; [by apply Hgonea|].
        intros s' _ Heq. rewrite <- app_assoc in Heq. apply app_inv_head in Heq.
        injection Heq as -> _. done.
      + apply list_elem_of_singleton in Hd as ->.
        specialize (Hgoneb s Hs'). by rewrite <- app_assoc in Hgoneb.
    - intros k Hk. rewrite Hframeb.
      + apply Hframea. intros d s Hd Hs'. apply Hk; [|done]. apply elem_of_app. by left.
      + intros s Hs' Heq. rewrite <- app_assoc in Heq.
        apply (Hk x s); [|done|done]. apply elem_of_app. right. by left.
    - intros Hout. eapply inodes_kept_trans; [by apply Hkepta|]. apply Hkeptb.
      apply (linked_outside_shrink D (w_fs w)); try done.
      intros k Hk. apply Hframea. intros d s _ _. by apply HDtop. }
  rewrite (bind_Ok _ _ _ _ _ Hrun1). cbn beta. unfold unshare_body.
  assert (Hsub1 : ∀ k nd, nodes (w_fs w1) !! k = Some nd → nodes (w_fs w) !! k = Some nd).
  { intros k nd Hk. rewrite <- Hframe1; [done|].
    intros d s Hd Hs' ->. rewrite Hgone1 in Hk; done. }
  assert (Hout1 : linked_outside D (w_fs w) → linked_outside D (w_fs w1)).
  { apply linked_outside_shrink; [done|].
    intros k Hk. apply Hframe1. intros d s _ _. by apply HDtop. }
  (* the files *)
  destruct (unshare_files self perms force D top nondirs w1)
    as (w2 & Hrun2 & Hwf2 & Hgone2 & Hframe2 & Hkept2); try done.
  { rewrite Hframe1; [done|]. intros d s _ _. by apply HStop. }
  { destruct Hguard as [->|Hout]; [by left|]. right. by apply Hout1. }
  { intros f Hf. apply Hfiles in Hf as [Hfn [i Hi]]. split; [done|]. exists i.
    rewrite Hframe1; [done|]. intros d s _ Hs'. by apply path_cons_ne. }
  rewrite (bind_Ok _ _ _ _ _ Hrun2). cbn beta.
  (* the sub-directories *)
  destruct (unshare_dirs top dirs w2) as (w3 & Hrun3 & Hwf3 & Hi3 & Hgone3 & Hframe3);
    try done.
  { intros d Hd. destruct (proj1 (Hdirs d) Hd) as [Hdn [a Hda]]. split_and!; [done| |].
    - unfold fs_isdir. rewrite Hframe2, Hframe1, Hda; [done| |].
      + intros d' s _ Hs'. by apply path_cons_ne.
      + intros f Hf Heq. apply app_inv_head in Heq. injection Heq as ->.
        apply Hfiles in Hf as [_ [i Hi]]. congruence.
    - intros s Hs'. rewrite Hframe2; [by apply Hgone1|].
      intros f _ Heq. symmetry in Heq. by apply path_cons_ne in Heq. }
  exists w3. split; [exact Hrun3|]. split_and!.
  - done.
  - intros s Hs'. destruct s as [|d s]; [done|]. clear Hs'.
    destruct (decide (s = [])) as [->|Hs'].
    + destruct (nodes (w_fs w) !! (top ++ [d])%list) as [[a|i]|] eqn:Hk.
      * apply Hgone3. apply Hdirs. split; [|eauto].
        destruct (wf_parent _ Hwf top d) as [Hn _]; [by eexists|done].
      * assert (d ∈ nondirs) as Hd.
        { apply Hfiles. split; [|eauto].
          destruct (wf_parent _ Hwf top d) as [Hn _]; [by eexists|done]. }
        rewrite Hframe3; [by apply Hgone2|].
        intros d' Hd' Heq. apply app_inv_head in Heq. injection Heq as ->.
        apply Hdirs in Hd' as [_ [a Ha]]. congruence.
      * rewrite Hframe3, Hframe2, Hframe1; [done| | |].
        -- intros d' s _ Hs'. by apply path_cons_ne.
        -- intros f Hf Heq. apply app_inv_head in Heq. injection Heq as ->.
           apply Hfiles in Hf as [_ [i Hi]]. congruence.
        -- intros d' Hd' Heq. apply app_inv_head in Heq. injection Heq as ->.
           apply Hdirs in Hd' as [_ [a Ha]]. congruence.
    + rewrite Hframe3, Hframe2.
      2:{ intros f _ Heq. symmetry in Heq. by apply path_cons_ne in Heq. }
      2:{ intros d' _ Heq. symmetry in Heq. by apply path_cons_ne in Heq. }
      destruct (decide (d ∈ dirs)) as [Hd|Hd]; [by apply Hgone1|].
      rewrite Hframe1.
      2:{ intros d' s' Hd' _ Heq. apply app_inv_head in Heq. injection Heq as -> _. done. }
      destruct (nodes (w_fs w) !! (top ++ d :: s)%list) eqn:Hk; [|done].
      exfalso. apply Hd.
      assert (is_Some (nodes (w_fs w) !! ((top ++ [d]) ++ s)%list)) as Hsome.
      { rewrite <- app_assoc. by eexists. }
      destruct (wf_ancestor (w_fs w) (top ++ [d])%list s Hwf Hsome) as [Hdir|?]; [|done].
      unfold fs_isdir in Hdir.
      destruct (nodes (w_fs w) !! (top ++ [d])%list) as [[a|i]|] eqn:Hkd; try done.
      apply Hdirs. split; [|eauto].
      destruct (wf_parent _ Hwf top d) as [Hn _]; [by eexists|done].
  - intros k Hk. rewrite Hframe3, Hframe2, Hframe1.
    + done.
    + intros d s _ _. by apply Hk.
    + intros f _. by apply Hk.
    + intros d _. by apply Hk.
  - intros Hout. eapply inodes_kept_trans; [by apply Hkept1|].
    eapply inodes_kept_trans; [by apply Hkept2, Hout1|].
    intros i ino Hi. rewrite Hi3. eauto.
Qed.

End unshare.

Lemma linked_outside_of_check dir fs :
  bool_decide (linked_outside_entries dir fs) = true → linked_outside dir fs.
Proof.
  intros H s i Hs. apply bool_decide_eq_true in H.
  specialize (H _ _ Hs (prefix_app_r dir dir s (reflexivity dir))). cbn in H.
  apply map_Exists_lookup in H as (k & nd & Hk & Hpre & ->). eauto.
Qed.

(** X12. Un-sharing a directory tree.  On a well-formed file system where the
    share directory exists and does not lie strictly inside the tree, the
    tree's root is a directory other than [/], every file of the tree has a
    hard link outside it unless force is given, and the fuel exceeds the
    depth of the tree: [_unshare_linked_tree] ends normally (and so does
    [self_destruct], which is the call on the share directory), the root and
    everything below it are gone, and every other directory entry is as it
    was.  Without force needed, no inode is lost. *)
Theorem unshare_tree_removes fuel self D force w perms :
  wf (w_fs w) →
  D ≠ [] →
  fs_isdir (w_fs w) D = true →
  nodes (w_fs w) !! directory self = Some (NDir perms) →
  (∀ s, s ≠ [] → directory self ≠ (D ++ s)%list) →
  force = true ∨ linked_outside D (w_fs w) →
  (∀ s, is_Some (nodes (w_fs w) !! (D ++ s)%list) → (length s < fuel)%nat) →
  ∃ w', _unshare_linked_tree acl_missing fuel self D force w = (Ok tt, w') ∧
    (directory self = D → self_destruct acl_missing fuel self force w = (Ok tt, w')) ∧
    wf (w_fs w') ∧
    tree_removed D (w_fs w) (w_fs w') ∧
    (linked_outside D (w_fs w) → inodes_kept (w_fs w) (w_fs w')).
Proof.
  intros Hwf HD Hdir HS HSD Hguard Hfuel.
  destruct (walk_empties self D perms force HSD fuel []
              (log_add DEBUG (MsgUnsharingTree (directory self)) w))
    as (w1 & Hrun1 & Hwf1 & Hgone1 & Hframe1 & Hkept1).
  { rewrite app_nil_r. split_and!; done. }
  rewrite app_nil_r in Hrun1, Hgone1, Hframe1. cbn [w_fs log_add] in Hgone1, Hframe1, Hkept1.
  assert (HD1 : nodes (w_fs w1) !! D = nodes (w_fs w) !! D).
  { apply Hframe1. intros s Hs Heq. apply (f_equal length) in Heq.
    rewrite length_app in Heq. destruct s; [done|]. cbn in Heq. lia. }
  unfold fs_isdir in Hdir.
  destruct (nodes (w_fs w) !! D) as [[a|i]|] eqn:HDa; try done.
  assert (Hrm : fs_rmdir D (w_fs w1) = (None, set_nodes (delete D) (w_fs w1))).
  { apply (fs_rmdir_empty _ _ a); [done| |done].
    apply listdir_empty. intros n _. by apply Hgone1. }
  assert (Hrun : _unshare_linked_tree acl_missing fuel self D force w
                 = (Ok tt, op_add (EvRmdir D) (with_fs (set_nodes (delete D) (w_fs w1)) w1))).
  { rewrite unshare_linked_tree_unfold. mstep. rewrite (bind_Ok _ _ _ _ _ Hrun1).
    cbn beta. unfold os_rmdir. by apply syscall_Ok. }
  eexists. split; [exact Hrun|]. split; [by intros <-|].
  cbn [w_fs with_fs op_add nodes inodes set_nodes]. split_and!.
  - pose proof (wf_rmdir_any D (w_fs w1) Hwf1) as Hk. by rewrite Hrm in Hk.
  - intros k. cbn [nodes set_nodes]. case_decide as Hk.
    + destruct Hk as [s ->]. destruct (decide (s = [])) as [->|Hs].
      * rewrite app_nil_r. by rewrite lookup_delete_eq.
      * rewrite lookup_delete_ne; [by apply Hgone1|].
        intros Heq. apply (f_equal length) in Heq. rewrite length_app in Heq.
        destruct s; [done|]. cbn in Heq. lia.
    + rewrite lookup_delete_ne by (by intros <-).
      apply Hframe1. intros s _ ->. apply Hk. by apply prefix_app_r.
  - intros Hout i ino Hi. destruct (Hkept1 Hout i ino Hi) as (ino' & Hi' & Hl').
    eauto.
Qed.

(** *** Adding a directory, again, and destructing the share *)

Lemma add_dir_unfold fuel self X w :
  fs_isdir (w_fs w) X = true →
  add acl_missing fuel self [X] w =
    (try_except (_duplicate_as_linked_tree acl_missing fuel self X)
       (λ e, match e with
             | FileExistsError filename =>
                 Some (logging DEBUG (MsgDirExists filename) ;;;
                       _unshare_linked_tree acl_missing fuel self filename false ;;;
                       _duplicate_as_linked_tree acl_missing fuel self X)
             | _ => None
             end) ;;; ret tt ;;; ret tt)
      (log_add DEBUG (MsgAdding (directory self) [X]) w).
Proof.
  intros HX. rewrite add_unfold. cbn zeta. unfold add_handle.
  assert (Hnf : fs_isfile (w_fs w) X = false).
  { unfold fs_isdir in HX. unfold fs_isfile.
    by destruct (nodes (w_fs w) !! X) as [[a|i]|]. }
  rewrite !filter_cons, !filter_nil.
  rewrite decide_False by congruence. rewrite decide_True by done.
  rewrite list_difference_nil.
  2:{ intros x Hx. apply elem_of_app. by left. }
  cbn [for_each remove_dups]. by mstep.
Qed.

Lemma add_dir_Ok fuel self X w w' :
  fs_isdir (w_fs w) X = true →
  _duplicate_as_linked_tree acl_missing fuel self X
    (log_add DEBUG (MsgAdding (directory self) [X]) w) = (Ok tt, w') →
  add acl_missing fuel self [X] w = (Ok tt, w').
Proof.
  intros HX Hrun. rewrite add_dir_unfold by done.
  unfold bind at 1. by erewrite try_except_Ok by exact Hrun.
Qed.

Lemma add_dir_retry fuel self X w p w1 w2 w' :
  fs_isdir (w_fs w) X = true →
  _duplicate_as_linked_tree acl_missing fuel self X
    (log_add DEBUG (MsgAdding (directory self) [X]) w) = (Raise (FileExistsError p), w1) →
  _unshare_linked_tree acl_missing fuel self p false
    (log_add DEBUG (MsgDirExists p) w1) = (Ok tt, w2) →
  _duplicate_as_linked_tree acl_missing fuel self X w2 = (Ok tt, w') →
  add acl_missing fuel self [X] w = (Ok tt, w').
Proof.
  intros HX Hfail Hun Hrun. rewrite add_dir_unfold by done.
  unfold bind at 1. erewrite try_except_Raise by exact Hfail. cbn beta iota.
  rewrite bind_logging, (bind_Ok _ _ _ _ _ Hun). cbn beta. by rewrite Hrun.
Qed.

Lemma duplicate_mirror_exists fuel self X w :
  wf (w_fs w) →
  is_Some (nodes (w_fs w) !! join (directory self) (basename X)) →
  ∃ w1, _duplicate_as_linked_tree acl_missing fuel self X w
          = (Raise (FileExistsError (join (directory self) (basename X))), w1) ∧
        w_fs w1 = w_fs w.
Proof.
  intros Hwf Hm. eexists. split; [|shelve].
  unfold _duplicate_as_linked_tree, _makedir. mstep.
  unfold os_makedirs. erewrite bind_Raise; [done|].
  erewrite syscall_Raise; [done|]. cbn [w_fs log_add].
  by apply fs_makedirs_exists_wf.
  Unshelve. done.
Qed.

Lemma holds_mirror_outside perms X mirror fs fs' k :
  holds_mirror perms X mirror fs fs' → ¬ mirror `prefix_of` k →
  nodes fs' !! k = nodes fs !! k.
Proof.
  intros Hm Hk. rewrite (Hm k).
  destruct (strip_prefix mirror k) as [s|] eqn:Hsp; [|done].
  apply strip_prefix_Some in Hsp as ->. destruct Hk. by apply prefix_app_r.
Qed.

Lemma holds_mirror_inside perms X mirror fs fs' s :
  holds_mirror perms X mirror fs fs' →
  nodes fs' !! (mirror ++ s)%list = mirror_node perms <$> nodes fs !! (X ++ s)%list.
Proof. intros Hm. by rewrite (Hm (mirror ++ s)%list), strip_prefix_app. Qed.

Lemma mirror_node_file perms nd i : mirror_node perms nd = NFile i → nd = NFile i.
Proof. by destruct nd. Qed.

Lemma not_prefix_apart (X M : path) :
  (∀ q s, (X ++ q)%list ≠ (M ++ s)%list) → ∀ q, ¬ M `prefix_of` (X ++ q)%list.
Proof. intros H q [s Hs]. by apply (H q s). Qed.

(** X13. Adding the same directory a second time.  Under the conditions of
    [duplicate_mirrors], both calls of [add] end normally: the second finds
    the mirror in place, un-shares it without force, which succeeds since
    every mirrored file has its original outside the share, and duplicates
    the tree again.  The directory entries after the second call are those
    after the first. *)
Theorem add_directory_again fuel self X w perms :
  wf (w_fs w) →
  nodes (w_fs w) !! directory self = Some (NDir perms) →
  fs_isdir (w_fs w) X = true →
  basename X ≠ "" →
  nodes (w_fs w) !! (directory self ++ [basename X])%list = None →
  ¬ X `prefix_of` directory self →
  (∀ s i ino, nodes (w_fs w) !! (X ++ s)%list = Some (NFile i) →
              inodes (w_fs w) !! i = Some ino → i_linkable ino = true) →
  (∀ s, is_Some (nodes (w_fs w) !! (X ++ s)%list) → (length s < fuel)%nat) →
  ∃ w1 w2,
    add acl_missing fuel self [X] w = (Ok tt, w1) ∧
    add acl_missing fuel self [X] w1 = (Ok tt, w2) ∧
    wf (w_fs w2) ∧
    nodes (w_fs w2) = nodes (w_fs w1) ∧
    holds_mirror perms X (directory self ++ [basename X]) (w_fs w) (w_fs w2).
Proof.
  intros Hwf HS HX Hb HM HXS Hlk Hfuel.
  set (dir := directory self) in *. set (b := basename X) in *.
  set (mirror := (dir ++ [b])%list) in *.
  assert (HXsome : is_Some (nodes (w_fs w) !! X)).
  { unfold fs_isdir in HX. destruct (nodes (w_fs w) !! X); [by eexists|done]. }
  pose proof (mirror_apart _ dir X b Hwf HXsome HM HXS) as HXM. fold mirror in HXM.
  pose proof (not_prefix_apart X mirror HXM) as HXout.
  assert (HSout : ¬ mirror `prefix_of` dir).
  { intros [s Hs]. by apply (snoc_not_self dir b s). }
  (* the first call *)
  destruct (duplicate_mirrors_run fuel self X
              (log_add DEBUG (MsgAdding dir [X]) w) perms)
    as (w1 & Hrun1 & Hwf1 & Hm1 & Hk1); try done.
  fold dir b mirror in Hm1. cbn [w_fs log_add] in Hm1, Hk1.
  assert (Hadd1 : add acl_missing fuel self [X] w = (Ok tt, w1)) by (by apply add_dir_Ok).
  assert (Hsrc1 : ∀ q, nodes (w_fs w1) !! (X ++ q)%list = nodes (w_fs w) !! (X ++ q)%list).
  { intros q. eapply holds_mirror_outside; [exact Hm1|]. apply HXout. }
  assert (HX1 : fs_isdir (w_fs w1) X = true).
  { unfold fs_isdir in *. specialize (Hsrc1 []). rewrite app_nil_r in Hsrc1.
    by rewrite Hsrc1. }
  assert (HM1 : nodes (w_fs w1) !! mirror = Some (NDir perms)).
  { pose proof (holds_mirror_inside _ _ _ _ _ [] Hm1) as H0.
    rewrite !app_nil_r in H0. rewrite H0. unfold fs_isdir in HX.
    by destruct (nodes (w_fs w) !! X) as [[a|i]|]. }
  (* the second call: the failed attempt *)
  destruct (duplicate_mirror_exists fuel self X (log_add DEBUG (MsgAdding dir [X]) w1))
    as (wa & Hfail & Hfsa); cbn [w_fs log_add]; [done| |].
  { fold dir b. rewrite join_snoc by done. fold mirror. by rewrite HM1. }
  fold dir b in Hfail. rewrite join_snoc in Hfail by done. fold mirror in Hfail.
  cbn [w_fs log_add] in Hfsa.
  (* the mirror is un-shared *)
  destruct (unshare_tree_removes fuel self mirror false
              (log_add DEBUG (MsgDirExists mirror) wa) perms)
    as (wb & Hun & _ & Hwfb & Hrem & Hkeptb); cbn [w_fs log_add]; rewrite ?Hfsa.
  { done. }
  { unfold mirror. by destruct dir. }
  { unfold fs_isdir. by rewrite HM1. }
  { fold dir. erewrite holds_mirror_outside; [exact HS|exact Hm1|exact HSout]. }
  { intros s _. apply snoc_not_self. }
  { right. intros s i Hs. rewrite (holds_mirror_inside _ _ _ _ _ s Hm1) in Hs.
    destruct (nodes (w_fs w) !! (X ++ s)%list) as [nd|] eqn:Hnd; [|done].
    cbn in Hs. injection Hs as Hs. apply mirror_node_file in Hs as ->.
    exists (X ++ s)%list. split; [apply HXout|]. by rewrite Hsrc1. }
  { intros s Hs. rewrite (holds_mirror_inside _ _ _ _ _ s Hm1) in Hs.
    apply Hfuel. destruct Hs as [nd Hs].
    destruct (nodes (w_fs w) !! (X ++ s)%list); [by eexists|done]. }
  cbn [w_fs log_add] in Hrem, Hkeptb. rewrite Hfsa in Hrem, Hkeptb.
  assert (Hnb : ∀ k, nodes (w_fs wb) !! k = nodes (w_fs w) !! k).
  { intros k. rewrite (Hrem k). case_decide as Hk.
    - destruct Hk as [s ->]. symmetry. by apply wf_below_absent.
    - eapply holds_mirror_outside; [exact Hm1|exact Hk]. }
  assert (Hout1 : linked_outside mirror (w_fs w1)).
  { intros s i Hs. rewrite (holds_mirror_inside _ _ _ _ _ s Hm1) in Hs.
    destruct (nodes (w_fs w) !! (X ++ s)%list) as [nd|] eqn:Hnd; [|done].
    cbn in Hs. injection Hs as Hs. apply mirror_node_file in Hs as ->.
    exists (X ++ s)%list. split; [apply HXout|]. by rewrite Hsrc1. }
  (* and the tree is duplicated again *)
  destruct (duplicate_mirrors_run fuel self X wb perms)
    as (w2 & Hrun2 & Hwf2 & Hm2 & _); try done.
  { by rewrite Hnb. }
  { unfold fs_isdir in *. by rewrite Hnb. }
  { by rewrite Hnb. }
  { intros s i ino Hi Hino. rewrite Hnb in Hi.
    destruct (wf_inode _ Hwf _ _ Hi) as [ino0 Hino0].
    destruct (Hk1 i ino0 Hino0) as (ino1 & Hino1 & Hl1).
    destruct (Hkeptb Hout1 i ino1 Hino1) as (inob & Hinob & Hlb).
    assert (ino = inob) as -> by congruence.
    rewrite Hlb, Hl1. by apply (Hlk s i ino0). }
  { intros s Hs. rewrite Hnb in Hs. by apply Hfuel. }
  fold dir b mirror in Hm2.
  exists w1, w2. split; [exact Hadd1|]. split.
  { by eapply add_dir_retry. }
  split; [done|]. split.
  - apply map_eq. intros k. rewrite (Hm2 k), (Hm1 k).
    destruct (strip_prefix mirror k); by rewrite Hnb.
  - intros k. rewrite (Hm2 k). destruct (strip_prefix mirror k); by rewrite Hnb.
Qed.

(** X14. A directory is added to an empty share, and the share is then
    destructed without force.  Both calls end normally when the fuel exceeds
    the depth of the tree by more than one.  Afterwards the directory
    entries are as before, but for the share directory, which is gone; the
    file system is well-formed, and every inode that counted a link counts
    as many as before. *)
Theorem add_directory_then_self_destruct fuel self X w perms :
  wf (w_fs w) →
  directory self ≠ [] →
  nodes (w_fs w) !! directory self = Some (NDir perms) →
  (∀ s, s ≠ [] → nodes (w_fs w) !! (directory self ++ s)%list = None) →
  fs_isdir (w_fs w) X = true →
  basename X ≠ "" →
  ¬ X `prefix_of` directory self →
  (∀ s i ino, nodes (w_fs w) !! (X ++ s)%list = Some (NFile i) →
              inodes (w_fs w) !! i = Some ino → i_linkable ino = true) →
  (∀ s, is_Some (nodes (w_fs w) !! (X ++ s)%list) → (S (length s) < fuel)%nat) →
  ∃ w1 w2,
    add acl_missing fuel self [X] w = (Ok tt, w1) ∧
    self_destruct acl_missing fuel self false w1 = (Ok tt, w2) ∧
    wf (w_fs w2) ∧
    nodes (w_fs w2) = delete (directory self) (nodes (w_fs w)) ∧
    (∀ i ino, inodes (w_fs w) !! i = Some ino → (0 < st_nlink ino)%nat →
       ∃ ino', inodes (w_fs w2) !! i = Some ino' ∧ st_nlink ino' = st_nlink ino).
Proof.
  intros Hwf HSne HS Hempty HX Hb HXS Hlk Hfuel.
  set (dir := directory self) in *. set (b := basename X) in *.
  set (mirror := (dir ++ [b])%list) in *.
  assert (HXsome : is_Some (nodes (w_fs w) !! X)).
  { unfold fs_isdir in HX. destruct (nodes (w_fs w) !! X); [by eexists|done]. }
  assert (HM : nodes (w_fs w) !! mirror = None) by (by apply Hempty).
  pose proof (mirror_apart _ dir X b Hwf HXsome HM HXS) as HXM. fold mirror in HXM.
  pose proof (not_prefix_apart X mirror HXM) as HXout.
  assert (HSout : ¬ mirror `prefix_of` dir).
  { intros [s Hs]. by apply (snoc_not_self dir b s). }
  assert (HXdir : ∀ q, ¬ dir `prefix_of` (X ++ q)%list).
  { intros q Hpre.
    destruct (prefix_weak_total X dir (X ++ q)%list) as [Hp|[v Hv]]; try done.
    - by apply prefix_app_r.
    - destruct (decide (v = [])) as [->|Hvn].
      + rewrite app_nil_r in Hv. apply HXS. by rewrite Hv.
      + rewrite Hv, Hempty in HXsome by done. by destruct HXsome. }
  (* add *)
  destruct (duplicate_mirrors_run fuel self X
              (log_add DEBUG (MsgAdding dir [X]) w) perms)
    as (w1 & Hrun1 & Hwf1 & Hm1 & Hk1); try done.
  { intros s Hs. apply Hfuel in Hs. lia. }
  fold dir b mirror in Hm1. cbn [w_fs log_add] in Hm1, Hk1.
  assert (Hadd1 : add acl_missing fuel self [X] w = (Ok tt, w1)) by (by apply add_dir_Ok).
  assert (Hsrc1 : ∀ q, nodes (w_fs w1) !! (X ++ q)%list = nodes (w_fs w) !! (X ++ q)%list).
  { intros q. eapply holds_mirror_outside; [exact Hm1|]. apply HXout. }
  assert (HS1 : nodes (w_fs w1) !! dir = Some (NDir perms)).
  { erewrite holds_mirror_outside; [exact HS|exact Hm1|exact HSout]. }
  (* the entries at or below the share directory after [add] *)
  assert (Hin1 : ∀ s nd, nodes (w_fs w1) !! (dir ++ s)%list = Some nd →
    s = [] ∨ ∃ u, s = b :: u ∧ mirror_node perms <$> nodes (w_fs w) !! (X ++ u)%list = Some nd).
  { intros s nd Hs. destruct (decide (mirror `prefix_of` (dir ++ s)%list)) as [[u Hu]|Hn].
    - right. exists u. unfold mirror in Hu. rewrite <- app_assoc in Hu.
      apply app_inv_head in Hu. subst s. split; [done|].
      rewrite <- (holds_mirror_inside _ _ _ _ _ u Hm1). unfold mirror.
      rewrite <- app_assoc. exact Hs.
    - left. rewrite (holds_mirror_outside _ _ _ _ _ _ Hm1 Hn) in Hs.
      destruct (decide (s = [])) as [|Hsn]; [done|]. by rewrite Hempty in Hs. }
  (* self_destruct *)
  destruct (unshare_tree_removes fuel self dir false w1 perms)
    as (w2 & _ & Hsd & Hwf2 & Hrem & _); try done.
  { unfold fs_isdir. by rewrite HS1. }
  { intros s Hs Heq. apply (f_equal length) in Heq. rewrite length_app in Heq.
    destruct s; [done|]. cbn in Heq. unfold dir in Heq. lia. }
  { right. intros s i Hs. destruct (Hin1 s _ Hs) as [->|(u & -> & Hu)].
    - rewrite app_nil_r in Hs. congruence.
    - destruct (nodes (w_fs w) !! (X ++ u)%list) as [nd|] eqn:Hnd; [|done].
      cbn in Hu. injection Hu as Hu. apply mirror_node_file in Hu as ->.
      exists (X ++ u)%list. split; [apply HXdir|]. by rewrite Hsrc1. }
  { intros s [nd Hs]. destruct (Hin1 s _ Hs) as [->|(u & -> & Hu)].
    - specialize (Hfuel []). rewrite app_nil_r in Hfuel. specialize (Hfuel HXsome).
      cbn in *. lia.
    - cbn. apply Hfuel. destruct (nodes (w_fs w) !! (X ++ u)%list); [by eexists|done]. }
  assert (Hn2 : nodes (w_fs w2) = delete dir (nodes (w_fs w))).
  { apply map_eq. intros k. rewrite (Hrem k). case_decide as Hk.
    - destruct Hk as [s ->]. destruct (decide (s = [])) as [->|Hsn].
      + rewrite app_nil_r. by rewrite lookup_delete_eq.
      + rewrite lookup_delete_ne; [by rewrite Hempty|].
        intros Heq. apply (f_equal length) in Heq. rewrite length_app in Heq.
        destruct s; [done|]. cbn in Heq. lia.
    - rewrite lookup_delete_ne by (by intros <-).
      eapply holds_mirror_outside; [exact Hm1|].
      intros [s Hs]. apply Hk. rewrite Hs. unfold mirror. rewrite <- app_assoc.
      by apply prefix_app_r. }
  exists w1, w2. split; [exact Hadd1|]. split; [by apply Hsd|]. split; [done|].
  split; [exact Hn2|].
  intros i ino Hi Hpos.
  assert (Hlinks : links_to (w_fs w2) i = links_to (w_fs w) i).
  { apply map_eq. intros k. apply option_eq. intros v.
    rewrite !links_to_lookup, Hn2. split.
    - intros [Hk ->]. apply lookup_delete_Some in Hk as [_ Hk]. done.
    - intros [Hk ->]. split; [|done]. apply lookup_delete_Some. split; [|done].
      intros <-. congruence. }
  pose proof (wf_nlink _ Hwf _ _ Hi) as Hsz. rewrite Hsz in Hpos.
  destruct (map_choose (links_to (w_fs w) i)) as (p & nd & Hp).
  { apply map_size_non_empty_iff. lia. }
  rewrite <- Hlinks in Hp. apply links_to_lookup in Hp as [Hp ->].
  destruct (wf_inode _ Hwf2 _ _ Hp) as [ino' Hi'].
  exists ino'. split; [done|].
  by rewrite (wf_nlink _ Hwf2 _ _ Hi'), Hlinks, Hsz.
Qed.

(** Hypotheses of the two theorems above in a form that can be checked on a
    given file system. *)
Lemma depth_succ_of_check fs (X : path) fuel :
  X ≠ [] →
  bool_decide (map_Forall (λ (k : path) _, (length k < fuel)%nat) (nodes fs)) = true →
  ∀ s, is_Some (nodes fs !! (X ++ s)%list) → (S (length s) < fuel)%nat.
Proof.
  intros HX H s [nd Hk]. apply bool_decide_eq_true in H.
  specialize (H _ _ Hk). cbn in H. rewrite length_app in H.
  destruct X; [done|]. cbn in H. lia.
Qed.

Lemma empty_below_of_check fs (dir : path) :
  bool_decide (map_Forall (λ (k : path) _, ¬ dir `prefix_of` k ∨ k = dir) (nodes fs)) = true →
  ∀ s, s ≠ [] → nodes fs !! (dir ++ s)%list = None.
Proof.
  intros H s Hs. apply bool_decide_eq_true in H.
  destruct (nodes fs !! (dir ++ s)%list) as [nd|] eqn:Hk; [|done].
  destruct (H _ _ Hk) as [Hn|Heq].
  - destruct Hn. by apply prefix_app_r.
  - apply (f_equal length) in Heq. rewrite length_app in Heq.
    destruct s; [done|]. cbn in Heq. lia.
Qed.

(** *** When un-sharing needs force *)

Lemma keeps_links_entry w w' p i :
  keeps_links w w' → wf (w_fs w) → nodes (w_fs w) !! p = Some (NFile i) →
  wf (w_fs w') ∧ ∃ p', nodes (w_fs w') !! p' = Some (NFile i).
Proof.
  intros Hk Hwf Hp. destruct (wf_inode _ Hwf _ _ Hp) as [ino Hi].
  pose proof (wf_nlink_pos _ _ _ _ Hwf Hp Hi) as Hpos.
  destruct (Hk Hwf) as [Hwf' Hkept]. split; [done|].
  destruct (Hkept i ino Hi Hpos) as (ino' & Hi' & Hpos').
  rewrite (wf_nlink _ Hwf' _ _ Hi') in Hpos'.
  destruct (map_choose (links_to (w_fs w') i)) as (p' & nd & Hl).
  { apply map_size_non_empty_iff. lia. }
  apply links_to_lookup in Hl as [Hl ->]. eauto.
Qed.

Lemma unshare_linked_tree_keeps_links fuel self dir :
  preserves keeps_links (_unshare_linked_tree acl_missing fuel self dir false).
Proof.
  apply (guarded_unshare_linked_tree keeps_links); intros.
  - intros Hw. split; [done|apply links_kept_refl].
  - intros Hw. split; [done|apply links_kept_refl].
  - by apply keeps_links_fs.
  - apply unshare_file_keeps_links.
Qed.

Lemma unshare_linked_tree_outside fuel self dir force w k :
  ¬ dir `prefix_of` k →
  nodes (w_fs (_unshare_linked_tree acl_missing fuel self dir force w).2) !! k
    = nodes (w_fs w) !! k.
Proof.
  revert w. set (R := λ w w' : world, nodes (w_fs w') !! k = nodes (w_fs w) !! k).
  intros w Hk. change (R w (_unshare_linked_tree acl_missing fuel self dir force w).2).
  revert w.
  assert (PreOrder R) as HR.
  { split; [by intros w|]. intros w1 w2 w3 H1 H2. unfold R in *. congruence. }
  assert (Hstep : ∀ ev f, dir `prefix_of` written ev →
            (∀ fs k', k' ≠ written ev → nodes (f fs).2 !! k' = nodes fs !! k') →
            preserves R (syscall ev f)).
  { intros ev f Hpre Hframe. apply (preserves_syscall R).
    - intros w fs' Hf. unfold R. cbn [w_fs op_add with_fs].
      specialize (Hframe (w_fs w) k). rewrite Hf in Hframe. apply Hframe.
      by intros ->.
    - intros w e fs' Hf. unfold R. cbn [w_fs op_add with_fs].
      specialize (Hframe (w_fs w) k). rewrite Hf in Hframe. apply Hframe.
      by intros ->. }
  assert (Hlog : ∀ lv m, preserves R (logging lv m)) by (by intros lv m w).
  assert (Hff : ∀ p, preserves R (from_file acl_missing p)).
  { intros p. apply (preserves_bind R); [by apply (preserves_get_fs R)|].
    intros fs. unfold missing.
    destruct (acl_of fs p), acl_missing;
      by first [apply (preserves_ret R) | apply (preserves_raise R)]. }
  apply (preserves_bind R); [apply Hlog|]. intros _.
  apply (preserves_bind R).
  2:{ intros _. apply Hstep; [done|]. intros fs k' Hk'. by apply nodes_rmdir_other. }
  apply (preserves_os_walk_bottomup R). intros root dirs nondirs Hroot.
  apply (preserves_bind R); [ |intros _].
  - apply (preserves_for_each R). intros f _.
    assert (dir `prefix_of` join root f) as Hpre by (by apply prefix_of_join).
    apply (preserves_bind R); [apply Hlog|]. intros _.
    apply (preserves_bind R).
    { apply (preserves_if R); [|by apply (preserves_ret R)].
      apply (preserves_bind R).
      { apply (preserves_bind R); [by apply (preserves_get_fs R)|]. intros fs.
        destruct (fs_stat_nlink fs (join root f));
          [by apply (preserves_raise R) | by apply (preserves_ret R)]. }
      intros n. case_decide; [|by apply (preserves_ret R)].
      apply (preserves_bind R); [apply Hlog|]. intros _.
      by apply (preserves_raise R). }
    intros _.
    apply (preserves_bind R); [apply Hff|]. intros cur.
    apply (preserves_bind R); [apply Hff|]. intros perms.
    apply (preserves_bind R); [apply Hlog|]. intros _.
    apply (preserves_bind R).
    { apply (preserves_bind R); [by apply (preserves_get_fs R)|]. intros fs.
      destruct (acl_of fs (join root f)).
      - apply Hstep; [done|]. intros fs' k' Hk'. cbn [snd].
        by apply nodes_acl_modify_other.
      - unfold missing.
        destruct acl_missing;
          [by apply (preserves_raise R) | by apply (preserves_ret R)]. }
    intros _. apply Hstep; [done|]. intros fs k' Hk'. by apply nodes_unlink_other.
  - apply (preserves_for_each R). intros d _.
    apply (preserves_bind R); [apply Hlog|]. intros _.
    apply Hstep; [by apply prefix_of_join|]. intros fs k' Hk'.
    by apply nodes_rmdir_other.
Qed.

(** X15. A share that holds a file all of whose hard links lie at or below
    the share directory cannot be destructed without force: on a well-formed
    file system [self_destruct] without force does not end normally,
    whatever the fuel. *)
Theorem self_destruct_needs_force fuel self w p i :
  wf (w_fs w) →
  nodes (w_fs w) !! p = Some (NFile i) →
  (∀ k, nodes (w_fs w) !! k = Some (NFile i) → directory self `prefix_of` k) →
  ∀ w', self_destruct acl_missing fuel self false w ≠ (Ok tt, w').
Proof.
  intros Hwf Hp Hin w' Hrun. unfold self_destruct in Hrun.
  set (dir := directory self) in *.
  pose proof (unshare_linked_tree_keeps_links fuel self dir w) as Hk.
  pose proof (λ k, unshare_linked_tree_outside fuel self dir false w k) as Hout.
  rewrite Hrun in Hk, Hout. cbn [snd] in Hk, Hout.
  destruct (keeps_links_entry _ _ p i Hk Hwf Hp) as (Hwf' & p' & Hp').
  assert (Hgone : nodes (w_fs w') !! dir = None).
  { unfold _unshare_linked_tree in Hrun.
    apply bind_Ok_inv in Hrun as ([] & w1 & _ & Hrun).
    apply bind_Ok_inv in Hrun as ([] & w2 & _ & Hrm).
    unfold os_rmdir, syscall in Hrm.
    destruct (fs_rmdir dir (w_fs w2)) as [[e|] fs'] eqn:Hfs; [done|].
    injection Hrm as <-. cbn [w_fs op_add with_fs].
    apply fs_rmdir_spec in Hfs as (_ & _ & ->). cbn [nodes set_nodes].
    apply lookup_delete_eq. }
  destruct (decide (dir `prefix_of` p')) as [[s ->]|Hn].
  - by rewrite (wf_below_absent _ _ s Hwf' Hgone) in Hp'.
  - rewrite (Hout p' Hn) in Hp'. apply Hn. by apply Hin.
Qed.

Lemma links_inside_of_check fs (dir : path) i :
  bool_decide (map_Forall (λ (k : path) nd, nd = NFile i → dir `prefix_of` k) (nodes fs))
    = true →
  ∀ k, nodes fs !! k = Some (NFile i) → dir `prefix_of` k.
Proof.
  intros H k Hk. apply bool_decide_eq_true in H. by apply (H k (NFile i)).
Qed.

(** ** [add] on a collection of items *)





(** ** Linking where symbolic links exist *)

Lemma chase_not_link fuel seen links p :
  links !! p = None → chase fuel seen links p = p.
Proof. intros H. destruct fuel; simpl; by rewrite H. Qed.

Lemma realpath_in_not_link links p : links !! p = None → realpath_in links p = p.
Proof. apply chase_not_link. Qed.

(** Without links, [os.path.realpath] changes nothing: the [realpath] of the
    methods above. *)
Lemma realpath_in_empty p : realpath_in ∅ p = realpath p.
Proof. by apply realpath_in_not_link. Qed.

(** A link to a path that is no link leads there. *)
Lemma realpath_in_one links p t :
  links !! p = Some t → links !! t = None → realpath_in links p = t.
Proof.
  intros Hp Ht. unfold realpath_in.
  destruct (size links) as [|n] eqn:Hn.
  { apply map_size_empty_inv in Hn. subst links. by rewrite lookup_empty in Hp. }
  cbn [chase]. rewrite Hp.
  case_decide as Hin; [by apply not_elem_of_nil in Hin|]. by apply chase_not_link.
Qed.

Lemma fs_link_in_no_links follow src dst fs :
  fs_link_in follow src dst ∅ fs = ((fs_link src dst fs).1, (∅, (fs_link src dst fs).2)).
Proof.
  unfold fs_link_in. rewrite !lookup_empty. by destruct (fs_link src dst fs).
Qed.

(** On a world without links, the [try] block with links is the [try] block
    of the methods above. *)
Lemma link_attempt_in_no_links follow self source target w :
  link_attempt_in acl_missing follow self source target {| lw_links := ∅; lw_world := w |}
  = ((link_attempt acl_missing self source target w).1,
     {| lw_links := ∅; lw_world := (link_attempt acl_missing self source target w).2 |}).
Proof.
  unfold link_attempt_in, link_attempt, _unlock_in, _unlock, acl_unset, acl_append,
    acl_write_in, os_path_realpath, os_link_in, os_link, syscall, bindL, bind, lift,
    logging.
  cbn [lw_links lw_world]. rewrite !realpath_in_empty. unfold realpath.
  destruct (acl_write acl_missing _ _ true source _) as [[[]|e|] w1]; try done.
  cbn [lw_links lw_world]. rewrite fs_link_in_no_links, realpath_in_empty.
  unfold realpath. cbn [w_fs log_add].
  destruct (fs_link source target (w_fs w1)) as [[e|] fs2];
    cbn beta iota zeta delta [fst snd]; [done|].
  cbn [lw_links lw_world].
  destruct (Share_permissions acl_missing self _) as [[perms|e|] w3]; try done.
  cbn [lw_links lw_world]. rewrite realpath_in_empty. unfold realpath.
  by destruct (acl_write acl_missing _ _ false target w3) as [[[]|e|] w4].
Qed.

(** The [try] block on a source that leads, through links or not, to a
    linkable regular file, with a free, named target. *)
Lemma link_attempt_in_fresh follow self links alias target w i ino perms :
  let real := realpath_in links alias in
  wf (w_fs w) →
  links !! real = None →
  links !! target = None →
  ¬ nameless target →
  nodes (w_fs w) !! real = Some (NFile i) →
  inodes (w_fs w) !! i = Some ino →
  i_linkable ino = true →
  nodes (w_fs w) !! target = None →
  fs_isdir (w_fs w) (parent target) = true →
  nodes (w_fs w) !! directory self = Some (NDir perms) →
  ∃ w', link_attempt_in acl_missing follow self alias target
          {| lw_links := links; lw_world := w |}
          = (Ok tt, {| lw_links := links; lw_world := w' |}) ∧
    nodes (w_fs w') = <[target := NFile i]> (nodes (w_fs w)) ∧
    inodes (w_fs w') =
      <[i := {| st_nlink := S (st_nlink ino);
                i_acl := (list_difference (i_acl ino) (lock_acl self) ++ perms)%list;
                i_linkable := i_linkable ino |}]> (inodes (w_fs w)) ∧
    w_ops w' = (w_ops w ++ [EvAclUnset (lock_acl self) alias true;
                            EvLink real target;
                            EvAclAppend perms target false])%list.
Proof.
  intros real Hwf Hreal Htl Hnl Hs Hi Hl Ht Hp Hd.
  set (f1 := λ cur : AccessControlList, list_difference cur (lock_acl self)).
  pose proof (acl_modify_wf_file f1 true real (w_fs w) i Hwf Hs) as [Hn1 Hi1].
  set (fs1 := acl_modify f1 true real (w_fs w)) in *.
  set (ino1 := with_acl (f1 (i_acl ino)) ino).
  assert (Hi1' : inodes fs1 !! i = Some ino1).
  { by rewrite Hi1, lookup_alter_eq, Hi. }
  assert (Hlink : fs_link real target fs1
    = (None, set_inodes (insert i (with_nlink (S (st_nlink ino1)) ino1))
               (set_nodes (insert target (NFile i)) fs1))).
  { apply fs_link_spec; try done; try by rewrite Hn1.
    unfold fs_isdir in *. by rewrite Hn1. }
  set (fs2 := set_inodes (insert i (with_nlink (S (st_nlink ino1)) ino1))
               (set_nodes (insert target (NFile i)) fs1)) in *.
  assert (Hdt : target ≠ directory self) by (intros ->; congruence).
  assert (Hp2 : acl_of fs2 (directory self) = Some perms).
  { unfold acl_of, fs2. cbn [nodes set_inodes set_nodes].
    by rewrite lookup_insert_ne, Hn1, Hd by done. }
  assert (Ht2 : nodes fs2 !! target = Some (NFile i)).
  { unfold fs2. cbn [nodes set_inodes set_nodes]. by rewrite lookup_insert_eq. }
  assert (Hi2 : inodes fs2 !! i = Some (with_nlink (S (st_nlink ino1)) ino1)).
  { unfold fs2. cbn [inodes set_inodes set_nodes]. by rewrite lookup_insert_eq. }
  pose proof (acl_modify_file (λ cur, (cur ++ perms)%list) target fs2 i Ht2) as [Hn3 Hi3].
  eexists. split.
  { unfold link_attempt_in, _unlock_in, acl_write_in, os_path_realpath, os_link_in,
      bindL, lift, logging.
    cbn [lw_links lw_world]. fold real.
    erewrite acl_write_Ok by (cbn [w_fs log_add]; by eapply acl_of_file).
    cbn [lw_links lw_world w_fs op_add with_fs log_add]. fold f1 fs1.
    unfold fs_link_in. fold real. rewrite Hreal, Htl, Hlink.
    cbn [lw_links lw_world w_fs op_add with_fs log_add].
    unfold Share_permissions. erewrite from_file_Ok by (cbn [w_fs op_add with_fs]; exact Hp2).
    cbn [lw_links lw_world]. rewrite (realpath_in_not_link links target Htl).
    erewrite acl_write_Ok by (cbn [w_fs op_add with_fs]; by eapply acl_of_file).
    reflexivity. }
  cbn [w_fs w_ops op_add with_fs log_add]. split_and!.
  - rewrite Hn3. unfold fs2. cbn [nodes set_inodes set_nodes]. by rewrite Hn1.
  - rewrite Hi3. unfold fs2. cbn [inodes set_inodes set_nodes].
    rewrite alter_insert_eq, Hi1. apply map_eq. intros j.
    destruct (decide (j = i)) as [->|Hne].
    + by rewrite !lookup_insert_eq.
    + by rewrite !lookup_insert_ne, lookup_alter_ne.
  - by rewrite <- !app_assoc.
Qed.

(** [os.link] on a link that the platform does not follow: the new name is
    a link to the same path, and no file gains a hard link. *)
Lemma fs_link_in_link_itself alias t target links fs :
  links !! alias = Some t →
  links !! target = None →
  ¬ nameless target →
  nodes fs !! target = None →
  fs_isdir fs (parent target) = true →
  fs_link_in false alias target links fs = (None, (<[target := t]> links, fs)).
Proof.
  intros Ha Htl Hnl Ht Hp. unfold fs_link_in. rewrite Ha.
  rewrite decide_False by done.
  unfold fs_isdir in Hp. destruct (nodes fs !! parent target) as [[a|j]|]; try done.
  by rewrite Ht, Htl.
Qed.

(** C10. [_link_files] starts by taking the share's lock entries, recursively,
    out of the ACL of the source path: the source file's inode, outside the
    share, loses every entry of the lock ACL before any link exists; the next
    call is [os.link] from the real path of the source to the target.  On a
    well-formed file system with a linkable source and a free, named target the
    completed calls are exactly: unset on the source, link, append on the
    target.  Where symbolic links exist and the path handed in leads through
    them to the source file, the unset is issued on the path handed in, the
    [os.link] on the path it resolves to, and the target becomes a hard link
    of the source file, whether or not the platform's [os.link] follows
    links; [os.link] on a link itself, where it is not followed, would make
    the target a second name of the link and give no file a hard link. *)
Theorem C10_link_unlocks_source fuel self source target w i ino :
  nodes (w_fs w) !! source = Some (NFile i) →
  inodes (w_fs w) !! i = Some ino →
  (∃ w1,
    _unlock acl_missing self source w = (Ok tt, w1) ∧
    w_ops w1 = (w_ops w ++ [EvAclUnset (lock_acl self) source true])%list ∧
    (∃ ino1, inodes (w_fs w1) !! i = Some ino1 ∧
             i_acl ino1 = list_difference (i_acl ino) (lock_acl self) ∧
             ∀ e, e ∈ lock_acl self → e ∉ i_acl ino1) ∧
    _link_files acl_missing (S fuel) self source target w =
      try_except
        (logging DEBUG (MsgLinking source target) ;;;
         os_link (realpath source) target ;;;
         let* perms := Share_permissions acl_missing self in
         acl_append acl_missing perms target false)
        (link_handler acl_missing self target
           (_link_files acl_missing fuel self source target)) w1 ∧
    (∀ perms,
       wf (w_fs w) → i_linkable ino = true → ¬ nameless target →
       nodes (w_fs w) !! target = None →
       fs_isdir (w_fs w) (parent target) = true →
       nodes (w_fs w) !! directory self = Some (NDir perms) →
       ∃ w', _link_files acl_missing (S fuel) self source target w = (Ok tt, w') ∧
             nodes (w_fs w') !! target = Some (NFile i) ∧
             w_ops w' = (w_ops w ++ [EvAclUnset (lock_acl self) source true;
                                     EvLink (realpath source) target;
                                     EvAclAppend perms target false])%list)) ∧
  (∀ follow links alias perms,
     realpath_in links alias = source →
     links !! source = None → links !! target = None →
     wf (w_fs w) → i_linkable ino = true → ¬ nameless target →
     nodes (w_fs w) !! target = None →
     fs_isdir (w_fs w) (parent target) = true →
     nodes (w_fs w) !! directory self = Some (NDir perms) →
     ∃ w', link_attempt_in acl_missing follow self alias target
             {| lw_links := links; lw_world := w |}
             = (Ok tt, {| lw_links := links; lw_world := w' |}) ∧
           nodes (w_fs w') !! target = Some (NFile i) ∧
           inodes (w_fs w') !! i =
             Some {| st_nlink := S (st_nlink ino);
                     i_acl := (list_difference (i_acl ino) (lock_acl self) ++ perms)%list;
                     i_linkable := i_linkable ino |} ∧
           w_ops w' = (w_ops w ++ [EvAclUnset (lock_acl self) alias true;
                                   EvLink source target;
                                   EvAclAppend perms target false])%list) ∧
  (∀ links alias,
     links !! alias = Some source → links !! target = None →
     ¬ nameless target → nodes (w_fs w) !! target = None →
     fs_isdir (w_fs w) (parent target) = true →
     fs_link_in false alias target links (w_fs w)
       = (None, (<[target := source]> links, w_fs w))).
Proof.
  intros Hs Hi. split_and!.
  - eexists. split; [by eapply unlock_file|].
    cbn [w_fs w_ops op_add with_fs log_add]. split_and!.
    + done.
    + rewrite acl_modify_inodes, Hi. simpl. unfold rewrite_inode.
      rewrite decide_True.
      * eexists. split; [done|]. simpl. split; [done|].
        intros e He Hin. apply list_elem_of_difference in Hin as [_ Hin]. done.
      * unfold reaches. apply map_Exists_lookup. exists source, (NFile i). done.
    + rewrite link_files_unfold. unfold link_attempt.
      erewrite try_except_bind_Ok; [done|]. by eapply unlock_file.
    + intros perms Hwf Hl Hnl Ht Hp Hd.
      destruct (link_files_fresh fuel self source target w i ino perms)
        as (w' & -> & Hn & _ & _ & Hops); try done.
      eexists. split; [done|]. split; [|done].
      rewrite Hn. apply lookup_insert_eq.
  - intros follow links alias perms Hreal Hsl Htl Hwf Hl Hnl Ht Hp Hd.
    destruct (link_attempt_in_fresh follow self links alias target w i ino perms)
      as (w' & Hrun & Hn & Hino & Hops); try done; try by rewrite Hreal.
    rewrite Hreal in Hops. exists w'. split; [exact Hrun|]. split_and!.
    + rewrite Hn. apply lookup_insert_eq.
    + rewrite Hino. apply lookup_insert_eq.
    + exact Hops.
  - intros links alias Ha Htl Hnl Ht Hp. by apply fs_link_in_link_itself.
Qed.

(** ** The remaining claims on [add] and [self_destruct] *)

(** C3. Adding a directory a second time, right after the first.  On a
    well-formed file system where the share directory exists, the name of
    directory [D] is free in it, the share does not lie inside the tree of
    [D], every file of the tree may be hard-linked and the fuel exceeds the
    depth of the tree: the first [add] ends normally and leaves the mirror of
    [D] in the share.  The second [add] finds the mirror in place: its first
    duplication fails with [FileExistsError] for the mirror, having changed
    nothing; it goes on as un-sharing the mirror, without force, and
    duplicating again, and ends normally.  The directory entries after the
    second call are exactly those after the first: the same paths, the same
    files, the same directories. *)
Theorem C3_add_directory_idempotent fuel self D w perms :
  wf (w_fs w) →
  nodes (w_fs w) !! directory self = Some (NDir perms) →
  fs_isdir (w_fs w) D = true →
  basename D ≠ "" →
  nodes (w_fs w) !! (directory self ++ [basename D])%list = None →
  ¬ D `prefix_of` directory self →
  (∀ s i ino, nodes (w_fs w) !! (D ++ s)%list = Some (NFile i) →
              inodes (w_fs w) !! i = Some ino → i_linkable ino = true) →
  (∀ s, is_Some (nodes (w_fs w) !! (D ++ s)%list) → (length s < fuel)%nat) →
  let mirror := (directory self ++ [basename D])%list in
  ∃ w1 w2,
    add acl_missing fuel self [D] w = (Ok tt, w1) ∧
    holds_mirror perms D mirror (w_fs w) (w_fs w1) ∧
    (∃ wa, _duplicate_as_linked_tree acl_missing fuel self D w1
             = (Raise (FileExistsError mirror), wa) ∧
           w_fs wa = w_fs w1 ∧ w_ops wa = w_ops w1) ∧
    (∃ wb, same_run w1 wb ∧
           add acl_missing fuel self [D] w1
             = (_unshare_linked_tree acl_missing fuel self mirror false ;;;
                _duplicate_as_linked_tree acl_missing fuel self D) wb) ∧
    add acl_missing fuel self [D] w1 = (Ok tt, w2) ∧
    nodes (w_fs w2) = nodes (w_fs w1) ∧
    holds_mirror perms D mirror (w_fs w) (w_fs w2).
Proof.
  intros Hwf HS HD Hb HM HDS Hlk Hfuel mirror.
  destruct (add_directory_again fuel self D w perms)
    as (w1 & w2 & Hadd1 & Hadd2 & _ & Hn & Hm2); try done.
  destruct (duplicate_mirrors fuel self D w perms)
    as [_ (w1' & Hadd1' & Hwf1 & Hm1)]; try done.
  assert (w1' = w1) as -> by congruence.
  fold mirror in Hm1, Hm2.
  assert (HDsome : is_Some (nodes (w_fs w) !! D)).
  { unfold fs_isdir in HD. destruct (nodes (w_fs w) !! D); [by eexists|done]. }
  pose proof (mirror_apart _ (directory self) D (basename D) Hwf HDsome HM HDS) as HDM.
  fold mirror in HDM.
  assert (HD1 : fs_isdir (w_fs w1) D = true).
  { unfold fs_isdir in *. erewrite holds_mirror_outside; [exact HD|exact Hm1|].
    pose proof (not_prefix_apart D mirror HDM []) as Hout.
    by rewrite app_nil_r in Hout. }
  assert (HM1 : is_Some (nodes (w_fs w1) !! join (directory self) (basename D))).
  { rewrite join_snoc by done. fold mirror.
    pose proof (holds_mirror_inside _ _ _ _ _ [] Hm1) as H0.
    rewrite !app_nil_r in H0. rewrite H0. destruct HDsome as [nd ->]. by eexists. }
  destruct (add_existing_mirror fuel self D w1 Hwf1 HD1 HM1) as [Hfail Hretry].
  rewrite join_snoc in Hfail, Hretry by done. fold mirror in Hfail, Hretry.
  exists w1, w2. done.
Qed.







(** ** The order of un-sharing *)

Lemma bottom_up_nil : bottom_up [].
Proof. intros t1 p t2 Heq. by destruct t1. Qed.

Lemma bottom_up_single ev : bottom_up [ev].
Proof.
  intros t1 p t2 Heq. destruct t1 as [|e1 t1].
  - injection Heq as _ <-. constructor.
  - injection Heq as _ Heq. by destruct t1.
Qed.

Global Instance unsharing_preorder : PreOrder unsharing.
Proof.
  split.
  - intros w Hwf. split; [done|]. split; [by eauto|].
    exists []. rewrite app_nil_r. split; [done|]. split; [constructor|].
    split; [intros k nd Hk Hn; congruence|].
    split; [intros p Hp; by apply not_elem_of_nil in Hp|apply bottom_up_nil].
  - intros w1 w2 w3 H12 H23 Hwf1.
    destruct (H12 Hwf1) as (Hwf2 & Hk12 & t12 & Ho12 & Hr12 & Ha12 & Hg12 & Hb12).
    destruct (H23 Hwf2) as (Hwf3 & Hk23 & t23 & Ho23 & Hr23 & Ha23 & Hg23 & Hb23).
    assert (Hgone2 : ∀ p, EvRmdir p ∈ t12 → ∀ ev, ev ∈ t23 → ¬ p `prefix_of` written ev).
    { intros p Hp ev Hev [s Hs].
      rewrite Forall_forall in Hr23. destruct (Hr23 ev Hev) as [_ [nd Hnd]].
      rewrite Hs, (Hg12 p Hp s) in Hnd. done. }
    split; [done|]. split.
    { intros k nd3 Hk3. destruct (Hk23 k nd3 Hk3) as (nd2 & Hk2 & Hd2).
      destruct (Hk12 k nd2 Hk2) as (nd1 & Hk1 & Hd1). exists nd1. split; congruence. }
    exists (t12 ++ t23)%list. split; [by rewrite Ho23, Ho12, <- app_assoc|].
    split_and!.
    + apply Forall_app. split; [done|].
      eapply Forall_impl; [exact Hr23|]. intros ev [Hrem [nd2 Hnd2]]. split; [done|].
      destruct (Hk12 _ _ Hnd2) as (nd1 & Hnd1 & _). by eexists.
    + intros k nd Hk1 Hk3. apply elem_of_app.
      destruct (nodes (w_fs w2) !! k) as [nd2|] eqn:Hk2.
      * right. destruct (Hk12 k nd2 Hk2) as (nd1 & Hk1' & Hd).
        assert (nd1 = nd) as -> by congruence. rewrite Hd. by apply Ha23.
      * left. by apply Ha12.
    + intros p Hp s. apply elem_of_app in Hp as [Hp|Hp]; [|by apply Hg23].
      destruct (nodes (w_fs w3) !! (p ++ s)%list) as [nd3|] eqn:Hk3; [|done].
      destruct (Hk23 _ _ Hk3) as (nd2 & Hk2 & _). by rewrite (Hg12 p Hp s) in Hk2.
    + intros t1 p t2 Heq. apply app_eq_inv in Heq as [(k & -> & Heq)|(k & -> & Heq)].
      * (* the removal is in the second part *)
        destruct k as [|e k].
        -- rewrite app_nil_r in *. cbn in Heq. subst t23. by apply (Hb23 [] p t2).
        -- injection Heq as <- ->.
           apply Forall_app. split.
           ++ by apply (Hb12 t1 p k).
           ++ apply Forall_forall. intros ev Hev. apply (Hgone2 p); [|done].
              apply elem_of_app. right. by left.
      * by apply (Hb23 k p t2).
Qed.

Lemma unsharing_same w w' :
  w_fs w' = w_fs w → w_ops w' = w_ops w → unsharing w w'.
Proof.
  intros Hfs Hops Hwf. rewrite Hfs, Hops. split; [done|]. split; [by eauto|].
  exists []. rewrite app_nil_r. split; [done|]. split; [constructor|].
  split; [intros k nd Hk Hn; congruence|].
  split; [intros p Hp; by apply not_elem_of_nil in Hp|apply bottom_up_nil].
Qed.

Lemma unsharing_logging lv m : preserves unsharing (logging lv m).
Proof. intros w. by apply unsharing_same. Qed.

Lemma unsharing_from_file p : preserves unsharing (from_file acl_missing p).
Proof.
  apply (preserves_bind unsharing); [by apply (preserves_get_fs unsharing)|].
  intros fs. unfold missing.
  destruct (acl_of fs p), acl_missing;
    by first [apply (preserves_ret unsharing) | apply (preserves_raise unsharing)].
Qed.

(** One completed call of un-sharing on an entry that exists. *)
Lemma unsharing_one w fs' ev :
  wf fs' →
  removal ev →
  is_Some (nodes (w_fs w) !! written ev) →
  (∀ k nd', nodes fs' !! k = Some nd' →
     ∃ nd, nodes (w_fs w) !! k = Some nd ∧ is_dir_node nd = is_dir_node nd') →
  (∀ k nd, nodes (w_fs w) !! k = Some nd → nodes fs' !! k = None →
     ev = if is_dir_node nd then EvRmdir k else EvUnlink k) →
  (∀ p, ev = EvRmdir p → ∀ s, nodes fs' !! (p ++ s)%list = None) →
  unsharing w (op_add ev (with_fs fs' w)).
Proof.
  intros Hwf' Hrem Hex Hkind Hgone Hbelow Hwf. cbn [w_fs w_ops op_add with_fs].
  split; [done|]. split; [done|]. exists [ev]. split; [done|]. split_and!.
  - by repeat constructor.
  - intros k nd Hk Hn. rewrite <- (Hgone k nd Hk Hn). by left.
  - intros p Hp. apply list_elem_of_singleton in Hp. by apply Hbelow.
  - apply bottom_up_single.
Qed.

Lemma wf_empty_below fs p :
  wf fs → listdir fs p = [] → ∀ s, s ≠ [] → nodes fs !! (p ++ s)%list = None.
Proof.
  intros Hwf Hl s Hs. destruct s as [|n s]; [done|].
  destruct (decide (n = "")) as [->|Hn].
  - destruct (nodes fs !! (p ++ "" :: s)%list) eqn:Hk; [|done].
    replace (p ++ "" :: s)%list with ((p ++ [""]) ++ s)%list in Hk
      by (by rewrite <- app_assoc).
    destruct (wf_ancestor fs (p ++ [""])%list s Hwf) as [Hd| ->]; [by eexists| |].
    + unfold fs_isdir in Hd.
      destruct (nodes fs !! (p ++ [""])%list) eqn:Hq; [|done].
      by destruct (wf_parent _ Hwf p "" (mk_is_Some _ _ Hq)).
    + rewrite app_nil_r in Hk. by destruct (wf_parent _ Hwf p "" (mk_is_Some _ _ Hk)).
  - replace (p ++ n :: s)%list with ((p ++ [n]) ++ s)%list by (by rewrite <- app_assoc).
    apply wf_below_absent; [done|]. by apply listdir_nil.
Qed.

Lemma unsharing_os_unlink p : preserves unsharing (os_unlink p).
Proof.
  apply (preserves_syscall unsharing).
  - intros w fs' Hf Hwf.
    assert (Hwf' : wf fs').
    { pose proof (wf_unlink_any p _ Hwf) as H. by rewrite Hf in H. }
    generalize Hwf. apply unsharing_one; try done.
    + unfold fs_unlink in Hf. cbn [written].
      destruct (nodes (w_fs w) !! p); [by eexists|done].
    + intros k nd' Hk. destruct (decide (k = p)) as [->|Hne].
      * unfold fs_unlink in Hf. destruct (nodes (w_fs w) !! p) as [[a|i]|]; try done.
        injection Hf as <-. cbn [nodes set_inodes set_nodes] in Hk.
        by rewrite lookup_delete_eq in Hk.
      * pose proof (nodes_unlink_other p (w_fs w) k Hne) as Ho. rewrite Hf in Ho.
        cbn [snd] in Ho. rewrite Ho in Hk. eauto.
    + intros k nd Hk Hn. destruct (decide (k = p)) as [->|Hne].
      * unfold fs_unlink in Hf. rewrite Hk in Hf. by destruct nd.
      * pose proof (nodes_unlink_other p (w_fs w) k Hne) as Ho. rewrite Hf in Ho.
        cbn [snd] in Ho. congruence.
  - intros w e fs' Hf. apply unsharing_same; [|done]. cbn [w_fs with_fs].
    unfold fs_unlink in Hf. by destruct (nodes (w_fs w) !! p) as [[a|i]|]; simplify_eq.
Qed.

Lemma unsharing_os_rmdir p : preserves unsharing (os_rmdir p).
Proof.
  apply (preserves_syscall unsharing).
  - intros w fs' Hf Hwf.
    assert (Hwf' : wf fs').
    { pose proof (wf_rmdir_any p _ Hwf) as H. by rewrite Hf in H. }
    destruct (fs_rmdir_spec _ _ _ Hf) as (Hd & Hl & ->).
    generalize Hwf. apply unsharing_one; try done.
    + cbn [written]. unfold fs_isdir in Hd.
      destruct (nodes (w_fs w) !! p); [by eexists|done].
    + intros k nd' Hk. cbn [nodes set_nodes] in Hk.
      apply lookup_delete_Some in Hk as [_ Hk]. eauto.
    + intros k nd Hk Hn. cbn [nodes set_nodes] in Hn.
      apply lookup_delete_None in Hn as [->|Hn]; [|congruence].
      unfold fs_isdir in Hd. rewrite Hk in Hd. by destruct nd.
    + intros q [= <-] s. cbn [nodes set_nodes].
      destruct (decide (s = [])) as [->|Hs].
      * rewrite app_nil_r. by rewrite lookup_delete_eq.
      * rewrite lookup_delete_ne.
        -- by apply wf_empty_below.
        -- intros Heq. apply (f_equal length) in Heq. rewrite length_app in Heq.
           destruct s; [done|]. cbn in Heq. lia.
  - intros w e fs' Hf. apply unsharing_same; [|done]. cbn [w_fs with_fs].
    unfold fs_rmdir in Hf. destruct (nodes (w_fs w) !! p) as [[a|i]|]; simplify_eq; try done.
    destruct (listdir (w_fs w) p); simplify_eq; [|done]. by case_decide; simplify_eq.
Qed.

Lemma unsharing_acl_set a target : preserves unsharing (acl_set acl_missing a target).
Proof.
  intros w. unfold acl_set, acl_write. mstep.
  destruct (acl_of (w_fs w) target) as [cur|] eqn:Hacl.
  - erewrite syscall_Ok by reflexivity. cbn [snd].
    intros Hwf. generalize Hwf. apply unsharing_one; try done.
    + by apply wf_acl_modify.
    + cbn [written]. unfold acl_of in Hacl.
      destruct (nodes (w_fs w) !! target); [by eexists|done].
    + intros k nd' Hk. rewrite acl_modify_nodes in Hk.
      destruct (nodes (w_fs w) !! k) as [nd|] eqn:Hnd; [|done].
      injection Hk as <-. exists nd. split; [done|]. destruct nd; cbn; [|done].
      by case_decide.
    + intros k nd Hk Hn. rewrite acl_modify_nodes, Hk in Hn. done.
  - unfold missing. destruct acl_missing; reflexivity.
Qed.

Lemma unsharing_unshare_file self target force :
  preserves unsharing (_unshare_file acl_missing self target force).
Proof.
  set (R := unsharing).
  apply (preserves_bind R); [apply unsharing_logging|]. intros _.
  apply (preserves_bind R).
  { apply (preserves_if R); [|by apply (preserves_ret R)].
    apply (preserves_bind R).
    { apply (preserves_bind R); [by apply (preserves_get_fs R)|]. intros fs.
      destruct (fs_stat_nlink fs target);
        [by apply (preserves_raise R) | by apply (preserves_ret R)]. }
    intros n. case_decide; [|by apply (preserves_ret R)].
    apply (preserves_bind R); [apply unsharing_logging|]. intros _.
    by apply (preserves_raise R). }
  intros _.
  apply (preserves_bind R); [apply unsharing_from_file|]. intros cur.
  apply (preserves_bind R); [apply unsharing_from_file|]. intros perms.
  apply (preserves_bind R); [apply unsharing_logging|]. intros _.
  apply (preserves_bind R); [apply unsharing_acl_set|]. intros _.
  apply unsharing_os_unlink.
Qed.

Lemma unsharing_unshare_linked_tree fuel self dir force :
  preserves unsharing (_unshare_linked_tree acl_missing fuel self dir force).
Proof.
  set (R := unsharing).
  apply (preserves_bind R); [apply unsharing_logging|]. intros _.
  apply (preserves_bind R); [ |intros _; apply unsharing_os_rmdir].
  apply (preserves_os_walk_bottomup R). intros root dirs nondirs _.
  apply (preserves_bind R); [ |intros _].
  - apply (preserves_for_each R). intros f _. apply unsharing_unshare_file.
  - apply (preserves_for_each R). intros d _.
    apply (preserves_bind R); [apply unsharing_logging|]. intros _.
    apply unsharing_os_rmdir.
Qed.

End share_facts.

(** * Instances on the example file systems *)

Lemma C1_unshare_file_guard_witness :
  let ino := {| st_nlink := 1; i_acl := [group_r]; i_linkable := true |} in
  (∃ w', _unshare_file None ex_share ["s"; "stale"] false ex_world
           = (Raise (FileNotFoundError (OneHardLink ["s"; "stale"])), w') ∧
         w_fs w' = w_fs ex_world ∧ w_ops w' = w_ops ex_world) ∧
  (∃ w', _unshare_file None ex_share ["s"; "stale"] true ex_world = (Ok tt, w') ∧
         nodes (w_fs w') !! ["s"; "stale"] = None ∧
         inodes (w_fs w') !! 2 = None ∧
         w_ops w' = [EvAclSet [group_r] ["s"; "stale"]; EvUnlink ["s"; "stale"]]).
Proof.
  intros ino.
  assert (Hn : nodes (w_fs ex_world) !! ["s"; "stale"] = Some (NFile 2))
    by (vm_compute; reflexivity).
  assert (Hi : inodes (w_fs ex_world) !! 2 = Some ino) by (vm_compute; reflexivity).
  assert (Hp : acl_of (w_fs ex_world) (directory ex_share) = Some [owner_rw])
    by (vm_compute; reflexivity).
  split.
  - exact (proj1 (C1_unshare_file_guard None ex_share ["s"; "stale"] false ex_world
                    2 ino [owner_rw] Hn Hi Hp) eq_refl eq_refl).
  - exact (proj2 (C1_unshare_file_guard None ex_share ["s"; "stale"] true ex_world
                    2 ino [owner_rw] Hn Hi Hp) (or_introl eq_refl)).
Defined.

Lemma C7_share_construction_witness :
  fs_isfile (w_fs ex_world) ["data"; "f.txt"] = true ∧
  (∃ w', __init__ ["data"; "f.txt"] true ex_world
           = (Raise (IllegalShareSetupError ["data"; "f.txt"]), w') ∧
         w_fs w' = w_fs ex_world ∧ w_ops w' = w_ops ex_world) ∧
  (∃ w', __init__ ["fresh"] false ex_world
           = (Ok {| directory := ["fresh"]; lock_acl := [lock_ace] |}, w') ∧
         nodes (w_fs w') = <[["fresh"] := NDir [owner_rw]]> (nodes ex_fs) ∧
         inodes (w_fs w') = inodes ex_fs).
Proof.
  split; [reflexivity|]. split.
  - apply (proj1 (C7_share_construction ["data"; "f.txt"] true ex_world)).
    reflexivity.
  - destruct (C7_share_construction ["fresh"] false ex_world) as [_ H].
    destruct (H eq_refl) as [_ H'].
    apply (proj1 (H' [] "fresh" eq_refl ltac:(discriminate) eq_refl)).
    vm_compute. reflexivity.
Defined.

Lemma C6_lock_unlock_witness :
  lock_acl ex_share = [lock_ace] ∧
  acl_of (w_fs ex_world) (directory ex_share) = Some [owner_rw] ∧
  ∃ wl wlu,
    lock None ex_share ex_world = (Ok tt, wl) ∧
    unlock None ex_share wl = (Ok tt, wlu) ∧
    acl_of (w_fs wl) ["s"; "f.txt"] = Some [group_r; owner_rw; lock_ace] ∧
    acl_of (w_fs wlu) ["s"; "f.txt"] = Some [group_r; owner_rw].
Proof.
  split; [reflexivity|]. split; [vm_compute; reflexivity|].
  destruct (C6_lock_unlock None ex_share ex_world [owner_rw] eq_refl)
    as (_ & _ & _ & wl & wu & wlu & Hl & _ & Hlu & _).
  { vm_compute. reflexivity. }
  exists wl, wlu. split; [exact Hl|]. split; [exact Hlu|].
  assert (Hwl : wl = (lock None ex_share ex_world).2) by (by rewrite Hl).
  assert (Hwlu : wlu = (unlock None ex_share (lock None ex_share ex_world).2).2).
  { rewrite <- Hwl. by rewrite Hlu. }
  rewrite Hwl, Hwlu. split; vm_compute; reflexivity.
Defined.

Lemma add_nothing_to_handle_witness :
  ∃ w' l, add None 0 ex_share [["nowhere"]; ["gone"]; ["nowhere"]] ex_world = (Ok tt, w') ∧
    w_fs w' = ex_fs ∧ w_ops w' = [] ∧
    w_log w' = (DEBUG, MsgAdding ["s"] [["nowhere"]; ["gone"]; ["nowhere"]]) :: l ∧
    l ≡ₚ [(ERROR, MsgUnhandled ["nowhere"]); (ERROR, MsgUnhandled ["gone"])].
Proof.
  destruct (add_nothing_to_handle None 0 ex_share [["nowhere"]; ["gone"]; ["nowhere"]]
              ex_world) as (w' & l & Hrun & Hfs & Hops & Hlog & Hl).
  { intros i Hi. repeat (apply elem_of_cons in Hi as [->|Hi]).
    4: by apply not_elem_of_nil in Hi.
    all: split; vm_compute; reflexivity. }
  exists w', l. split; [exact Hrun|]. split; [exact Hfs|]. split; [exact Hops|].
  split; [exact Hlog|]. rewrite Hl. apply perm_swap.
Defined.

Lemma unshare_linked_tree_outcomes_witness :
  (∃ w', _unshare_linked_tree None 1 ex_share ["gone"] false ex_world
           = (Raise (FileNotFoundError (Enoent ["gone"])), w') ∧
         w_fs w' = ex_fs ∧ w_ops w' = []) ∧
  (∃ w', _unshare_linked_tree None 1 ex_share ["data"; "f.txt"] false ex_world
           = (Raise (NotADirectoryError ["data"; "f.txt"]), w') ∧
         w_fs w' = ex_fs ∧ w_ops w' = []) ∧
  (let w' := (_unshare_linked_tree None 2 ex_share ["s"] true ex_world).2 in
   nodes (w_fs w') !! ["s"] = None ∧ ∃ t, w_ops w' = (t ++ [EvRmdir ["s"]])%list).
Proof.
  destruct (unshare_linked_tree_outcomes None 0 ex_share ["gone"] false ex_world)
    as (H1 & _ & _).
  destruct (unshare_linked_tree_outcomes None 0 ex_share ["data"; "f.txt"] false ex_world)
    as (_ & H2 & _).
  destruct (unshare_linked_tree_outcomes None 2 ex_share ["s"] true ex_world)
    as (_ & _ & H3).
  split; [apply H1; vm_compute; reflexivity|].
  split; [apply (H2 1); vm_compute; reflexivity|].
  intros w'. apply H3. vm_compute. reflexivity.
Defined.

Lemma makedir_outcomes_witness :
  (∃ w', _makedir None ex_share ["s"; "sub"] ex_world = (Ok tt, w') ∧
     nodes (w_fs w') = <[["s"; "sub"] := NDir [owner_rw]]> (nodes ex_fs) ∧
     inodes (w_fs w') = inodes ex_fs ∧
     w_ops w' = [EvMakedirs ["s"; "sub"]; EvAclSet [owner_rw] ["s"; "sub"]]) ∧
  (∃ w', _makedir None ex_share ["s"; "f.txt"] ex_world
           = (Raise (FileExistsError ["s"; "f.txt"]), w') ∧
     w_fs w' = ex_fs ∧ w_ops w' = []).
Proof.
  assert (Hp : fs_isdir (w_fs ex_world) ["s"] = true) by (vm_compute; reflexivity).
  assert (Ha : acl_of (w_fs ex_world) (directory ex_share) = Some [owner_rw])
    by (vm_compute; reflexivity).
  split.
  - destruct (makedir_outcomes None ex_share ["s"] "sub" ex_world [owner_rw])
      as [H _]; [discriminate|exact Hp|exact Ha|].
    apply H. vm_compute. reflexivity.
  - destruct (makedir_outcomes None ex_share ["s"] "f.txt" ex_world [owner_rw])
      as [_ H]; [discriminate|exact Hp|exact Ha|].
    apply H. eexists. vm_compute. reflexivity.
Defined.

Lemma add_existing_mirror_witness :
  (∃ w1, _duplicate_as_linked_tree None 5 ex_share ["data"] ex_mirrored_world
           = (Raise (FileExistsError ["s"; "data"]), w1) ∧
         w_fs w1 = ex_mirrored ∧ w_ops w1 = []) ∧
  (∃ w2, same_run ex_mirrored_world w2 ∧
         add None 5 ex_share [["data"]] ex_mirrored_world
           = (_unshare_linked_tree None 5 ex_share ["s"; "data"] false ;;;
              _duplicate_as_linked_tree None 5 ex_share ["data"]) w2).
Proof.
  apply (add_existing_mirror None 5 ex_share ["data"] ex_mirrored_world).
  - apply wf_of_check. vm_compute. reflexivity.
  - vm_compute. reflexivity.
  - eexists. vm_compute. reflexivity.
Defined.

Lemma link_files_permission_error_witness :
  ∃ w', _link_files None 1 ex_share ["data"; "ro.txt"] ["s"; "ro.txt"] ex_protected_world
          = (Ok tt, w') ∧
    nodes (w_fs w') = nodes ex_protected ∧
    inodes (w_fs w') !! 3
      = Some {| st_nlink := 1; i_acl := [group_r]; i_linkable := false |} ∧
    w_ops w' = [EvAclUnset [lock_ace] ["data"; "ro.txt"] true] ∧
    w_log w' = [(DEBUG, MsgUnlocking ["data"; "ro.txt"]);
                (DEBUG, MsgLinking ["data"; "ro.txt"] ["s"; "ro.txt"]);
                (ERROR, MsgInsufficient ["data"; "ro.txt"] [])].
Proof.
  destruct (link_files_permission_error None 0 ex_share ["data"; "ro.txt"] ["s"; "ro.txt"]
              ex_protected_world 3
              {| st_nlink := 1; i_acl := [group_r; lock_ace]; i_linkable := false |})
    as (w' & Hrun & Hn & Hi & Hops & Hlog).
  - apply wf_of_check. vm_compute. reflexivity.
  - vm_compute. discriminate.
  - vm_compute. reflexivity.
  - vm_compute. reflexivity.
  - reflexivity.
  - vm_compute. reflexivity.
  - vm_compute. reflexivity.
  - exists w'. split; [exact Hrun|]. split; [exact Hn|]. split.
    + rewrite Hi. vm_compute. reflexivity.
    + split; [exact Hops|]. exact (Hlog eq_refl).
Defined.

Lemma link_files_target_last_link_witness :
  ∃ w', _link_files None 1 ex_share ["data"; "f.txt"] ["s"; "stale"] ex_world
          = (Raise (FileNotFoundError (OneHardLink ["s"; "stale"])), w') ∧
    nodes (w_fs w') = nodes ex_fs ∧
    nodes (w_fs w') !! ["s"; "stale"] = Some (NFile 2) ∧
    w_ops w' = [EvAclUnset [lock_ace] ["data"; "f.txt"] true].
Proof.
  destruct (link_files_target_last_link None 0 ex_share ["data"; "f.txt"] ["s"; "stale"]
              ex_world 1 2 {| st_nlink := 1; i_acl := [group_r]; i_linkable := true |})
    as (w' & Hrun & Hn & _ & Hops).
  - apply wf_of_check. vm_compute. reflexivity.
  - vm_compute. reflexivity.
  - vm_compute. reflexivity.
  - vm_compute. reflexivity.
  - vm_compute. reflexivity.
  - reflexivity.
  - exists w'. split; [exact Hrun|]. split; [exact Hn|]. split; [|exact Hops].
    rewrite Hn. vm_compute. reflexivity.
Defined.

Lemma link_files_target_replaced_witness :
  ∃ w', _link_files None 2 ex_share ["data"; "f.txt"] ["s"; "f.txt"] ex_world
          = (Ok tt, w') ∧
    nodes (w_fs w') = nodes ex_fs ∧
    w_ops w' = [EvAclUnset [lock_ace] ["data"; "f.txt"] true;
                EvAclSet [group_r] ["s"; "f.txt"];
                EvUnlink ["s"; "f.txt"];
                EvAclUnset [lock_ace] ["data"; "f.txt"] true;
                EvLink ["data"; "f.txt"] ["s"; "f.txt"];
                EvAclAppend [owner_rw] ["s"; "f.txt"] false] ∧
    ∃ ino', inodes (w_fs w') !! 1 = Some ino' ∧ st_nlink ino' = 2.
Proof.
  destruct (link_files_target_replaced None 0 ex_share ["data"; "f.txt"] ["s"; "f.txt"]
              ex_world
              1 {| st_nlink := 2; i_acl := [group_r; owner_rw]; i_linkable := true |}
              1 {| st_nlink := 2; i_acl := [group_r; owner_rw]; i_linkable := true |}
              [owner_rw])
    as (w' & Hrun & Hn & Hops & Hi & _).
  - apply wf_of_check. vm_compute. reflexivity.
  - discriminate.
  - vm_compute. reflexivity.
  - vm_compute. reflexivity.
  - reflexivity.
  - vm_compute. reflexivity.
  - vm_compute. reflexivity.
  - vm_compute. discriminate.
  - vm_compute. reflexivity.
  - vm_compute. reflexivity.
  - exists w'. split; [exact Hrun|]. split.
    + rewrite Hn. vm_compute. reflexivity.
    + split; [exact Hops|]. exact Hi.
Defined.

Lemma no_last_link_lost_witness :
  (∃ p', nodes (w_fs (add None 3 ex_share [["data"]] ex_world).2) !! p' = Some (NFile 2)) ∧
  (∃ p', nodes (w_fs (self_destruct None 3 ex_share false ex_world).2) !! p'
         = Some (NFile 2)).
Proof.
  apply (no_last_link_lost None 3 ex_share [["data"]] ex_world ["s"; "stale"] 2).
  - apply wf_of_check. vm_compute. reflexivity.
  - vm_compute. reflexivity.
Defined.

Lemma add_file_then_self_destruct_witness :
  ∃ w1 w2,
    add None 1 ex_share [["data"; "f.txt"]] ex_empty_share_world = (Ok tt, w1) ∧
    self_destruct None 1 ex_share false w1 = (Ok tt, w2) ∧
    nodes (w_fs w2) = delete ["s"] (nodes ex_empty_share) ∧
    inodes (w_fs w2) !! 1
      = Some {| st_nlink := 1; i_acl := [group_r]; i_linkable := true |}.
Proof.
  destruct (add_file_then_self_destruct None 0 ex_share ["data"] "f.txt"
              ex_empty_share_world 1
              {| st_nlink := 1; i_acl := [group_r; owner_rw; lock_ace];
                 i_linkable := true |} [owner_rw])
    as (w1 & w2 & Hadd & _ & _ & Hsd & Hn2 & Hi2 & _).
  - apply wf_of_check. vm_compute. reflexivity.
  - discriminate.
  - vm_compute. reflexivity.
  - vm_compute. reflexivity.
  - vm_compute. reflexivity.
  - vm_compute. reflexivity.
  - reflexivity.
  - exists w1, w2. split; [exact Hadd|]. split; [exact Hsd|]. split; [exact Hn2|].
    rewrite Hi2. vm_compute. reflexivity.
Defined.

Lemma duplicate_mirrors_witness :
  ∃ w', add None 4 ex_share [["data"]] ex_tree_world = (Ok tt, w') ∧
    nodes (w_fs w') !! ["s"; "data"] = Some (NDir [group_r]) ∧
    nodes (w_fs w') !! ["s"; "data"; "f.txt"] = Some (NFile 1) ∧
    nodes (w_fs w') !! ["s"; "data"; "sub"] = Some (NDir [group_r]) ∧
    nodes (w_fs w') !! ["s"; "data"; "sub"; "g.txt"] = Some (NFile 2) ∧
    nodes (w_fs w') !! ["s"; "data"; "other"] = None ∧
    nodes (w_fs w') !! ["data"; "sub"] = Some (NDir [owner_rw]).
Proof.
  destruct (duplicate_mirrors None 4 ex_share ["data"] ex_tree_world [group_r])
    as [_ (w' & Hrun & _ & Hm)].
  - apply wf_of_check. vm_compute. reflexivity.
  - vm_compute. reflexivity.
  - vm_compute. reflexivity.
  - vm_compute. discriminate.
  - vm_compute. reflexivity.
  - intros [t Ht]. discriminate Ht.
  - apply linkable_of_check. vm_compute. reflexivity.
  - apply depth_of_check. vm_compute. reflexivity.
  - exists w'. split; [exact Hrun|].
    rewrite !(Hm _). vm_compute. repeat split.
Defined.

Lemma unshare_tree_removes_witness :
  ∃ w', self_destruct None 4 ex_share false ex_mirrored_world = (Ok tt, w') ∧
    nodes (w_fs w') !! ["s"] = None ∧
    nodes (w_fs w') !! ["s"; "data"] = None ∧
    nodes (w_fs w') !! ["s"; "data"; "f.txt"] = None ∧
    nodes (w_fs w') !! ["data"; "f.txt"] = Some (NFile 1) ∧
    inodes_kept ex_mirrored (w_fs w').
Proof.
  destruct (unshare_tree_removes None 4 ex_share ["s"] false ex_mirrored_world [owner_rw])
    as (w' & _ & Hsd & _ & Hrem & Hkept).
  - apply wf_of_check. vm_compute. reflexivity.
  - discriminate.
  - vm_compute. reflexivity.
  - vm_compute. reflexivity.
  - intros s Hs Heq. destruct s; [done|discriminate].
  - right. apply linked_outside_of_check. vm_compute. reflexivity.
  - apply depth_of_check. vm_compute. reflexivity.
  - exists w'. split; [by apply Hsd|].
    rewrite !(Hrem _). split_and!; try (vm_compute; reflexivity).
    apply Hkept. apply linked_outside_of_check. vm_compute. reflexivity.
Defined.

Lemma add_directory_again_witness :
  ∃ w1 w2,
    add None 4 ex_share [["data"]] ex_tree_world = (Ok tt, w1) ∧
    add None 4 ex_share [["data"]] w1 = (Ok tt, w2) ∧
    nodes (w_fs w2) = nodes (w_fs w1) ∧
    nodes (w_fs w2) !! ["s"; "data"; "sub"; "g.txt"] = Some (NFile 2).
Proof.
  destruct (add_directory_again None 4 ex_share ["data"] ex_tree_world [group_r])
    as (w1 & w2 & Hadd1 & Hadd2 & _ & Hn & Hm).
  - apply wf_of_check. vm_compute. reflexivity.
  - vm_compute. reflexivity.
  - vm_compute. reflexivity.
  - vm_compute. discriminate.
  - vm_compute. reflexivity.
  - intros [t Ht]. discriminate Ht.
  - apply linkable_of_check. vm_compute. reflexivity.
  - apply depth_of_check. vm_compute. reflexivity.
  - exists w1, w2. split; [exact Hadd1|]. split; [exact Hadd2|]. split; [exact Hn|].
    rewrite (Hm _). vm_compute. reflexivity.
Defined.

Lemma add_directory_then_self_destruct_witness :
  ∃ w1 w2,
    add None 4 ex_share [["data"]] ex_tree_world = (Ok tt, w1) ∧
    self_destruct None 4 ex_share false w1 = (Ok tt, w2) ∧
    nodes (w_fs w2) = delete ["s"] (nodes ex_tree) ∧
    ∃ ino', inodes (w_fs w2) !! 2 = Some ino' ∧ st_nlink ino' = 1.
Proof.
  destruct (add_directory_then_self_destruct None 4 ex_share ["data"] ex_tree_world
              [group_r])
    as (w1 & w2 & Hadd & Hsd & _ & Hn & Hl).
  - apply wf_of_check. vm_compute. reflexivity.
  - discriminate.
  - vm_compute. reflexivity.
  - apply empty_below_of_check. vm_compute. reflexivity.
  - vm_compute. reflexivity.
  - vm_compute. discriminate.
  - intros [t Ht]. discriminate Ht.
  - apply linkable_of_check. vm_compute. reflexivity.
  - apply depth_succ_of_check; [discriminate|]. vm_compute. reflexivity.
  - exists w1, w2. split; [exact Hadd|]. split; [exact Hsd|]. split; [exact Hn|].
    apply (Hl 2 {| st_nlink := 1; i_acl := [owner_rw]; i_linkable := true |}).
    + vm_compute. reflexivity.
    + vm_compute. lia.
Defined.

Lemma self_destruct_needs_force_witness :
  nodes (w_fs ex_world) !! ["s"; "stale"] = Some (NFile 2) ∧
  ∀ w', self_destruct None 3 ex_share false ex_world ≠ (Ok tt, w').
Proof.
  assert (Hp : nodes (w_fs ex_world) !! ["s"; "stale"] = Some (NFile 2))
    by (vm_compute; reflexivity).
  split; [exact Hp|].
  apply (self_destruct_needs_force None 3 ex_share ex_world ["s"; "stale"] 2).
  - apply wf_of_check. vm_compute. reflexivity.
  - exact Hp.
  - apply links_inside_of_check. vm_compute. reflexivity.
Defined.
Lemma C10_link_unlocks_source_witness :
  let ino := {| st_nlink := 2; i_acl := [group_r; owner_rw]; i_linkable := true |} in
  nodes (w_fs ex_world) !! ["data"; "f.txt"] = Some (NFile 1) ∧
  inodes (w_fs ex_world) !! 1 = Some ino ∧
  realpath_in ex_links ["data"; "alias"] = ["data"; "f.txt"] ∧
  (∃ w', _link_files None 1 ex_share ["data"; "f.txt"] ["s"; "again"] ex_world
           = (Ok tt, w') ∧
         nodes (w_fs w') !! ["s"; "again"] = Some (NFile 1) ∧
         w_ops w' = [EvAclUnset [lock_ace] ["data"; "f.txt"] true;
                     EvLink ["data"; "f.txt"] ["s"; "again"];
                     EvAclAppend [owner_rw] ["s"; "again"] false]) ∧
  (∃ w', link_attempt_in None false ex_share ["data"; "alias"] ["s"; "again"]
           {| lw_links := ex_links; lw_world := ex_world |}
           = (Ok tt, {| lw_links := ex_links; lw_world := w' |}) ∧
         nodes (w_fs w') !! ["s"; "again"] = Some (NFile 1) ∧
         inodes (w_fs w') !! 1 =
           Some {| st_nlink := 3; i_acl := [group_r; owner_rw; owner_rw];
                   i_linkable := true |} ∧
         w_ops w' = [EvAclUnset [lock_ace] ["data"; "alias"] true;
                     EvLink ["data"; "f.txt"] ["s"; "again"];
                     EvAclAppend [owner_rw] ["s"; "again"] false]) ∧
  fs_link_in false ["data"; "alias"] ["s"; "again"] ex_links ex_fs
    = (None, (<[["s"; "again"] := ["data"; "f.txt"]]> ex_links, ex_fs)).
Proof.
  intros ino.
  assert (Hn : nodes (w_fs ex_world) !! ["data"; "f.txt"] = Some (NFile 1))
    by (vm_compute; reflexivity).
  assert (Hi : inodes (w_fs ex_world) !! 1 = Some ino) by (vm_compute; reflexivity).
  assert (Hr : realpath_in ex_links ["data"; "alias"] = ["data"; "f.txt"])
    by (vm_compute; reflexivity).
  assert (Hwf : wf (w_fs ex_world)) by (apply wf_of_check; vm_compute; reflexivity).
  assert (Hnl : ¬ nameless ["s"; "again"]) by (intros H; discriminate H).
  split; [exact Hn|]. split; [exact Hi|]. split; [exact Hr|].
  destruct (C10_link_unlocks_source None 0 ex_share ["data"; "f.txt"] ["s"; "again"]
              ex_world 1 ino Hn Hi) as ((w1 & _ & _ & _ & _ & Hmain) & Hlinks & Hself).
  split; [|split].
  - apply (Hmain [owner_rw]); try exact Hwf; try exact Hnl; vm_compute; reflexivity.
  - apply (Hlinks false ex_links ["data"; "alias"] [owner_rw]);
      try exact Hr; try exact Hwf; try exact Hnl; vm_compute; reflexivity.
  - apply (Hself ex_links ["data"; "alias"]); try exact Hnl; vm_compute; reflexivity.
Defined.



Lemma C3_add_directory_idempotent_witness :
  ∃ w1 w2,
    add None 4 ex_share [["data"]] ex_tree_world = (Ok tt, w1) ∧
    nodes (w_fs w1) !! ["s"; "data"; "sub"; "g.txt"] = Some (NFile 2) ∧
    (∃ wa, _duplicate_as_linked_tree None 4 ex_share ["data"] w1
             = (Raise (FileExistsError ["s"; "data"]), wa) ∧ w_fs wa = w_fs w1) ∧
    add None 4 ex_share [["data"]] w1 = (Ok tt, w2) ∧
    nodes (w_fs w2) = nodes (w_fs w1) ∧
    nodes (w_fs w2) !! ["s"; "data"; "sub"; "g.txt"] = Some (NFile 2) ∧
    nodes (w_fs w2) !! ["s"; "data"; "sub"] = Some (NDir [group_r]).
Proof.
  destruct (C3_add_directory_idempotent None 4 ex_share ["data"] ex_tree_world [group_r])
    as (w1 & w2 & Hadd1 & Hm1 & (wa & Hfail & Hfa & _) & _ & Hadd2 & Hn & Hm2).
  - apply wf_of_check. vm_compute. reflexivity.
  - vm_compute. reflexivity.
  - vm_compute. reflexivity.
  - vm_compute. discriminate.
  - vm_compute. reflexivity.
  - intros [t Ht]. discriminate Ht.
  - apply linkable_of_check. vm_compute. reflexivity.
  - apply depth_of_check. vm_compute. reflexivity.
  - exists w1, w2. split; [exact Hadd1|]. split.
    { rewrite (Hm1 _). vm_compute. reflexivity. }
    split; [exists wa; split; [exact Hfail|exact Hfa]|].
    split; [exact Hadd2|]. split; [exact Hn|].
    rewrite !(Hm2 _). split; vm_compute; reflexivity.
Defined.


